(** * LocalLink: rendezvous relay and chunked transfer protocol

    A shallow embedding of [backend/server.js] (the signalling relay) and of
    [frontend/src/App.jsx]: the transfer core ([sendFiles], [updateStats],
    [setupReceiverEvents]), the helpers ([formatBytes], [formatTime],
    [generateName]) and the component with its handlers.  Numbers that the
    code divides or multiplies are IEEE 754 doubles.  The properties of the
    written design are checked against it first, further properties of the
    code after them. *)

From Stdlib Require Import String Ascii List ZArith NArith QArith Qround Qabs Lia Bool.
From Stdlib Require Import Strings.Byte DecimalString DecimalN DecimalFacts.
From Stdlib Require Import Floats.SpecFloat.
From stdpp Require Import base option list gmap strings.
Local Open Scope string_scope.
Local Open Scope list_scope.
Local Open Scope stdpp_scope.

(** ** The JSON built-ins

    [JSON.stringify] and [JSON.parse] as the core uses them.  A JavaScript
    string is represented by the bytes of its UTF-8 encoding, one [ascii]
    per byte, so that a string sent over the data channel and the [Buffer]
    delivered for it hold the same bytes.  A number is kept as the exact
    decimal [m * 10^e] it denotes. *)

Module JSON.

#[warnings="-register-all"] Inductive json : Type :=
| JNull
| JBool (b : bool)
| JNum (m : Z) (e : Z)
| JStr (s : string)
| JArr (l : list json)
| JObj (members : list (string * json)).

(** The double quote and the backslash, by their codes. *)
Definition dquote : ascii := "034"%char.
Definition backslash : ascii := "092"%char.

Definition code (c : ascii) : N := N_of_ascii c.

(** [msg.key] for a parsed object: of two members with the same key the
    later one counts; [None] stands for [undefined]. *)
Fixpoint assoc_last (k : string) (members : list (string * json)) : option json :=
  match members with
  | [] => None
  | (k', v) :: rest =>
      match assoc_last k rest with
      | Some v' => Some v'
      | None => if String.eqb k k' then Some v else None
      end
  end.

Definition get (v : json) (k : string) : option json :=
  match v with
  | JObj members => assoc_last k members
  | _ => None
  end.

(** [v === s] for a string literal [s]. *)
Definition is_str (v : option json) (s : string) : bool :=
  match v with
  | Some (JStr t) => String.eqb t s
  | _ => false
  end.

(** *** [JSON.stringify]

    A string is quoted with the escapes of the standard: the quote, the
    backslash, the five short control escapes, and [\u00xx] for the other
    characters below the space.  An integer is written in decimal; the
    core serialises no other number. *)

Definition hex_digit (n : N) : ascii :=
  if (n <? 10)%N then ascii_of_N (48 + n) else ascii_of_N (87 + n).

Definition escape_char (c : ascii) : string :=
  let n := code c in
  if (n =? 34)%N then String backslash (String dquote EmptyString)
  else if (n =? 92)%N then String backslash (String backslash EmptyString)
  else if (n =? 8)%N then String backslash "b"
  else if (n =? 9)%N then String backslash "t"
  else if (n =? 10)%N then String backslash "n"
  else if (n =? 12)%N then String backslash "f"
  else if (n =? 13)%N then String backslash "r"
  else if (n <? 32)%N then
    String backslash
      (String "u" (String "0" (String "0"
         (String (hex_digit (n / 16)) (String (hex_digit (n mod 16)) EmptyString)))))
  else String c EmptyString.

Fixpoint escape (s : string) : string :=
  match s with
  | EmptyString => EmptyString
  | String c rest => escape_char c +:+ escape rest
  end.

Definition quote (s : string) : string :=
  String dquote (escape s +:+ String dquote EmptyString).

Definition digits (n : N) : string := NilEmpty.string_of_uint (N.to_uint n).

Definition stringify_int (z : Z) : string :=
  match z with
  | Zneg p => String "-" (digits (Npos p))
  | _ => digits (Z.to_N z)
  end.

Definition stringify_num (m e : Z) : string :=
  if (e =? 0)%Z then stringify_int m
  else stringify_int m +:+ String "e" (stringify_int e).

Fixpoint join (sep : string) (l : list string) : string :=
  match l with
  | [] => EmptyString
  | [x] => x
  | x :: rest => x +:+ sep +:+ join sep rest
  end.

Fixpoint stringify (v : json) : string :=
  match v with
  | JNull => "null"
  | JBool true => "true"
  | JBool false => "false"
  | JNum m e => stringify_num m e
  | JStr s => quote s
  | JArr l => "[" +:+ join "," (List.map stringify l) +:+ "]"
  | JObj members =>
      "{" +:+ join "," (List.map (fun kv => quote (fst kv) +:+ ":" +:+ stringify (snd kv)) members) +:+ "}"
  end.

(** *** [JSON.parse]

    A recursive-descent parser of the JSON grammar; [None] stands for the
    [SyntaxError] that [JSON.parse] throws. *)

Definition is_ws (c : ascii) : bool :=
  let n := code c in
  (n =? 32)%N || (n =? 9)%N || (n =? 10)%N || (n =? 13)%N.

Fixpoint skip_ws (s : string) : string :=
  match s with
  | EmptyString => EmptyString
  | String c rest => if is_ws c then skip_ws rest else s
  end.

Definition is_digit (c : ascii) : bool :=
  let n := code c in (48 <=? n)%N && (n <=? 57)%N.

Definition hex_val (c : ascii) : option N :=
  let n := code c in
  if (48 <=? n)%N && (n <=? 57)%N then Some (n - 48)%N
  else if (97 <=? n)%N && (n <=? 102)%N then Some (n - 87)%N
  else if (65 <=? n)%N && (n <=? 70)%N then Some (n - 55)%N
  else None.

(** The body of a string literal is read as literal bytes and the code
    units of [\u] escapes; [text_of_pieces] then writes a code unit, or a
    surrogate pair of them, in UTF-8. *)
Inductive piece : Type :=
| Raw (c : ascii)
| Esc (u : N).

Definition simple_escape (c : ascii) : option ascii :=
  let n := code c in
  if (n =? 34)%N then Some dquote
  else if (n =? 92)%N then Some backslash
  else if (n =? 47)%N then Some "/"%char
  else if (n =? 98)%N then Some "008"%char
  else if (n =? 102)%N then Some "012"%char
  else if (n =? 110)%N then Some "010"%char
  else if (n =? 114)%N then Some "013"%char
  else if (n =? 116)%N then Some "009"%char
  else None.

Definition cons_piece (p : piece) (r : option (list piece * string)) :
  option (list piece * string) :=
  match r with
  | Some (ps, rest) => Some (p :: ps, rest)
  | None => None
  end.

Fixpoint parse_chars (s : string) : option (list piece * string) :=
  match s with
  | EmptyString => None
  | String c rest =>
      if (code c =? 34)%N then Some ([], rest)
      else if (code c =? 92)%N then
        match rest with
        | EmptyString => None
        | String e rest1 =>
            match simple_escape e with
            | Some ch => cons_piece (Raw ch) (parse_chars rest1)
            | None =>
                if (code e =? 117)%N then
                  match rest1 with
                  | String h1 (String h2 (String h3 (String h4 rest2))) =>
                      match hex_val h1, hex_val h2, hex_val h3, hex_val h4 with
                      | Some a, Some b, Some c', Some d =>
                          cons_piece (Esc (((a * 16 + b) * 16 + c') * 16 + d)%N)
                                     (parse_chars rest2)
                      | _, _, _, _ => None
                      end
                  | _ => None
                  end
                else None
            end
        end
      else if (code c <? 32)%N then None
      else cons_piece (Raw c) (parse_chars rest)
  end.

Definition byte_of (n : N) : ascii := ascii_of_N n.

Definition utf8 (cp : N) : string :=
  if (cp <? 128)%N then String (byte_of cp) EmptyString
  else if (cp <? 2048)%N then
    String (byte_of (192 + cp / 64)) (String (byte_of (128 + cp mod 64)) EmptyString)
  else if (cp <? 65536)%N then
    String (byte_of (224 + cp / 4096))
      (String (byte_of (128 + (cp / 64) mod 64))
         (String (byte_of (128 + cp mod 64)) EmptyString))
  else
    String (byte_of (240 + cp / 262144))
      (String (byte_of (128 + (cp / 4096) mod 64))
         (String (byte_of (128 + (cp / 64) mod 64))
            (String (byte_of (128 + cp mod 64)) EmptyString))).

Definition is_high (u : N) : bool := (55296 <=? u)%N && (u <=? 56319)%N.
Definition is_low (u : N) : bool := (56320 <=? u)%N && (u <=? 57343)%N.

Fixpoint text_of_pieces (ps : list piece) : string :=
  match ps with
  | [] => EmptyString
  | Raw c :: rest => String c (text_of_pieces rest)
  | Esc u :: rest =>
      match rest with
      | Esc v :: rest' =>
          if is_high u && is_low v
          then utf8 (65536 + (u - 55296) * 1024 + (v - 56320)) +:+ text_of_pieces rest'
          else utf8 u +:+ text_of_pieces rest
      | _ => utf8 u +:+ text_of_pieces rest
      end
  end.

Definition parse_string (s : string) : option (string * string) :=
  match parse_chars s with
  | Some (ps, rest) => Some (text_of_pieces ps, rest)
  | None => None
  end.

(** The digits at the head of a text, and what follows them. *)
Fixpoint span_digits (s : string) : string * string :=
  match s with
  | EmptyString => (EmptyString, EmptyString)
  | String c rest =>
      if is_digit c
      then let (d, r) := span_digits rest in (String c d, r)
      else (EmptyString, s)
  end.

Definition digits_value (d : string) : N :=
  match NilEmpty.uint_of_string d with
  | Some u => N.of_uint u
  | None => 0
  end.

Definition leading_zero (d : string) : bool :=
  match d with
  | String c (String _ _) => (code c =? 48)%N
  | _ => false
  end.

Definition parse_fraction (s : string) : option (string * string) :=
  match s with
  | String c rest =>
      if (code c =? 46)%N then
        match span_digits rest with
        | (EmptyString, _) => None
        | (fp, rest') => Some (fp, rest')
        end
      else Some (EmptyString, s)
  | EmptyString => Some (EmptyString, s)
  end.

Definition parse_exponent (s : string) : option (Z * string) :=
  match s with
  | String c rest =>
      if (code c =? 101)%N || (code c =? 69)%N then
        let (neg, rest1) :=
          match rest with
          | String sg r =>
              if (code sg =? 45)%N then (true, r)
              else if (code sg =? 43)%N then (false, r)
              else (false, rest)
          | EmptyString => (false, rest)
          end in
        match span_digits rest1 with
        | (EmptyString, _) => None
        | (ep, rest2) =>
            let v := Z.of_N (digits_value ep) in
            Some (if neg then (- v)%Z else v, rest2)
        end
      else Some (0%Z, s)
  | EmptyString => Some (0%Z, s)
  end.

(** A number: an optional minus sign, digits without a leading zero, an
    optional fraction, an optional exponent. *)
Definition parse_number (s : string) : option (json * string) :=
  let (neg, s1) :=
    match s with
    | String c rest => if (code c =? 45)%N then (true, rest) else (false, s)
    | EmptyString => (false, s)
    end in
  match span_digits s1 with
  | (EmptyString, _) => None
  | (ip, s2) =>
      if leading_zero ip then None
      else
        match parse_fraction s2 with
        | None => None
        | Some (fp, s3) =>
            match parse_exponent s3 with
            | None => None
            | Some (ex, s4) =>
                let m := Z.of_N (digits_value (ip +:+ fp)) in
                Some (JNum (if neg then (- m)%Z else m)
                           (ex - Z.of_nat (String.length fp))%Z, s4)
            end
        end
  end.

(** [strip lit s]: what follows [lit] at the head of [s]. *)
Fixpoint strip (lit s : string) : option string :=
  match lit with
  | EmptyString => Some s
  | String a lit' =>
      match s with
      | String b s' => if Ascii.eqb a b then strip lit' s' else None
      | EmptyString => None
      end
  end.

Definition expect (lit : string) (v : json) (s : string) : option (json * string) :=
  match strip lit s with
  | Some rest => Some (v, rest)
  | None => None
  end.

(** A value, the elements of an array after its bracket, and the members
    of an object after its brace; [acc] holds what has been read. *)
Fixpoint parse_value (fuel : nat) (s : string) {struct fuel} : option (json * string) :=
  match fuel with
  | O => None
  | S fuel' =>
      match skip_ws s with
      | EmptyString => None
      | String c rest =>
          let n := code c in
          if (n =? 123)%N then
            match skip_ws rest with
            | String c1 rest1 =>
                if (code c1 =? 125)%N then Some (JObj [], rest1)
                else parse_members fuel' [] rest
            | EmptyString => None
            end
          else if (n =? 91)%N then
            match skip_ws rest with
            | String c1 rest1 =>
                if (code c1 =? 93)%N then Some (JArr [], rest1)
                else parse_elements fuel' [] rest
            | EmptyString => None
            end
          else if (n =? 34)%N then
            match parse_string rest with
            | Some (str, rest1) => Some (JStr str, rest1)
            | None => None
            end
          else if (n =? 116)%N then expect "true" (JBool true) (String c rest)
          else if (n =? 102)%N then expect "false" (JBool false) (String c rest)
          else if (n =? 110)%N then expect "null" JNull (String c rest)
          else parse_number (String c rest)
      end
  end
with parse_elements (fuel : nat) (acc : list json) (s : string) {struct fuel}
  : option (json * string) :=
  match fuel with
  | O => None
  | S fuel' =>
      match parse_value fuel' s with
      | None => None
      | Some (v, rest) =>
          match skip_ws rest with
          | String c rest1 =>
              if (code c =? 44)%N then parse_elements fuel' (acc ++ [v]) rest1
              else if (code c =? 93)%N then Some (JArr (acc ++ [v]), rest1)
              else None
          | EmptyString => None
          end
      end
  end
with parse_members (fuel : nat) (acc : list (string * json)) (s : string) {struct fuel}
  : option (json * string) :=
  match fuel with
  | O => None
  | S fuel' =>
      match skip_ws s with
      | String q rest =>
          if (code q =? 34)%N then
            match parse_string rest with
            | None => None
            | Some (k, rest1) =>
                match skip_ws rest1 with
                | String c rest2 =>
                    if (code c =? 58)%N then
                      match parse_value fuel' rest2 with
                      | None => None
                      | Some (v, rest3) =>
                          match skip_ws rest3 with
                          | String d rest4 =>
                              if (code d =? 44)%N
                              then parse_members fuel' (acc ++ [(k, v)]) rest4
                              else if (code d =? 125)%N
                              then Some (JObj (acc ++ [(k, v)]), rest4)
                              else None
                          | EmptyString => None
                          end
                      end
                    else None
                | EmptyString => None
                end
            end
          else None
      | EmptyString => None
      end
  end.

(** A call of the three functions above takes a character off the text or is
    the first call for a value inside an array or an object, so that twice
    the length of the text, plus one, is fuel that is never used up: any
    larger amount gives the same result ([parse_value_fuel]). *)
Definition parse (text : string) : option json :=
  match parse_value (S (2 * String.length text)) text with
  | Some (v, rest) =>
      match skip_ws rest with
      | EmptyString => Some v
      | _ => None
      end
  | None => None
  end.

(** What [parse_chars] reads back for the characters [escape] writes. *)
Definition piece_of (c : ascii) : piece :=
  let n := code c in
  if (n <? 32)%N && negb ((n =? 8) || (n =? 9) || (n =? 10) || (n =? 12) || (n =? 13))%N
  then Esc n else Raw c.

Fixpoint pieces_of (s : string) : list piece :=
  match s with
  | EmptyString => []
  | String c rest => piece_of c :: pieces_of rest
  end.

End JSON.

(** ** frontend/src/App.jsx: files, formatting and progress

    Byte counts and times are integers; the quotients [updateStats] forms
    from them are kept as exact rationals, so the rounding of the doubles
    of JavaScript is left out. *)

Definition Buffer : Type := list byte.

Definition byteLength (data : Buffer) : Z := Z.of_nat (length data).

(** A string handed to [peerConnection.send] is delivered as the [Buffer] of
    its bytes, and [data.toString()] reads the bytes back. *)
Definition Buffer_from (text : string) : Buffer := list_byte_of_string text.
Definition toString (data : Buffer) : string := string_of_list_byte data.

(** A browser [File]: [size] is the length of the content and
    [slice start stop] the bytes from [start] up to [stop], both clamped. *)
Record File : Type := {
  name : string;
  webkitRelativePath : string;
  content : list byte
}.

Definition size (file : File) : Z := Z.of_nat (length (content file)).

Definition slice (file : File) (start stop : Z) : Buffer :=
  take (Z.to_nat (stop - start)) (drop (Z.to_nat start) (content file)).

(** App.jsx 126-127. *)
Definition CHUNK_SIZE : Z := 64 * 1024.
Definition BUFFER_THRESHOLD : Z := 1024 * 1024.

Definition Qlt_bool (x y : Q) : bool := negb (Qle_bool y x).

(** ** JavaScript numbers

    A Number is an IEEE 754 double.  Its arithmetic is [SpecFloat]'s of the
    standard library at precision 53 and exponent bound 1024: a result is
    the exact one rounded to the nearest double, ties to the even mantissa.
    What JavaScript adds, [Math.floor], [%], [Number::toString] and
    [toFixed], is computed from the exact value of the double. *)

Module Double.

Definition number : Type := spec_float.

Definition prec : Z := 53.
Definition emax : Z := 1024.

Definition zero : number := S754_zero false.
Definition one : number := S754_finite false 4503599627370496 (-52).

(** An integer literal, or an integer that is held exactly: the nearest
    double. *)
Definition of_Z (z : Z) : number := binary_normalize prec emax z 0 false.

Definition sub : number -> number -> number := SFsub prec emax.
Definition mul : number -> number -> number := SFmul prec emax.
Definition div : number -> number -> number := SFdiv prec emax.

(** [===], [<] and [<=] on Numbers: false when an operand is [NaN]. *)
Definition eqb : number -> number -> bool := SFeqb.
Definition ltb : number -> number -> bool := SFltb.
Definition leb : number -> number -> bool := SFleb.

Definition isFinite (x : number) : bool :=
  match x with
  | S754_zero _ | S754_finite _ _ _ => true
  | S754_infinity _ | S754_nan => false
  end.

(** The doubles as [Math.random], [Date.now] or an operation return them:
    the mantissa has 53 bits, or fewer at the least exponent. *)
Definition valid (x : number) : bool := valid_binary prec emax x.

(** The real number that a finite [x] is. *)
Definition magnitude (m : positive) (e : Z) : Q := (inject_Z (Zpos m) * 2 ^ e)%Q.

Definition value (x : number) : Q :=
  match x with
  | S754_finite s m e => if s then (- magnitude m e)%Q else magnitude m e
  | _ => 0%Q
  end.

(** The greatest integer that is at most a finite [x]. *)
Definition floorZ (x : number) : option Z :=
  match x with
  | S754_zero _ => Some 0%Z
  | S754_finite s m e => Some (Z.shiftl (if s then Zneg m else Zpos m) e)
  | S754_infinity _ | S754_nan => None
  end.

(** [Math.floor(x)]: a double holds the integer below it exactly; a zero
    result has the sign of [x]. *)
Definition floor (x : number) : number :=
  match x with
  | S754_finite s _ _ =>
      match floorZ x with
      | Some 0%Z => S754_zero s
      | Some n => of_Z n
      | None => x
      end
  | _ => x
  end.

(** [x % y]: the remainder of the division that truncates, exact, with the
    sign of [x]. *)
Definition rem (x y : number) : number :=
  match x, y with
  | S754_nan, _ | _, S754_nan => S754_nan
  | S754_infinity _, _ => S754_nan
  | _, S754_zero _ => S754_nan
  | _, S754_infinity _ => x
  | S754_zero _, S754_finite _ _ _ => x
  | S754_finite sx mx ex, S754_finite sy my ey =>
      let e := Z.min ex ey in
      let r := ((Zpos mx * 2 ^ (ex - e)) mod (Zpos my * 2 ^ (ey - e)))%Z in
      binary_normalize prec emax (if sx then - r else r)%Z e sx
  end.

(** *** [Number::toString]

    The digits are the fewest that denote a decimal which rounds to the
    number, and of these the nearest to it. *)

Definition between (closed : bool) (low high c : Q) : bool :=
  if closed then Qle_bool low c && Qle_bool c high
  else Qlt_bool low c && Qlt_bool c high.

Fixpoint below_one (fuel : nat) (v : Q) (n : Z) : Z :=
  match fuel with
  | O => n
  | S fuel' => if Qle_bool (10 ^ (n - 1)) v then n else below_one fuel' v (n - 1)
  end.

(** The [n] with [10^(n-1) <= v < 10^n], for [v] from the least double up. *)
Definition exponent10 (v : Q) : Z :=
  if Qle_bool 1 v then Z.of_nat (String.length (JSON.stringify_int (Qfloor v)))
  else below_one 400 v 0.

Definition nearer (v lo hi : Q) (s : Z) : bool :=
  let dl := (v - lo)%Q in
  let dh := (hi - v)%Q in
  Qlt_bool dl dh || (Qle_bool dl dh && Z.even s).

(** With [k] digits the two decimals around [v] are [s * 10^p] and
    [(s + 1) * 10^p]; 17 digits always suffice. *)
Fixpoint shortest (count : nat) (k : Z) (closed : bool) (low high v : Q) (n : Z)
    : Z * Z :=
  let p := (n - k)%Z in
  let s := Qfloor (v / 10 ^ p) in
  let lo := (inject_Z s * 10 ^ p)%Q in
  let hi := (inject_Z (s + 1) * 10 ^ p)%Q in
  match count with
  | O => (s, p)
  | S count' =>
      match between closed low high lo, between closed low high hi with
      | true, true => if nearer v lo hi s then (s, p) else ((s + 1)%Z, p)
      | true, false => (s, p)
      | false, true => ((s + 1)%Z, p)
      | false, false => shortest count' (k + 1) closed low high v n
      end
  end.

Fixpoint strip (fuel : nat) (s p : Z) : Z * Z :=
  match fuel with
  | O => (s, p)
  | S fuel' => if (s mod 10 =? 0)%Z then strip fuel' (s / 10) (p + 1) else (s, p)
  end.

Definition zeros (n : Z) : string := string_of_list_ascii (repeat "0"%char (Z.to_nat n)).

(** The digits [d1 ... dk] of the decimal [0.d1...dk * 10^n], laid out. *)
Definition layout (digits : string) (n : Z) : string :=
  let k := Z.of_nat (String.length digits) in
  if (k <=? n)%Z && (n <=? 21)%Z then digits +:+ zeros (n - k)
  else if (0 <? n)%Z && (n <=? 21)%Z then
    substring 0 (Z.to_nat n) digits +:+ "."
    +:+ substring (Z.to_nat n) (Z.to_nat (k - n)) digits
  else if (-6 <? n)%Z && (n <=? 0)%Z then "0." +:+ zeros (- n) +:+ digits
  else
    let e := (n - 1)%Z in
    let sign := if (e <? 0)%Z then "-" else "+" in
    let mantissa :=
      if (k =? 1)%Z then digits
      else substring 0 1 digits +:+ "." +:+ substring 1 (Z.to_nat (k - 1)) digits in
    mantissa +:+ "e" +:+ sign +:+ JSON.stringify_int (Z.abs e).

(** The decimals that round to [m * 2^e] lie half a step around it; the
    step below the least mantissa of an exponent is half the one above. *)
Definition toString_pos (m : positive) (e : Z) : string :=
  let v := magnitude m e in
  let up := (2 ^ (e - 1))%Q in
  let down := if (Zpos m =? 2 ^ 52)%Z && (-1074 <? e)%Z then (2 ^ (e - 2))%Q else up in
  let '(s, p) := shortest 17 1 (Z.even (Zpos m)) (v - down)%Q (v + up)%Q v (exponent10 v) in
  let '(s, p) := strip 400 s p in
  let digits := JSON.stringify_int s in
  layout digits (Z.of_nat (String.length digits) + p).

Definition toString (x : number) : string :=
  match x with
  | S754_nan => "NaN"
  | S754_zero _ => "0"
  | S754_infinity s => if s then "-Infinity" else "Infinity"
  | S754_finite s m e => if s then "-" +:+ toString_pos m e else toString_pos m e
  end.

(** [x.toFixed(1)]: the tenth nearest to the value of [x], the larger of
    two, with the sign of [x]; from [10^21] on, and for what is not finite,
    [Number::toString]. *)
Definition toFixed1 (x : number) : string :=
  if negb (isFinite x) then toString x
  else
    let v := Qabs (value x) in
    let sign := if Qlt_bool (value x) 0 then "-" else EmptyString in
    if Qle_bool (10 ^ 21) v then toString x
    else
      let n := Qfloor (v * 10 + (1 # 2)) in
      sign +:+ JSON.stringify_int (n / 10) +:+ "." +:+ JSON.stringify_int (n mod 10).

End Double.

(** [formatTime] (App.jsx 36-41). *)
Definition formatTime (seconds : Double.number) : string :=
  if negb (Double.isFinite seconds) || Double.ltb seconds Double.zero then "--:--"
  else
    let m := Double.floor (Double.div seconds (Double.of_Z 60)) in
    let s := Double.floor (Double.rem seconds (Double.of_Z 60)) in
    Double.toString m +:+ "m " +:+ Double.toString s +:+ "s".

(** The [stats] state (App.jsx 106-114). *)
Record Stats : Type := {
  totalFiles : Z;
  processedFiles : Z;
  totalBytes : Z;
  processedBytes : Z;
  speed : string;
  eta : string;
  currentFile : string
}.

(** [stats] with the two refs that [updateStats] reads and writes. *)
Record Progress : Type := {
  stats : Stats;
  lastBytesRef : Z;
  lastTimeRef : Z
}.

(** The three local constants of [updateStats], as functions of its
    arguments: [timeDiff] in seconds, [speedBytesPerSec], [etaSeconds].
    The clock readings and the byte counts are integers that a Number holds
    exactly, so that each difference is the exact one. *)
Definition timeDiff (now : Z) (p : Progress) : Double.number :=
  Double.div (Double.of_Z (now - lastTimeRef p)) (Double.of_Z 1000).

Definition speedBytesPerSec (now processed : Z) (p : Progress) : Double.number :=
  if Double.ltb Double.zero (timeDiff now p)
  then Double.div (Double.of_Z (processed - lastBytesRef p)) (timeDiff now p)
  else Double.zero.

Definition etaSeconds (now total processed : Z) (p : Progress) : Double.number :=
  if Double.ltb Double.zero (speedBytesPerSec now processed p)
  then Double.div (Double.of_Z (total - processed)) (speedBytesPerSec now processed p)
  else Double.zero.

(** [(speedBytesPerSec / 1024 / 1024).toFixed(1)] *)
Definition speedMB (speed : Double.number) : string :=
  Double.toFixed1 (Double.div (Double.div speed (Double.of_Z 1024)) (Double.of_Z 1024)).

(** [updateStats(totalBytes, processedBytes, currentFile, totalFiles,
    processedFiles)] (App.jsx 586-620), written here [total], [processed],
    [current], [nfiles], [done]; [now] is the reading of [Date.now()]. *)
Definition updateStats (now : Z) (total processed : Z) (current : string)
    (nfiles done : Z) (p : Progress) : Progress :=
  if Double.eqb (timeDiff now p) Double.zero then p
  else if Double.leb Double.one (timeDiff now p) || (processed =? total)%Z then
    let speedMB := speedMB (speedBytesPerSec now processed p) in
    {| stats := {| totalFiles := nfiles;
                   processedFiles := done;
                   totalBytes := total;
                   processedBytes := processed;
                   speed := speedMB +:+ " MB/s";
                   eta := formatTime (etaSeconds now total processed p);
                   currentFile := current |};
       lastBytesRef := processed;
       lastTimeRef := now |}
  else
    {| stats := {| totalFiles := totalFiles (stats p);
                   processedFiles := done;
                   totalBytes := totalBytes (stats p);
                   processedBytes := processed;
                   speed := speed (stats p);
                   eta := eta (stats p);
                   currentFile := current |};
       lastBytesRef := lastBytesRef p;
       lastTimeRef := lastTimeRef p |}.

(** ** frontend/src/App.jsx: the sender *)

(** The three places where [sendFiles] calls [peerConnection.send]. *)
Inductive Site : Type := AtHeader | AtChunk | AtEnd.

(** One accepted [send]: the frame, the call site, and the channel's
    [bufferedAmount] when [send] was called. *)
Record Enqueued : Type := {
  frame : Buffer;
  site : Site;
  buffered_before : Z
}.

(** What the sender reads from and writes to. *)
Record World : Type := {
  sent : list Enqueued;
  bufferedAmount : Z;
  nsend : nat;
  tick : nat;
  progress : Progress;
  transferring : bool;
  toasts : list (string * string);
  console_error : list string;
  selectedFiles : list File;
  sentBytesTotal : Z
}.

(** What the browser and the network decide: whether the [k]-th call of
    [send] throws, whether [peerConnection._channel] is set during a turn of
    the event loop, what [bufferedAmount] is after a turn, what [Date.now()]
    reads during a turn, and for how many polls a backpressure wait is
    followed before it counts as never resolving. *)
Record Env : Type := {
  send_throws : nat -> bool;
  channel : nat -> bool;
  drain : nat -> Z -> Z;
  clock : nat -> Z;
  patience : nat
}.

(** An [async] computation ends normally, throws, or never settles. *)
Inductive Outcome (A : Type) : Type :=
| Ok (a : A) (w : World)
| Throw (w : World)
| Hang (w : World).
Arguments Ok {A} a w.
Arguments Throw {A} w.
Arguments Hang {A} w.

Definition M (A : Type) : Type := World -> Outcome A.

#[global] Instance M_ret : MRet M := fun A a w => Ok a w.

#[global] Instance M_bind : MBind M := fun A B f c w =>
  match c w with
  | Ok a w' => f a w'
  | Throw w' => Throw w'
  | Hang w' => Hang w'
  end.

(** [try { body } catch (err) { handler }] *)
Definition try_catch (body handler : M unit) : M unit := fun w =>
  match body w with
  | Throw w' => handler w'
  | other => other
  end.

Definition modify (f : World -> World) : M unit := fun w => Ok tt (f w).

Definition final {A} (o : Outcome A) : World :=
  match o with
  | Ok _ w => w
  | Throw w => w
  | Hang w => w
  end.

Definition wire (w : World) : list Buffer := frame <$> sent w.

Definition set_progress (f : Progress -> Progress) (w : World) : World :=
  {| sent := sent w; bufferedAmount := bufferedAmount w; nsend := nsend w;
     tick := tick w; progress := f (progress w);
     transferring := transferring w; toasts := toasts w;
     console_error := console_error w; selectedFiles := selectedFiles w;
     sentBytesTotal := sentBytesTotal w |}.

Definition setTransferring (b : bool) (w : World) : World :=
  {| sent := sent w; bufferedAmount := bufferedAmount w; nsend := nsend w;
     tick := tick w; progress := progress w;
     transferring := b; toasts := toasts w;
     console_error := console_error w; selectedFiles := selectedFiles w;
     sentBytesTotal := sentBytesTotal w |}.

Definition addToast (message type : string) (w : World) : World :=
  {| sent := sent w; bufferedAmount := bufferedAmount w; nsend := nsend w;
     tick := tick w; progress := progress w;
     transferring := transferring w; toasts := toasts w ++ [(message, type)];
     console_error := console_error w; selectedFiles := selectedFiles w;
     sentBytesTotal := sentBytesTotal w |}.

Definition log_error (message : string) (w : World) : World :=
  {| sent := sent w; bufferedAmount := bufferedAmount w; nsend := nsend w;
     tick := tick w; progress := progress w;
     transferring := transferring w; toasts := toasts w;
     console_error := console_error w ++ [message];
     selectedFiles := selectedFiles w;
     sentBytesTotal := sentBytesTotal w |}.

Definition setSelectedFiles (files : list File) (w : World) : World :=
  {| sent := sent w; bufferedAmount := bufferedAmount w; nsend := nsend w;
     tick := tick w; progress := progress w;
     transferring := transferring w; toasts := toasts w;
     console_error := console_error w; selectedFiles := files;
     sentBytesTotal := sentBytesTotal w |}.

Definition set_sentBytesTotal (n : Z) (w : World) : World :=
  {| sent := sent w; bufferedAmount := bufferedAmount w; nsend := nsend w;
     tick := tick w; progress := progress w;
     transferring := transferring w; toasts := toasts w;
     console_error := console_error w; selectedFiles := selectedFiles w;
     sentBytesTotal := n |}.

Definition setStats (f : Stats -> Stats) : Progress -> Progress := fun p =>
  {| stats := f (stats p); lastBytesRef := lastBytesRef p;
     lastTimeRef := lastTimeRef p |}.

Section Sender.
Variable env : Env.

(** [peerConnection.send(data)]: simple-peer hands the data to
    [this._channel.send], which throws when there is no channel. *)
Definition send (st : Site) (data : Buffer) : M unit := fun w =>
  if send_throws env (nsend w) || negb (channel env (tick w)) then
    Throw {| sent := sent w; bufferedAmount := bufferedAmount w;
             nsend := S (nsend w); tick := tick w; progress := progress w;
             transferring := transferring w; toasts := toasts w;
             console_error := console_error w;
             selectedFiles := selectedFiles w;
             sentBytesTotal := sentBytesTotal w |}
  else
    Ok tt {| sent := sent w ++ [{| frame := data; site := st;
                                   buffered_before := bufferedAmount w |}];
             bufferedAmount := bufferedAmount w + byteLength data;
             nsend := S (nsend w); tick := tick w; progress := progress w;
             transferring := transferring w; toasts := toasts w;
             console_error := console_error w;
             selectedFiles := selectedFiles w;
             sentBytesTotal := sentBytesTotal w |}.

(** An [await]: the function gives way to the event loop for a turn. *)
Definition yield : M unit := fun w =>
  Ok tt {| sent := sent w;
           bufferedAmount := drain env (tick w) (bufferedAmount w);
           nsend := nsend w; tick := S (tick w); progress := progress w;
           transferring := transferring w; toasts := toasts w;
           console_error := console_error w;
           selectedFiles := selectedFiles w;
           sentBytesTotal := sentBytesTotal w |}.

(** The closure [check] of the backpressure wait (App.jsx 553-557): resolve
    when the buffer is below the threshold, else look again after a timer.
    In a timer callback a missing channel throws outside any [try], and the
    promise never resolves. *)
Fixpoint check (polls : nat) : M unit := fun w =>
  if (bufferedAmount w <? BUFFER_THRESHOLD)%Z then Ok tt w
  else
    match polls with
    | O => Hang w
    | S polls' =>
        match yield w with
        | Ok _ w' => if channel env (tick w') then check polls' w' else Hang w'
        | other => other
        end
    end.

Definition backpressure : M unit := fun w =>
  if channel env (tick w) && (BUFFER_THRESHOLD <? bufferedAmount w)%Z
  then check (patience env) w
  else Ok tt w.

(** The [while (offset < file.size)] loop (App.jsx 546-567).  Every turn
    advances [offset] by a chunk that is not empty, so that the [rounds]
    given by [sendFile], the size of the file plus one, are never used up
    ([sendChunks_rounds]). *)
Fixpoint sendChunks (rounds : nat) (file : File) (total nfiles i offset : Z)
    : M unit :=
  match rounds with
  | O => Hang
  | S rounds' =>
      if (offset <? size file)%Z then
        let chunk := slice file offset (offset + CHUNK_SIZE) in
        yield;;
        backpressure;;
        send AtChunk chunk;;
        modify (fun w => set_sentBytesTotal (sentBytesTotal w + byteLength chunk) w);;
        modify (fun w =>
          set_progress (updateStats (clock env (tick w)) total
                          (sentBytesTotal w) (name file) nfiles i) w);;
        sendChunks rounds' file total nfiles i (offset + byteLength chunk)%Z
      else mret tt
  end.

(** The object of App.jsx 535-540, and that of line 571. *)
Definition header (file : File) : JSON.json :=
  JSON.JObj [("type", JSON.JStr "file-header");
             ("name", JSON.JStr (name file));
             ("size", JSON.JNum (size file) 0);
             ("path", JSON.JStr (if String.eqb (webkitRelativePath file) EmptyString
                                 then name file
                                 else webkitRelativePath file))].

Definition file_end : JSON.json := JSON.JObj [("type", JSON.JStr "file-end")].

(** The body of the [try] (App.jsx 534-571). *)
Definition sendFile (file : File) (total nfiles i : Z) : M unit :=
  send AtHeader (Buffer_from (JSON.stringify (header file)));;
  yield;;
  sendChunks (S (Z.to_nat (size file))) file total nfiles i 0%Z;;
  yield;;
  send AtEnd (Buffer_from (JSON.stringify file_end)).

(** The [for] loop with its [catch] (App.jsx 530-577). *)
Fixpoint forFiles (files : list File) (total nfiles i : Z) : M unit :=
  match files with
  | [] => mret tt
  | file :: rest =>
      try_catch (sendFile file total nfiles i)
        (modify (log_error ("Error sending " +:+ name file +:+ ":"));;
         modify (addToast ("Failed to send " +:+ name file) "error"));;
      forFiles rest total nfiles (i + 1)%Z
  end.

Definition firstName (files : list File) : string :=
  match files with
  | file :: _ => if String.eqb (name file) EmptyString then "Starting..." else name file
  | [] => "Starting..."
  end.

(** [sendFiles] (App.jsx 512-583). *)
Definition sendFiles (files : list File) : M unit :=
  let total := fold_left (fun acc f => (acc + size f)%Z) files 0%Z in
  let nfiles := Z.of_nat (length files) in
  modify (setTransferring true);;
  modify (fun w => set_progress (fun p =>
    {| stats := {| totalFiles := nfiles; processedFiles := 0;
                   totalBytes := total; processedBytes := 0;
                   speed := "0 MB/s"; eta := "--:--";
                   currentFile := firstName files |};
       lastBytesRef := 0;
       lastTimeRef := clock env (tick w) |}) w);;
  modify (set_sentBytesTotal 0);;
  forFiles files total nfiles 0%Z;;
  modify (setTransferring false);;
  modify (set_progress (setStats (fun prev =>
    {| totalFiles := totalFiles prev; processedFiles := nfiles;
       totalBytes := totalBytes prev; processedBytes := processedBytes prev;
       speed := speed prev; eta := eta prev;
       currentFile := "Completed!" |})));;
  modify (addToast "All files sent!" "success");;
  modify (setSelectedFiles []).

End Sender.

(** The payloads the [while] loop cuts from a file, in order. *)
Fixpoint slices (rounds : nat) (file : File) (offset : Z) : list Buffer :=
  match rounds with
  | O => []
  | S rounds' =>
      if (offset <? size file)%Z then
        let chunk := slice file offset (offset + CHUNK_SIZE) in
        chunk :: slices rounds' file (offset + byteLength chunk)%Z
      else []
  end.

Definition chunksOf (file : File) : list Buffer :=
  slices (S (Z.to_nat (size file))) file 0%Z.

(** The frames of the protocol and their encoding on the channel; a Header
    is made for a file, of which it carries name, size and path. *)
Inductive Frame : Type :=
| Header (file : File)
| DataChunk (payload : Buffer)
| EndMarker.

Definition encode (f : Frame) : Buffer :=
  match f with
  | Header file => Buffer_from (JSON.stringify (header file))
  | DataChunk payload => payload
  | EndMarker => Buffer_from (JSON.stringify file_end)
  end.

Definition framesOf (file : File) : list Frame :=
  Header file :: (DataChunk <$> chunksOf file) ++ [EndMarker].

(** A world in which nothing has happened yet. *)
Definition idle : World :=
  {| sent := []; bufferedAmount := 0; nsend := 0; tick := 0;
     progress := {| stats := {| totalFiles := 0; processedFiles := 0;
                                totalBytes := 0; processedBytes := 0;
                                speed := "0 MB/s"; eta := "--:--";
                                currentFile := "Waiting..." |};
                    lastBytesRef := 0; lastTimeRef := 0 |};
     transferring := false; toasts := []; console_error := [];
     selectedFiles := []; sentBytesTotal := 0 |}.

(** *** Channels on which nothing goes wrong *)

(** The buffered amount [b] of turn [t], [k] turns later. *)
Fixpoint polled (env : Env) (k t : nat) (b : Z) : Z :=
  match k with
  | O => b
  | S k' => polled env k' (S t) (drain env t b)
  end.

(** From the [n]-th call of [send] and the [t]-th turn on: [send] does not
    throw, the channel is there, and a backpressure wait, whenever it
    starts and whatever is buffered then, sees the buffer below the mark
    within the polls that are followed. *)
Definition healthy_from (env : Env) (n t : nat) : Prop :=
  (forall k, n <= k -> send_throws env k = false) /\
  (forall t', t <= t' -> channel env t' = true) /\
  (forall t' b, t <= t' ->
     exists k, k <= patience env /\ (polled env k t' b < BUFFER_THRESHOLD)%Z).

Definition healthy (env : Env) : Prop := healthy_from env 0 0.

(** A chunk was enqueued with the buffer at most at the mark, which leaves
    the buffer at most one chunk above it. *)
Definition bounded (e : Enqueued) : Prop :=
  site e = AtChunk ->
  (buffered_before e <= BUFFER_THRESHOLD)%Z /\
  (buffered_before e + byteLength (frame e) <= BUFFER_THRESHOLD + CHUNK_SIZE)%Z.

(** [sends frames w w']: from [w] to [w'] exactly [frames] went onto the
    channel, and no error was reported. *)
Definition sends (frames : list Buffer) (w w' : World) : Prop :=
  wire w' = wire w ++ frames /\ nsend w <= nsend w' /\ tick w <= tick w' /\
  toasts w' = toasts w.

(** On a healthy channel [c] ends normally, having sent [frames]. *)
Definition completes (env : Env) (c : M unit) (frames : list Buffer) : Prop :=
  forall w, healthy_from env (nsend w) (tick w) ->
    exists w', c w = Ok tt w' /\ sends frames w w'.

(** From [w] to [w'] the channel only took frames that are [bounded]. *)
Definition safe (w w' : World) : Prop :=
  exists evs, sent w' = sent w ++ evs /\ Forall bounded evs.

Definition keeps_safe {A} (c : M A) : Prop := forall w, safe w (final (c w)).

(** The world after the [catch] block of the loop has run in [w]. *)
Definition reported (file : File) (w : World) : World :=
  addToast ("Failed to send " +:+ name file) "error"
    (log_error ("Error sending " +:+ name file +:+ ":") w).

(** ** frontend/src/App.jsx: the receiver *)

(** What the browser decides for the receiver: the user agent test, whether
    [streamSaver.supported] holds, and whether the [k]-th call of
    [streamSaver.createWriteStream] throws. *)
Record REnv : Type := {
  isIOS : bool;
  streamSaver_supported : bool;
  createWriteStream_throws : nat -> bool
}.

(** An open stream writer: the name and size it was created with and the
    bytes written to it so far. *)
Record Writer : Type := {
  wr_name : option JSON.json;
  wr_size : option JSON.json;
  wr_written : list byte
}.

(** A file handed to the browser: a closed stream, or a clicked blob link. *)
Record Download : Type := {
  filename : option JSON.json;
  bytes : list byte
}.

(** What the handler prints, shows, or lets escape. *)
Inductive REvent : Type :=
| Log_Receiving (name : option JSON.json)
| Log_StreamSaverFailed
| Log_FileReceived (name : option JSON.json)
| Toast_Received (name : option JSON.json)
| Uncaught_TypeError.

(** The variables closed over by the data handler (App.jsx 624-629),
    followed by what the handler has done to the outside. *)
Record Receiver : Type := {
  currentFileMeta : option JSON.json;
  writable : option Writer;
  chunks : list Buffer;
  isFileSystemAPI : bool;
  receivedBytes : Z;
  created : nat;
  downloads : list Download;
  rlog : list REvent
}.

Definition setupReceiverEvents : Receiver :=
  {| currentFileMeta := None; writable := None; chunks := [];
     isFileSystemAPI := false; receivedBytes := 0; created := 0;
     downloads := []; rlog := [] |}.

(** The classification at App.jsx 632-643: [Some msg] when [isControl]. *)
Definition control (data : Buffer) : option JSON.json :=
  if (byteLength data <? 1000)%Z then
    let text := toString data in
    if String.prefix "{" text then JSON.parse text else None
  else None.

Definition with_meta (meta : option JSON.json) (r : Receiver) : Receiver :=
  {| currentFileMeta := meta; writable := writable r; chunks := chunks r;
     isFileSystemAPI := isFileSystemAPI r; receivedBytes := receivedBytes r;
     created := created r; downloads := downloads r; rlog := rlog r |}.

Definition with_writable (w : option Writer) (r : Receiver) : Receiver :=
  {| currentFileMeta := currentFileMeta r; writable := w; chunks := chunks r;
     isFileSystemAPI := isFileSystemAPI r; receivedBytes := receivedBytes r;
     created := created r; downloads := downloads r; rlog := rlog r |}.

Definition with_chunks (cs : list Buffer) (r : Receiver) : Receiver :=
  {| currentFileMeta := currentFileMeta r; writable := writable r; chunks := cs;
     isFileSystemAPI := isFileSystemAPI r; receivedBytes := receivedBytes r;
     created := created r; downloads := downloads r; rlog := rlog r |}.

Definition with_isFileSystemAPI (b : bool) (r : Receiver) : Receiver :=
  {| currentFileMeta := currentFileMeta r; writable := writable r;
     chunks := chunks r; isFileSystemAPI := b;
     receivedBytes := receivedBytes r; created := created r;
     downloads := downloads r; rlog := rlog r |}.

Definition with_receivedBytes (n : Z) (r : Receiver) : Receiver :=
  {| currentFileMeta := currentFileMeta r; writable := writable r;
     chunks := chunks r; isFileSystemAPI := isFileSystemAPI r;
     receivedBytes := n; created := created r;
     downloads := downloads r; rlog := rlog r |}.

Definition with_created (n : nat) (r : Receiver) : Receiver :=
  {| currentFileMeta := currentFileMeta r; writable := writable r;
     chunks := chunks r; isFileSystemAPI := isFileSystemAPI r;
     receivedBytes := receivedBytes r; created := n;
     downloads := downloads r; rlog := rlog r |}.

Definition download (d : Download) (r : Receiver) : Receiver :=
  {| currentFileMeta := currentFileMeta r; writable := writable r;
     chunks := chunks r; isFileSystemAPI := isFileSystemAPI r;
     receivedBytes := receivedBytes r; created := created r;
     downloads := downloads r ++ [d]; rlog := rlog r |}.

Definition logging (e : REvent) (r : Receiver) : Receiver :=
  {| currentFileMeta := currentFileMeta r; writable := writable r;
     chunks := chunks r; isFileSystemAPI := isFileSystemAPI r;
     receivedBytes := receivedBytes r; created := created r;
     downloads := downloads r; rlog := rlog r ++ [e] |}.

Definition write (data : Buffer) (w : Writer) : Writer :=
  {| wr_name := wr_name w; wr_size := wr_size w;
     wr_written := wr_written w ++ data |}.

Section Receiver.
Variable renv : REnv.

(** [msg.type === 'file-header'] (App.jsx 646-672). *)
Definition onHeader (msg : JSON.json) (r : Receiver) : Receiver :=
  let r := logging (Log_Receiving (JSON.get msg "name")) r in
  let r := with_receivedBytes 0 (with_meta (Some msg) r) in
  let r := with_isFileSystemAPI false r in
  if negb (isIOS renv) then
    if streamSaver_supported renv then
      if createWriteStream_throws renv (created r) then
        with_chunks [] (logging Log_StreamSaverFailed
                          (with_created (S (created r)) r))
      else
        with_writable (Some {| wr_name := JSON.get msg "name";
                               wr_size := JSON.get msg "size";
                               wr_written := [] |})
                      (with_created (S (created r)) r)
    else with_chunks [] r
  else with_chunks [] r.

(** [msg.type === 'file-end'] (App.jsx 674-696).  With no file open, reading
    [currentFileMeta.name] throws before anything is done. *)
Definition onEnd (r : Receiver) : Receiver :=
  match currentFileMeta r with
  | None => logging Uncaught_TypeError r
  | Some meta =>
      let fname := JSON.get meta "name" in
      let r := logging (Log_FileReceived fname) r in
      let r :=
        match writable r with
        | Some w =>
            with_writable None
              (download {| filename := wr_name w; bytes := wr_written w |} r)
        | None =>
            with_chunks []
              (download {| filename := fname; bytes := concat (chunks r) |} r)
        end in
      with_meta None (logging (Toast_Received fname) r)
  end.

(** Binary data (App.jsx 699-707). *)
Definition onBinary (data : Buffer) (r : Receiver) : Receiver :=
  match currentFileMeta r with
  | None => r
  | Some _ =>
      let r :=
        match writable r with
        | Some w => with_writable (Some (write data w)) r
        | None => with_chunks (chunks r ++ [data]) r
        end in
      with_receivedBytes (receivedBytes r + byteLength data) r
  end.

(** The handler of [peerConnection.on('data', ...)] (App.jsx 631-708), run to
    completion for one frame before the next one is delivered. *)
Definition onData (r : Receiver) (data : Buffer) : Receiver :=
  match control data with
  | Some msg =>
      if JSON.is_str (JSON.get msg "type") "file-header" then onHeader msg r
      else if JSON.is_str (JSON.get msg "type") "file-end" then onEnd r
      else onBinary data r
  | None => onBinary data r
  end.

Definition receive (frames : list Buffer) (r : Receiver) : Receiver :=
  fold_left onData frames r.

End Receiver.

(** How the handler treats a frame: as a header, as an end marker, or as
    binary data. *)
Inductive Kind : Type := IsHeader | IsEnd | IsBinary.

Definition kind (data : Buffer) : Kind :=
  match control data with
  | Some msg =>
      if JSON.is_str (JSON.get msg "type") "file-header" then IsHeader
      else if JSON.is_str (JSON.get msg "type") "file-end" then IsEnd
      else IsBinary
  | None => IsBinary
  end.

Definition is_binary (data : Buffer) : bool :=
  match kind data with
  | IsBinary => true
  | _ => false
  end.

(** The download a file should end up as. *)
Definition downloadOf (file : File) : Download :=
  {| filename := Some (JSON.JStr (name file)); bytes := content file |}.

(** The header of a file stays below the size up to which the receiver
    looks for control frames. *)
Definition header_small (file : File) : bool :=
  (byteLength (encode (Header file)) <? 1000)%Z.

(** No chunk of a file is taken for a header or an end marker. *)
Definition chunks_binary (file : File) : bool :=
  forallb is_binary (chunksOf file).

(** The bytes the open sink holds, and the name they will be saved under. *)
Definition pending (r : Receiver) : list byte :=
  match writable r with
  | Some w => wr_written w
  | None => concat (chunks r)
  end.

Definition sink_name (r : Receiver) : option JSON.json :=
  match writable r, currentFileMeta r with
  | Some w, _ => wr_name w
  | None, Some meta => JSON.get meta "name"
  | None, None => None
  end.

(** The receiver is in the middle of [file], having stored [got]. *)
Definition receiving (file : File) (got : list byte) (r : Receiver) : Prop :=
  currentFileMeta r = Some (header file) /\
  sink_name r = Some (JSON.JStr (name file)) /\
  pending r = got.

(** The receiver is between two files. *)
Definition closed (r : Receiver) : Prop :=
  currentFileMeta r = None /\ writable r = None.

(** ** backend/server.js: the rendezvous relay *)

Module Server.

Record User : Type := { id : string; name : string }.

(** [sockets]: the ids of the connected sockets; [users]: the [Map] of
    server.js line 18. *)
Record State : Type := {
  sockets : gset string;
  users : gmap string User
}.

Definition MAIN_LOBBY : string := "main-lobby".

(** The payloads of the events the server emits. *)
Inductive Message : Type :=
| me (id : string)
| users_list (userList : list User)
| signal (signal : JSON.json) (from : string)
| batch_request (from fromName : string) (fileCount totalSize totalBytes : JSON.json)
| batch_answer (from : string) (accepted : bool).

(** A message put on the connection of one socket. *)
Definition Emission : Type := (string * Message)%type.

(** The events a socket raises on the server. *)
Inductive Event : Type :=
| connection
| join (name : option string)
| on_signal (to : string) (signal : JSON.json) (from : string)
| on_batch_request (from to : string) (fileCount totalSize totalBytes : JSON.json)
| on_batch_answer (to : string) (accepted : bool)
| disconnect.

Definition init : State := {| sockets := ∅; users := ∅ |}.

(** socket.io: every socket is in the room named by its own id, and here in
    [MAIN_LOBBY], which it joins on connection (server.js line 25). *)
Definition in_room (room socket : string) : bool :=
  bool_decide (socket = room) || bool_decide (room = MAIN_LOBBY).

(** [io.to(room).emit(...)] *)
Definition io_to (st : State) (room : string) (m : Message) : list Emission :=
  (fun socket => (socket, m)) <$> filter (fun socket => in_room room socket = true) (elements (sockets st)).

(** [broadcastUsers] (server.js 98-102).  [Array.from(users.values())] lists
    the users in the order in which their ids were first set; the registry
    here is a finite map without that order, and the list is the one of its
    entries.  What is stated of the list is stated of its members. *)
Definition broadcastUsers (st : State) : list Emission :=
  let userList := (map_to_list (users st)).*2 in
  io_to st MAIN_LOBBY (users_list userList).

(** [user?.name || default] *)
Definition name_of (u : option User) (default : string) : string :=
  match u with
  | Some user => if String.eqb (name user) EmptyString then default else name user
  | None => default
  end.

(** One event raised by the socket [sid], with the handlers of server.js
    21-94: the new state and what is emitted.  When ['disconnect'] is
    raised socket.io has taken the socket out of its rooms. *)
Definition step (st : State) (sid : string) (ev : Event) : State * list Emission :=
  match ev with
  | connection =>
      ({| sockets := {[ sid ]} ∪ sockets st; users := users st |}, [])
  | join data_name =>
      let userName :=
        match data_name with
        | Some n => if String.eqb n EmptyString then "User-" +:+ substring 0 4 sid else n
        | None => "User-" +:+ substring 0 4 sid
        end in
      let st' := {| sockets := sockets st;
                    users := <[ sid := {| id := sid; name := userName |} ]> (users st) |} in
      (st', (sid, me sid) :: broadcastUsers st')
  | on_signal to sig from =>
      (st, io_to st to (signal sig from))
  | on_batch_request from to fileCount totalSize totalBytes =>
      let fromUser := users st !! from in
      (st, io_to st to (batch_request from (name_of fromUser "Unknown")
                                      fileCount totalSize totalBytes))
  | on_batch_answer to accepted =>
      (st, io_to st to (batch_answer sid accepted))
  | disconnect =>
      let gone := {| sockets := sockets st ∖ {[ sid ]}; users := users st |} in
      match users st !! sid with
      | Some _ =>
          let st' := {| sockets := sockets gone; users := delete sid (users st) |} in
          (st', broadcastUsers st')
      | None => (gone, [])
      end
  end.

(** An event can be raised only by a connected socket, and socket.io gives
    a new connection an id that is not in use and is not a room name. *)
Definition possible (st : State) (sid : string) (ev : Event) : bool :=
  match ev with
  | connection => bool_decide (sid ∉ sockets st) && bool_decide (sid ≠ MAIN_LOBBY)
  | _ => bool_decide (sid ∈ sockets st)
  end.

(** The state after a sequence of events, when each of them is possible. *)
Fixpoint run (st : State) (trace : list (string * Event)) : option State :=
  match trace with
  | [] => Some st
  | (sid, ev) :: rest =>
      if possible st sid ev then run (step st sid ev).1 rest else None
  end.

(** What holds of the relay after any sequence of events. *)
Record consistent (st : State) : Prop := {
  ids_are_keys : forall k u, users st !! k = Some u -> id u = k;
  users_connected : forall k, is_Some (users st !! k) -> k ∈ sockets st;
  lobby_is_no_socket : MAIN_LOBBY ∉ sockets st
}.

(** Two runs of the relay used as examples. *)
Definition after (trace : list (string * Event)) : State :=
  default init (run init trace).

Definition lobby_trace : list (string * Event) :=
  [("a1", connection); ("a1", join (Some "Ann"));
   ("b1", connection); ("b1", join None)].

Definition early_trace : list (string * Event) :=
  [("a1", connection); ("a1", join (Some "Ann")); ("b1", connection)].

End Server.

(** The handler of ['users'] in the client (App.jsx 187-192): the list the
    client keeps in [users] and [usersRef]. *)
Definition onUsers (socket_id : string) (userList : list Server.User) : list Server.User :=
  filter (fun u => Server.id u ≠ socket_id) userList.

(** ** frontend/src/App.jsx: sizes and names *)

(** The text of a number of hundredths [n / 100], [n] not negative, as
    [parseFloat] and a template literal give it for the result of
    [toFixed(2)]: no zero at the end of the fraction, and no point without a
    fraction. *)
Definition hundredths (n : Z) : string :=
  let whole := JSON.stringify_int (n / 100) in
  let cents := (n mod 100)%Z in
  if (cents =? 0)%Z then whole
  else if (cents mod 10 =? 0)%Z then whole +:+ "." +:+ JSON.stringify_int (cents / 10)
  else if (cents <? 10)%Z then whole +:+ ".0" +:+ JSON.stringify_int cents
  else whole +:+ "." +:+ JSON.stringify_int cents.

Definition sizes : list string := ["B"; "KB"; "MB"; "GB"; "TB"].

(** [formatBytes(bytes)] (App.jsx 27-34), for an integer [bytes] and with
    [decimals] left at its default 2, as at every call.  [Math.log] is left
    to the implementation by the language; here the quotient of the two
    logarithms is the exact one, so that [i] is the number of times 1024
    goes into [bytes].  Below 1024, where the facts on [formatBytes] speak,
    the floor of the quotient is 0 whatever the last bit of a logarithm;
    just below a power of 1024 the doubles can round the quotient up to the
    next whole number, which this definition does not follow.  For a
    negative [bytes] the logarithm is [NaN]. *)
Definition formatBytes (bytes : Z) : string :=
  if (bytes =? 0)%Z then "0 B"
  else if (bytes <? 0)%Z then "NaN undefined"
  else
    let i := (Z.log2 bytes / 10)%Z in
    let n := Qfloor (inject_Z bytes / inject_Z (1024 ^ i) * 100 + (1 # 2)) in
    hundredths n +:+ " " +:+ nth (Z.to_nat i) sizes "undefined".

Definition adjectives : list string :=
  ["Cosmic"; "Silent"; "Rapid"; "Brave"; "Calm"; "Neon"; "Cyber"; "Happy";
   "Clever"; "Swift"; "Red"; "Green"; "Blue"; "Golden"; "Silver"].

Definition animals : list string :=
  ["Panda"; "Eagle"; "Tiger"; "Lion"; "Cat"; "Dog"; "Owl"; "Fox"; "Wolf";
   "Bear"; "Hawk"; "Dolphin"; "Falcon"; "Raven"; "Dragon"].

(** [array[index]] for a Number [index]: the element when [index] is one
    of the indices of the array, [undefined] otherwise. *)
Definition at_index (array : list string) (index : Double.number) : string :=
  match Double.floorZ index with
  | Some i =>
      if (i <? 0)%Z || negb (Double.eqb (Double.floor index) index) then "undefined"
      else nth (Z.to_nat i) array "undefined"
  | None => "undefined"
  end.

(** [array[Math.floor(random * array.length)]] *)
Definition pick (random : Double.number) (array : list string) : string :=
  at_index array
    (Double.floor (Double.mul random (Double.of_Z (Z.of_nat (length array))))).

(** [generateName] (App.jsx 50-57); [r1], [r2], [r3] are what the three
    calls of [Math.random()] return. *)
Definition generateName (r1 r2 r3 : Double.number) : string :=
  let adj := pick r1 adjectives in
  let animal := pick r2 animals in
  let num := Double.floor (Double.mul r3 (Double.of_Z 100)) in
  adj +:+ " " +:+ animal +:+ " " +:+ Double.toString num.

(** What [Math.random()] returns: a double from 0 up to, not including, 1. *)
Definition random_number (r : Double.number) : Prop :=
  Double.valid r = true /\ Double.leb Double.zero r = true /\ Double.ltb r Double.one = true.

(** The name the effect settles on (App.jsx 142-147): the one kept in
    [localStorage], or a new one when there is none or it is empty. *)
Definition storedName (stored : option string) (r1 r2 r3 : Double.number) : string :=
  match stored with
  | Some n => if String.eqb n EmptyString then generateName r1 r2 r3 else n
  | None => generateName r1 r2 r3
  end.

(** ** frontend/src/App.jsx: what the sender shows *)

(** The toast of the [catch] block for a file. *)
Definition failure (file : File) : string * string :=
  ("Failed to send " +:+ name file, "error").

(** [send] fails at every call: it throws, or the channel is gone. *)
Definition dead (env : Env) : Prop :=
  forall k t, send_throws env k || negb (channel env t) = true.

(** [c] leaves the toasts alone however it ends. *)
Definition quiet {A} (c : M A) : Prop := forall w, toasts (final (c w)) = toasts w.

(** ** frontend/src/App.jsx: the component and its handlers

    The component [App] is a function of its state: each render creates the
    handlers anew, and a handler sees the state variables as they were in
    the render that created it, while refs and the setters reach the one
    store.  So a handler takes the state of its render, [render], and the
    store [c] it works on.  The handlers of the buttons and of the file
    input belong to the latest render; the handlers of the socket are
    registered once, by the effect of App.jsx 141-272, which has no
    dependencies, and belong to the first render ([first_render]), as do
    the functions they call.

    Left out: what is written to the console, the removal of a toast after
    three seconds, and the [stats] with the two refs of [updateStats], which
    only [sendFiles] touches. *)

Module Client.

(** A pending request (App.jsx 198-204). *)
Record Request : Type := {
  from : string;
  fromName : string;
  fileCount : JSON.json;
  totalSize : JSON.json;
  totalBytes : JSON.json
}.

(** A [SimplePeer] made by [createSenderPeer] or [createReceiverPeer], with
    what its handlers close over: where its signals go ([targetUser.id],
    [fromId]), the [myId] they carry, the [files] to send, and [connected]
    as its timeout sees it.  [timer] tells whether that timeout is still to
    come, [signalled] what was handed to [peer.signal]. *)
Record Peer : Type := {
  initiator : bool;
  remote : string;
  sender : string;
  files : list File;
  sees_connected : bool;
  timer : bool;
  signalled : list JSON.json;
  destroyed : bool
}.

(** The state variables (App.jsx 89-104); a peer is named by its place in
    the list of the peers made so far. *)
Record UI : Type := {
  socket : bool;
  myId : string;
  myName : string;
  users : list Server.User;
  connectionStatus : string;
  peer : option nat;
  connected : bool;
  transferring : bool;
  batchStatus : string;
  toasts : list (string * string);
  selectedFiles : list File;
  incomingRequest : option Request
}.

(** The refs (App.jsx 116-124). *)
Record Refs : Type := {
  selectedUserRef : option Server.User;
  peerRef : option nat;
  selectedFilesRef : list File;
  usersRef : list Server.User;
  connectionTimeoutRef : option nat
}.

(** Outside the component: [newSocket.id], the peers made, what was emitted
    on the socket, the errors no handler caught, and the calls of
    [sendFiles] and of [setupReceiverEvents]. *)
Record Page : Type := {
  socket_id : option string;
  peers : list Peer;
  emitted : list Server.Event;
  uncaught : list string;
  sending : list (nat * list File);
  receiving : list nat
}.

Record Client : Type := { ui : UI; refs : Refs; page : Page }.

Definition on_ui (f : UI -> UI) (c : Client) : Client :=
  {| ui := f (ui c); refs := refs c; page := page c |}.
Definition on_refs (f : Refs -> Refs) (c : Client) : Client :=
  {| ui := ui c; refs := f (refs c); page := page c |}.
Definition on_page (f : Page -> Page) (c : Client) : Client :=
  {| ui := ui c; refs := refs c; page := f (page c) |}.

Definition setSocket (v : bool) : Client -> Client := on_ui (fun u =>
  {| socket := v; myId := myId u; myName := myName u; users := users u;
     connectionStatus := connectionStatus u; peer := peer u;
     connected := connected u; transferring := transferring u;
     batchStatus := batchStatus u; toasts := toasts u;
     selectedFiles := selectedFiles u; incomingRequest := incomingRequest u |}).

Definition setMyId (v : string) : Client -> Client := on_ui (fun u =>
  {| socket := socket u; myId := v; myName := myName u; users := users u;
     connectionStatus := connectionStatus u; peer := peer u;
     connected := connected u; transferring := transferring u;
     batchStatus := batchStatus u; toasts := toasts u;
     selectedFiles := selectedFiles u; incomingRequest := incomingRequest u |}).

Definition setMyName (v : string) : Client -> Client := on_ui (fun u =>
  {| socket := socket u; myId := myId u; myName := v; users := users u;
     connectionStatus := connectionStatus u; peer := peer u;
     connected := connected u; transferring := transferring u;
     batchStatus := batchStatus u; toasts := toasts u;
     selectedFiles := selectedFiles u; incomingRequest := incomingRequest u |}).

Definition setUsers (v : list Server.User) : Client -> Client := on_ui (fun u =>
  {| socket := socket u; myId := myId u; myName := myName u; users := v;
     connectionStatus := connectionStatus u; peer := peer u;
     connected := connected u; transferring := transferring u;
     batchStatus := batchStatus u; toasts := toasts u;
     selectedFiles := selectedFiles u; incomingRequest := incomingRequest u |}).

Definition setConnectionStatus (v : string) : Client -> Client := on_ui (fun u =>
  {| socket := socket u; myId := myId u; myName := myName u; users := users u;
     connectionStatus := v; peer := peer u;
     connected := connected u; transferring := transferring u;
     batchStatus := batchStatus u; toasts := toasts u;
     selectedFiles := selectedFiles u; incomingRequest := incomingRequest u |}).

Definition setPeer (v : option nat) : Client -> Client := on_ui (fun u =>
  {| socket := socket u; myId := myId u; myName := myName u; users := users u;
     connectionStatus := connectionStatus u; peer := v;
     connected := connected u; transferring := transferring u;
     batchStatus := batchStatus u; toasts := toasts u;
     selectedFiles := selectedFiles u; incomingRequest := incomingRequest u |}).

Definition setConnected (v : bool) : Client -> Client := on_ui (fun u =>
  {| socket := socket u; myId := myId u; myName := myName u; users := users u;
     connectionStatus := connectionStatus u; peer := peer u;
     connected := v; transferring := transferring u;
     batchStatus := batchStatus u; toasts := toasts u;
     selectedFiles := selectedFiles u; incomingRequest := incomingRequest u |}).

Definition setTransferring (v : bool) : Client -> Client := on_ui (fun u =>
  {| socket := socket u; myId := myId u; myName := myName u; users := users u;
     connectionStatus := connectionStatus u; peer := peer u;
     connected := connected u; transferring := v;
     batchStatus := batchStatus u; toasts := toasts u;
     selectedFiles := selectedFiles u; incomingRequest := incomingRequest u |}).

Definition setBatchStatus (v : string) : Client -> Client := on_ui (fun u =>
  {| socket := socket u; myId := myId u; myName := myName u; users := users u;
     connectionStatus := connectionStatus u; peer := peer u;
     connected := connected u; transferring := transferring u;
     batchStatus := v; toasts := toasts u;
     selectedFiles := selectedFiles u; incomingRequest := incomingRequest u |}).

(** [addToast] (App.jsx 131-134). *)
Definition addToast (message type : string) : Client -> Client := on_ui (fun u =>
  {| socket := socket u; myId := myId u; myName := myName u; users := users u;
     connectionStatus := connectionStatus u; peer := peer u;
     connected := connected u; transferring := transferring u;
     batchStatus := batchStatus u; toasts := toasts u ++ [(message, type)];
     selectedFiles := selectedFiles u; incomingRequest := incomingRequest u |}).

Definition setSelectedFiles (v : list File) : Client -> Client := on_ui (fun u =>
  {| socket := socket u; myId := myId u; myName := myName u; users := users u;
     connectionStatus := connectionStatus u; peer := peer u;
     connected := connected u; transferring := transferring u;
     batchStatus := batchStatus u; toasts := toasts u;
     selectedFiles := v; incomingRequest := incomingRequest u |}).

Definition setIncomingRequest (v : option Request) : Client -> Client := on_ui (fun u =>
  {| socket := socket u; myId := myId u; myName := myName u; users := users u;
     connectionStatus := connectionStatus u; peer := peer u;
     connected := connected u; transferring := transferring u;
     batchStatus := batchStatus u; toasts := toasts u;
     selectedFiles := selectedFiles u; incomingRequest := v |}).

Definition set_selectedUserRef (v : option Server.User) : Client -> Client :=
  on_refs (fun r =>
  {| selectedUserRef := v; peerRef := peerRef r;
     selectedFilesRef := selectedFilesRef r; usersRef := usersRef r;
     connectionTimeoutRef := connectionTimeoutRef r |}).

Definition set_peerRef (v : option nat) : Client -> Client := on_refs (fun r =>
  {| selectedUserRef := selectedUserRef r; peerRef := v;
     selectedFilesRef := selectedFilesRef r; usersRef := usersRef r;
     connectionTimeoutRef := connectionTimeoutRef r |}).

Definition set_selectedFilesRef (v : list File) : Client -> Client := on_refs (fun r =>
  {| selectedUserRef := selectedUserRef r; peerRef := peerRef r;
     selectedFilesRef := v; usersRef := usersRef r;
     connectionTimeoutRef := connectionTimeoutRef r |}).

Definition set_usersRef (v : list Server.User) : Client -> Client := on_refs (fun r =>
  {| selectedUserRef := selectedUserRef r; peerRef := peerRef r;
     selectedFilesRef := selectedFilesRef r; usersRef := v;
     connectionTimeoutRef := connectionTimeoutRef r |}).

Definition set_connectionTimeoutRef (v : option nat) : Client -> Client :=
  on_refs (fun r =>
  {| selectedUserRef := selectedUserRef r; peerRef := peerRef r;
     selectedFilesRef := selectedFilesRef r; usersRef := usersRef r;
     connectionTimeoutRef := v |}).

Definition set_socket_id (v : option string) : Client -> Client := on_page (fun p =>
  {| socket_id := v; peers := peers p; emitted := emitted p;
     uncaught := uncaught p; sending := sending p; receiving := receiving p |}).

Definition set_peers (v : list Peer) : Client -> Client := on_page (fun p =>
  {| socket_id := socket_id p; peers := v; emitted := emitted p;
     uncaught := uncaught p; sending := sending p; receiving := receiving p |}).

(** [socket.emit(...)] *)
Definition emit (ev : Server.Event) : Client -> Client := on_page (fun p =>
  {| socket_id := socket_id p; peers := peers p; emitted := emitted p ++ [ev];
     uncaught := uncaught p; sending := sending p; receiving := receiving p |}).

Definition throw (message : string) : Client -> Client := on_page (fun p =>
  {| socket_id := socket_id p; peers := peers p; emitted := emitted p;
     uncaught := uncaught p ++ [message]; sending := sending p;
     receiving := receiving p |}).

Definition call_sendFiles (p : nat) (fs : list File) : Client -> Client :=
  on_page (fun g =>
  {| socket_id := socket_id g; peers := peers g; emitted := emitted g;
     uncaught := uncaught g; sending := sending g ++ [(p, fs)];
     receiving := receiving g |}).

Definition call_setupReceiverEvents (p : nat) : Client -> Client := on_page (fun g =>
  {| socket_id := socket_id g; peers := peers g; emitted := emitted g;
     uncaught := uncaught g; sending := sending g;
     receiving := receiving g ++ [p] |}).

(** The values [useState] and [useRef] start with, and a page on which
    nothing has happened. *)
Definition first_render : UI :=
  {| socket := false; myId := EmptyString; myName := EmptyString; users := [];
     connectionStatus := "Connecting..."; peer := None; connected := false;
     transferring := false; batchStatus := "idle"; toasts := [];
     selectedFiles := []; incomingRequest := None |}.

Definition initial : Client :=
  {| ui := first_render;
     refs := {| selectedUserRef := None; peerRef := None; selectedFilesRef := [];
                usersRef := []; connectionTimeoutRef := None |};
     page := {| socket_id := None; peers := []; emitted := []; uncaught := [];
                sending := []; receiving := [] |} |}.

(** Whether a value counts as true in a condition; [None] is [undefined]. *)
Definition truthy (v : option JSON.json) : bool :=
  match v with
  | None | Some JSON.JNull => false
  | Some (JSON.JBool b) => b
  | Some (JSON.JNum m _) => negb (m =? 0)%Z
  | Some (JSON.JStr s) => negb (String.eqb s EmptyString)
  | Some _ => true
  end.

Definition set_timer (b : bool) (p : Peer) : Peer :=
  {| initiator := initiator p; remote := remote p; sender := sender p;
     files := files p; sees_connected := sees_connected p; timer := b;
     signalled := signalled p; destroyed := destroyed p |}.

(** [peer.destroy()] *)
Definition destroy (p : Peer) : Peer :=
  {| initiator := initiator p; remote := remote p; sender := sender p;
     files := files p; sees_connected := sees_connected p; timer := timer p;
     signalled := signalled p; destroyed := true |}.

Definition take_signal (sig : JSON.json) (p : Peer) : Peer :=
  {| initiator := initiator p; remote := remote p; sender := sender p;
     files := files p; sees_connected := sees_connected p; timer := timer p;
     signalled := signalled p ++ [sig]; destroyed := destroyed p |}.

(** [if (connectionTimeoutRef.current) clearTimeout(connectionTimeoutRef.current)] *)
Definition clearConnectionTimeout (c : Client) : Client :=
  match connectionTimeoutRef (refs c) with
  | Some t => set_peers (alter (set_timer false) t (peers (page c))) c
  | None => c
  end.

(** The peer that [new SimplePeer(...)] makes in a render, once its timeout
    is set and its handlers are registered. *)
Definition made (render : UI) (init : bool) (to : string) (fs : list File) : Peer :=
  {| initiator := init; remote := to; sender := myId render; files := fs;
     sees_connected := connected render; timer := true; signalled := [];
     destroyed := false |}.

(** What [createSenderPeer] and [createReceiverPeer] share: the timeout of
    the peer before is cleared, the new peer is made and put into [peerRef]
    and [peer] (App.jsx 331-361 and 417-418, 427-457 and 499-500). *)
Definition newPeer (render : UI) (init : bool) (to : string) (fs : list File)
    (c : Client) : Client :=
  let c := clearConnectionTimeout c in
  let p := length (peers (page c)) in
  let c := set_peers (peers (page c) ++ [made render init to fs]) c in
  let c := set_connectionTimeoutRef (Some p) c in
  setPeer (Some p) (set_peerRef (Some p) c).

(** What the handlers leave to the browser and to simple-peer: how a
    template literal prints the value of an expression ([None] for
    [undefined]), and the message of the error that [peer.signal(data)]
    throws for a peer and a signal, when it throws. *)
Record Library : Type := {
  template : option JSON.json -> string;
  signal_error : Peer -> JSON.json -> option string
}.

Section Handlers.

Variable lib : Library.

(** [createSenderPeer] (App.jsx 314-419). *)
Definition createSenderPeer (render : UI) (targetUser : Server.User)
    (fs : list File) (c : Client) : Client :=
  if negb (socket render) then addToast "Socket not connected" "error" c
  else
    let c := setConnectionStatus "Creating P2P connection..." c in
    let c := setBatchStatus "connecting" c in
    newPeer render true (Server.id targetUser) fs c.

(** [peer.signal(data)] for the peer at [p]: the peer takes the signal, or
    the call throws. *)
Definition peer_signal (p : nat) (sig : JSON.json) (c : Client) : Client + string :=
  match peers (page c) !! p with
  | Some pr =>
      match signal_error lib pr sig with
      | Some message => inr message
      | None => inl (set_peers (alter (take_signal sig) p (peers (page c))) c)
      end
  | None => inl c
  end.

(** [createReceiverPeer] (App.jsx 422-509). *)
Definition createReceiverPeer (render : UI) (fromId : string)
    (sig : option JSON.json) (c : Client) : Client :=
  let c := setConnectionStatus "Creating P2P connection..." c in
  let c := setBatchStatus "connecting" c in
  let p := length (peers (page c)) in
  let c := newPeer render false fromId [] c in
  match sig with
  | Some s =>
      if truthy sig then
        match peer_signal p s c with
        | inl c => c
        | inr message => throw message c
        end
      else c
  | None => c
  end.

(** The handlers the effect of App.jsx 141-272 puts on the socket.  They
    and the functions they call, [createSenderPeer] and
    [createReceiverPeer], are those of the first render.  In [onConnect],
    [id] is what socket.io has made the id of the socket, and the name sent
    is the [storedName] of the effect, which it has put into [myName]. *)

Definition onConnect (id : string) (c : Client) : Client :=
  let c := set_socket_id (Some id) c in
  let c := setConnectionStatus "Connected" c in
  let c := addToast "Connected to server" "success" c in
  emit (Server.join (Some (myName (ui c)))) c.

Definition onConnectError (c : Client) : Client :=
  addToast "Cannot connect to server" "error"
    (setConnectionStatus "Connection Failed" c).

Definition onMe (id : string) (c : Client) : Client := setMyId id c.

Definition onUsers (userList : list Server.User) (c : Client) : Client :=
  let others :=
    match socket_id (page c) with
    | Some id => onUsers id userList
    | None => userList
    end in
  set_usersRef others (setUsers others c).

Definition onBatchRequest (from fromName : string)
    (fileCount totalSize totalBytes : JSON.json) (c : Client) : Client :=
  let c := addToast ("Transfer request from " +:+ fromName) "info" c in
  setIncomingRequest (Some {| from := from; fromName := fromName;
                              fileCount := fileCount; totalSize := totalSize;
                              totalBytes := totalBytes |}) c.

Definition onBatchAnswer (from : string) (accepted : bool) (c : Client) : Client :=
  if accepted then
    let c := addToast "Transfer accepted! Connecting..." "success" c in
    let c := setBatchStatus "connecting" c in
    let c := setConnectionStatus "Connecting to peer..." c in
    match selectedFilesRef (refs c) with
    | _ :: _ =>
        match List.find (fun u => String.eqb (Server.id u) from) (usersRef (refs c)) with
        | Some targetUser =>
            createSenderPeer first_render targetUser (selectedFilesRef (refs c)) c
        | None =>
            setBatchStatus "idle" (addToast "Target user not found" "error" c)
        end
    | [] => setBatchStatus "idle" (addToast "No files selected" "error" c)
    end
  else
    let c := addToast "Transfer declined" "error" c in
    setBatchStatus "idle" (setSelectedFiles [] c).

Definition onSignal (sig : JSON.json) (from : string) (c : Client) : Client :=
  match peerRef (refs c) with
  | Some p =>
      match peer_signal p sig c with
      | inl c =>
          let type := JSON.get sig "type" in
          addToast ("Received: " +:+ (if truthy type then template lib type else "signal"))
                   "info" c
      | inr message => addToast ("Signal error: " +:+ message) "error" c
      end
  | None => createReceiverPeer first_render from (Some sig) c
  end.

(** [handleBatchAccept] and [handleBatchDecline] (App.jsx 275-311). *)
Definition handleBatchAccept (render : UI) (c : Client) : Client :=
  match incomingRequest render with
  | Some request =>
      if socket render then
        let c := addToast "Accepting transfer..." "success" c in
        let c := setBatchStatus "connecting" c in
        let c := setConnectionStatus "Connecting to peer..." c in
        let c := createReceiverPeer render (from request) None c in
        let c := emit (Server.on_batch_answer (from request) true) c in
        setIncomingRequest None c
      else c
  | None => c
  end.

Definition handleBatchDecline (render : UI) (c : Client) : Client :=
  match incomingRequest render with
  | Some request =>
      if socket render then
        let c := emit (Server.on_batch_answer (from request) false) c in
        let c := setIncomingRequest None c in
        addToast "Transfer declined" "info" c
      else c
  | None => c
  end.

(** [files.reduce((acc, f) => acc + f.size, 0)] *)
Definition totalOf (fs : list File) : Z :=
  fold_left (fun acc f => (acc + size f)%Z) fs 0%Z.

(** The data of a request (App.jsx 772-778, 825-831). *)
Definition request (render : UI) (to : Server.User) (fs : list File) : Server.Event :=
  Server.on_batch_request (myId render) (Server.id to)
    (JSON.JNum (Z.of_nat (length fs)) 0)
    (JSON.JStr (formatBytes (totalOf fs)))
    (JSON.JNum (totalOf fs) 0).

(** [handleFileSelect] (App.jsx 712-800), for the files of the input. *)
Definition handleFileSelect (render : UI) (fs : list File) (c : Client) : Client :=
  let c := addToast "File selection started..." "info" c in
  match fs with
  | [] => addToast "No files selected" "error" c
  | _ :: _ =>
      let c := addToast (JSON.stringify_int (Z.of_nat (length fs)) +:+ " files selected")
                        "info" c in
      match selectedUserRef (refs c) with
      | None => addToast "No user selected" "error" c
      | Some targetUser =>
          let c := set_selectedFilesRef fs (setSelectedFiles fs c) in
          let c := addToast "Calculating size..." "info" c in
          let c := addToast ("Total: " +:+ formatBytes (totalOf fs)) "info" c in
          if negb (socket render) then addToast "Not connected to server" "error" c
          else
            let c := addToast "Sending request to server..." "info" c in
            let c := emit (request render targetUser fs) c in
            let c := addToast ("Request sent to " +:+ Server.name targetUser) "success" c in
            set_selectedUserRef None c
      end
  end.

(** [handleDrop] (App.jsx 803-833); an item that is no file is [None].
    Without a socket the call of [emit] throws. *)
Definition handleDrop (render : UI) (items : list (option File)) (user : Server.User)
    (c : Client) : Client :=
  let fs := omap (fun item => item) items in
  match fs with
  | [] => c
  | _ :: _ =>
      let c := set_selectedUserRef (Some user) c in
      let c := setSelectedFiles fs c in
      let c := addToast ("Sending request to " +:+ Server.name user +:+ "...") "info" c in
      if socket render then emit (request render user fs) c
      else throw "TypeError: socket is null" c
  end.

(** The handlers of a peer (App.jsx 363-415, 459-497), for the peer at [p]. *)

Definition onPeerSignal (p : nat) (sig : JSON.json) (c : Client) : Client :=
  match peers (page c) !! p with
  | Some pr =>
      let c := addToast ("Signal: " +:+ template lib (JSON.get sig "type")) "info" c in
      emit (Server.on_signal (remote pr) sig (sender pr)) c
  | None => c
  end.

Definition onPeerIceStateChange (p : nat) (state : string) (c : Client) : Client :=
  match peers (page c) !! p with
  | Some pr => if initiator pr then addToast ("ICE State: " +:+ state) "info" c else c
  | None => c
  end.

Definition onPeerConnect (p : nat) (c : Client) : Client :=
  match peers (page c) !! p with
  | Some pr =>
      let c := clearConnectionTimeout c in
      let c := setConnected true c in
      let c := setConnectionStatus "Connected" c in
      let c := setBatchStatus "transferring" c in
      let c := addToast "P2P CONNECTED! 🚀" "success" c in
      if initiator pr then
        match files pr with
        | _ :: _ => call_sendFiles p (files pr) c
        | [] => c
        end
      else call_setupReceiverEvents p c
  | None => c
  end.

Definition onPeerError (p : nat) (message : string) (c : Client) : Client :=
  match peers (page c) !! p with
  | Some pr =>
      let c := addToast ("Connection failed: " +:+ message) "error" c in
      let c := setConnectionStatus "Failed" c in
      let c := setBatchStatus "idle" c in
      clearConnectionTimeout c
  | None => c
  end.

Definition onPeerClose (p : nat) (c : Client) : Client :=
  match peers (page c) !! p with
  | Some pr =>
      let c := setConnected false c in
      let c := setConnectionStatus "Disconnected" c in
      let c := if initiator pr then setTransferring false c else c in
      setBatchStatus "idle" c
  | None => c
  end.

(** The timeout set with a peer (App.jsx 351-361, 447-457), when it comes. *)
Definition onTimeout (p : nat) (c : Client) : Client :=
  match peers (page c) !! p with
  | Some pr =>
      if timer pr then
        let c := set_peers (alter (set_timer false) p (peers (page c))) c in
        if negb (sees_connected pr) then
          let c := addToast "Connection timeout. Please try again." "error" c in
          let c := setConnectionStatus "Timeout" c in
          let c := setBatchStatus "idle" c in
          set_peers (alter destroy p (peers (page c))) c
        else c
      else c
  | None => c
  end.

(** What happens to the component.  A peer of a handler is one that has
    been made; the handlers of the page run in the latest render. *)
Inductive Event : Type :=
| connect (id : string)
| connect_error
| disconnected
| received (m : Server.Message)
| card_clicked (user : Server.User)
| files_chosen (fs : list File)
| dropped (items : list (option File)) (user : Server.User)
| accept_clicked
| decline_clicked
| peer_signals (p : nat) (sig : JSON.json)
| peer_iceStateChange (p : nat) (state : string)
| peer_connects (p : nat)
| peer_fails (p : nat) (message : string)
| peer_closes (p : nat)
| timed_out (p : nat).

Definition step (c : Client) (ev : Event) : Client :=
  match ev with
  | connect id => onConnect id c
  | connect_error => onConnectError c
  | disconnected => set_socket_id None c
  | received (Server.me id) => onMe id c
  | received (Server.users_list userList) => onUsers userList c
  | received (Server.signal sig from) => onSignal sig from c
  | received (Server.batch_request from fromName fileCount totalSize totalBytes) =>
      onBatchRequest from fromName fileCount totalSize totalBytes c
  | received (Server.batch_answer from accepted) => onBatchAnswer from accepted c
  | card_clicked user => set_selectedUserRef (Some user) c
  | files_chosen fs => handleFileSelect (ui c) fs c
  | dropped items user => handleDrop (ui c) items user c
  | accept_clicked => handleBatchAccept (ui c) c
  | decline_clicked => handleBatchDecline (ui c) c
  | peer_signals p sig => onPeerSignal p sig c
  | peer_iceStateChange p state => onPeerIceStateChange p state c
  | peer_connects p => onPeerConnect p c
  | peer_fails p message => onPeerError p message c
  | peer_closes p => onPeerClose p c
  | timed_out p => onTimeout p c
  end.

End Handlers.

(** The effect of App.jsx 141-166: the name is settled, and unless the
    browser lacks WebRTC the socket is made. *)
Definition mount (stored : option string) (r1 r2 r3 : Double.number) (webrtc : bool) : Client :=
  let c := setMyName (storedName stored r1 r2 r3) initial in
  if webrtc then setSocket true c
  else
    setConnectionStatus "WebRTC Not Supported"
      (addToast "WebRTC not supported. Use HTTPS or modern browser." "error" c).

Definition run (lib : Library) (c : Client) (events : list Event) : Client :=
  fold_left (step lib) events c.

(** No peer made so far is an initiator, and [sendFiles] was not called. *)
Definition calm (g : Page) : Prop :=
  Forall (fun p => initiator p = false) (peers g) /\ sending g = [].

(** The refs that mirror a state variable hold what it holds, the peer in
    [peerRef] has been made, and only its timeout can still be pending. *)
Record tidy (c : Client) : Prop := {
  users_mirrored : usersRef (refs c) = users (ui c);
  peer_mirrored : peerRef (refs c) = peer (ui c);
  timeout_of_peer : connectionTimeoutRef (refs c) = peerRef (refs c);
  peer_made : forall p, peerRef (refs c) = Some p -> p < length (peers (page c));
  one_timeout : forall q pr, peers (page c) !! q = Some pr -> timer pr = true ->
                             connectionTimeoutRef (refs c) = Some q
}.

End Client.

(** ** Examples *)

Definition steady : Env :=
  {| send_throws := fun _ => false; channel := fun _ => true;
     drain := fun _ _ => 0%Z; clock := fun t => (1000 * Z.of_nat t)%Z;
     patience := 1 |}.

Definition one_error : Env :=
  {| send_throws := fun k => Nat.eqb k 1; channel := fun _ => true;
     drain := fun _ _ => 0%Z; clock := fun t => (1000 * Z.of_nat t)%Z;
     patience := 1 |}.

Definition desktop : REnv :=
  {| isIOS := false; streamSaver_supported := true;
     createWriteStream_throws := fun _ => false |}.

Definition phone : REnv :=
  {| isIOS := true; streamSaver_supported := false;
     createWriteStream_throws := fun _ => false |}.

Definition hello : File :=
  {| name := "a.txt"; webkitRelativePath := EmptyString; content := Buffer_from "hello" |}.

Definition notes : File :=
  {| name := "b.txt"; webkitRelativePath := "docs/b.txt";
     content := Buffer_from "notes" |}.

(** A file whose content reads as an end marker. *)
Definition tricky : File :=
  {| name := "c.json"; webkitRelativePath := EmptyString;
     content := Buffer_from (JSON.stringify file_end) |}.

(** A file whose path makes a header of more than 1000 bytes. *)
Definition deep : File :=
  {| name := "d.txt";
     webkitRelativePath := string_of_list_ascii (repeat "d"%char 1000);
     content := Buffer_from "deep" |}.

(** The receiver after the header of [hello], which declares 5 bytes, and
    3 bytes of data. *)
Definition three_of_five : Receiver :=
  receive phone [encode (Header hello); Buffer_from "hel"] setupReceiverEvents.

(** A transfer of 100 bytes of which no sample has been taken. *)
Definition sample0 : Progress :=
  {| stats := {| totalFiles := 1; processedFiles := 0; totalBytes := 100;
                 processedBytes := 0; speed := "0 MB/s"; eta := "--:--";
                 currentFile := "a.txt" |};
     lastBytesRef := 0; lastTimeRef := 0 |}.

(** A channel that is gone. *)
Definition unplugged : Env :=
  {| send_throws := fun _ => false; channel := fun _ => false;
     drain := fun _ b => b; clock := fun t => Z.of_nat t; patience := 0 |}.

(** A file without content. *)
Definition blank : File :=
  {| name := "e.txt"; webkitRelativePath := EmptyString; content := [] |}.

(** 1000.9999999999999, the seconds that one byte in 1.001 s leaves for a
    thousand more. *)
Definition almost_1001 : Double.number := S754_finite false 8804889115230207 (- 43).

(** A number that [Math.random] can return: its product with 15 is rounded
    up to 8. *)
Definition just_below_eight_fifteenths : Double.number :=
  S754_finite false 4803839602528529 (- 53).

(** A channel with two megabytes in its buffer, on a peer that is
    destroyed during the third turn of the event loop. *)
Definition lost_in_wait : Env :=
  {| send_throws := fun _ => false; channel := fun t => (t <? 3)%nat;
     drain := fun _ _ => (2 * BUFFER_THRESHOLD)%Z;
     clock := fun t => (1000 * Z.of_nat t)%Z; patience := 5 |}.

(** A file of one whole chunk and a last chunk of 1000 bytes. *)
Definition long : File :=
  {| name := "l.bin"; webkitRelativePath := EmptyString;
     content := repeat "x"%byte (Z.to_nat (CHUNK_SIZE + 1000)) |}.

(** A browser that prints a string as it is, with a simple-peer that takes
    every signal. *)
Definition plain : Client.Library :=
  {| Client.template := fun v =>
       match v with
       | Some (JSON.JStr s) => s
       | _ => "undefined"
       end;
     Client.signal_error := fun _ _ => None |}.

Definition ann_user : Server.User := {| Server.id := "a1"; Server.name := "Ann" |}.
Definition bob_user : Server.User := {| Server.id := "b1"; Server.name := "User-b1" |}.

(** The page of Ann once she has joined and clicked on the card of Bob, and
    the page of Bob with her request for one file of 5 bytes. *)
Definition ann : Client.Client :=
  Client.run plain (Client.mount (Some "Ann") Double.zero Double.zero Double.zero true)
    [Client.connect "a1"; Client.received (Server.me "a1");
     Client.received (Server.users_list [ann_user; bob_user]);
     Client.card_clicked bob_user].

(** The page of Ann once she has, after that, chosen the file [hello]. *)
Definition ann_asked : Client.Client :=
  Client.step plain ann (Client.files_chosen [hello]).

Definition bob : Client.Client :=
  Client.run plain (Client.mount None Double.zero Double.zero Double.zero true)
    [Client.connect "b1"; Client.received (Server.me "b1");
     Client.received (Server.batch_request "a1" "Ann" (JSON.JNum 1 0)
                        (JSON.JStr "5 B") (JSON.JNum 5 0))].

(** * Facts *)

#[local] Arguments String.append !s1 s2 : simpl nomatch.
#[local] Arguments CHUNK_SIZE : simpl never.
#[local] Arguments BUFFER_THRESHOLD : simpl never.

(** ** JSON: what the sender writes, the receiver reads *)

Section JSONFacts.
Import JSON.

Lemma append_assoc (a b c : string) : (a +:+ b) +:+ c = a +:+ (b +:+ c).
Proof. induction a as [|x a IH]; simpl; [reflexivity|]. f_equal. exact IH. Qed.

Lemma append_empty_r (a : string) : a +:+ EmptyString = a.
Proof. induction a as [|x a IH]; simpl; [reflexivity|]. f_equal. exact IH. Qed.

Lemma parse_chars_escape_char (c : ascii) (tail : string) :
  parse_chars (escape_char c +:+ tail) = cons_piece (piece_of c) (parse_chars tail).
Proof.
  destruct c as [[] [] [] [] [] [] [] []]; reflexivity.
Qed.

Lemma text_of_piece_of (c : ascii) (ps : list piece) :
  text_of_pieces (piece_of c :: ps) = String c (text_of_pieces ps).
Proof.
  destruct c as [[] [] [] [] [] [] [] []]; try reflexivity;
    destruct ps as [|[] ?]; reflexivity.
Qed.

Lemma parse_chars_escape (s rest : string) :
  parse_chars (escape s +:+ String dquote rest) = Some (pieces_of s, rest).
Proof.
  induction s as [|c s IH]; simpl; [reflexivity|].
  rewrite append_assoc, parse_chars_escape_char, IH. reflexivity.
Qed.

Lemma text_of_pieces_of (s : string) : text_of_pieces (pieces_of s) = s.
Proof.
  induction s as [|c s IH]; [reflexivity|].
  cbn [pieces_of]. rewrite text_of_piece_of, IH. reflexivity.
Qed.

Lemma parse_string_quote (s rest : string) :
  parse_string (escape s +:+ String dquote rest) = Some (s, rest).
Proof.
  unfold parse_string. rewrite parse_chars_escape, text_of_pieces_of. reflexivity.
Qed.

(** Numbers *)

Lemma span_digits_uint (d : Decimal.uint) (c : ascii) (rest : string) :
  is_digit c = false ->
  span_digits (NilEmpty.string_of_uint d +:+ String c rest)
  = (NilEmpty.string_of_uint d, String c rest).
Proof.
  intros Hc. induction d; simpl; rewrite ?IHd; try reflexivity.
  rewrite Hc. reflexivity.
Qed.

Lemma to_uint_normal (n : N) : Decimal.unorm (N.to_uint n) = N.to_uint n.
Proof.
  rewrite <- (DecimalN.Unsigned.to_of (N.to_uint n)).
  rewrite DecimalN.Unsigned.of_to. reflexivity.
Qed.

Lemma digits_head (n : N) :
  exists c r, digits n = String c r /\ is_digit c = true.
Proof.
  unfold digits. pose proof (unorm_nonnil (N.to_uint n)) as Hn.
  rewrite to_uint_normal in Hn.
  destruct (N.to_uint n); try congruence; simpl; eauto.
Qed.

Lemma unorm_D0_inv (d u : Decimal.uint) :
  Decimal.unorm d = Decimal.D0 u -> u = Decimal.Nil.
Proof.
  unfold Decimal.unorm. pose proof (nzhead_nonzero d) as Hz.
  destruct (Decimal.nzhead d); intros H; try discriminate H.
  - injection H as <-. reflexivity.
  - exfalso. exact (Hz _ eq_refl).
Qed.

Lemma digits_leading_zero (n : N) : leading_zero (digits n) = false.
Proof.
  unfold digits. pose proof (to_uint_normal n) as Hn.
  destruct (N.to_uint n) as [|u|u|u|u|u|u|u|u|u|u] eqn:E; try reflexivity;
    try (simpl; destruct (NilEmpty.string_of_uint u); reflexivity).
  apply unorm_D0_inv in Hn. subst u. reflexivity.
Qed.

Lemma digits_value_digits (n : N) : digits_value (digits n) = n.
Proof.
  unfold digits_value, digits. rewrite NilEmpty.usu.
  apply DecimalN.Unsigned.of_to.
Qed.

Lemma digit_not_minus (c : ascii) : is_digit c = true -> (code c =? 45)%N = false.
Proof.
  unfold is_digit. intros H. apply andb_true_iff in H as [H1 H2].
  apply N.leb_le in H1. apply N.eqb_neq. lia.
Qed.

(** A number followed by a comma. *)
Lemma parse_number_digits (n : N) (rest : string) :
  parse_number (digits n +:+ String "," rest)
  = Some (JNum (Z.of_N n) 0, String "," rest).
Proof.
  destruct (digits_head n) as (c & r & Hd & Hc).
  unfold parse_number.
  assert (Hm : (match digits n +:+ String "," rest with
                | String c0 rest0 =>
                    if (code c0 =? 45)%N then (true, rest0)
                    else (false, digits n +:+ String "," rest)
                | EmptyString => (false, digits n +:+ String "," rest)
                end) = (false, digits n +:+ String "," rest)).
  { rewrite Hd. simpl. rewrite (digit_not_minus _ Hc). reflexivity. }
  rewrite Hm. unfold digits at 1. rewrite span_digits_uint by reflexivity.
  fold (digits n). cbv iota beta.
  rewrite digits_leading_zero. rewrite Hd at 1. cbv iota.
  change (parse_fraction (String "," rest)) with (Some (EmptyString, String "," rest)).
  cbv iota beta.
  change (parse_exponent (String "," rest)) with (Some (0%Z, String "," rest)).
  cbv iota beta.
  rewrite append_empty_r, digits_value_digits. reflexivity.
Qed.

Lemma parse_value_digit (fuel : nat) (c : ascii) (r : string) :
  is_digit c = true ->
  parse_value (S fuel) (String c r) = parse_number (String c r).
Proof.
  intros Hc.
  destruct c as [[] [] [] [] [] [] [] []]; try discriminate Hc; reflexivity.
Qed.

Lemma parse_value_digits (fuel : nat) (n : N) (rest : string) :
  parse_value (S fuel) (digits n +:+ String "," rest)
  = Some (JNum (Z.of_N n) 0, String "," rest).
Proof.
  rewrite <- parse_number_digits.
  destruct (digits_head n) as (c & r & Hd & Hc). rewrite Hd.
  apply (parse_value_digit fuel c (r +:+ String "," rest) Hc).
Qed.

Lemma parse_value_quote (fuel : nat) (s rest : string) :
  parse_value (S fuel) (quote s +:+ rest) = Some (JStr s, rest).
Proof.
  unfold quote. cbn [String.append parse_value skip_ws].
  change (is_ws dquote) with false. cbn iota.
  change (code dquote =? 123)%N with false.
  change (code dquote =? 91)%N with false.
  change (code dquote =? 34)%N with true. cbn iota.
  rewrite append_assoc. cbn [String.append].
  rewrite parse_string_quote. reflexivity.
Qed.

Lemma quote_app (k tail : string) :
  quote k +:+ tail = String dquote (escape k +:+ String dquote tail).
Proof. unfold quote. cbn [String.append]. now rewrite append_assoc. Qed.

Lemma parse_members_str_more (fuel : nat) acc (k v tail : string) :
  parse_members (S (S fuel)) acc (quote k +:+ ":" +:+ quote v +:+ "," +:+ tail)
  = parse_members (S fuel) (acc ++ [(k, JStr v)]) tail.
Proof.
  rewrite quote_app.
  cbn [parse_members skip_ws]. change (is_ws dquote) with false. cbn iota.
  change (code dquote =? 34)%N with true. cbn iota.
  rewrite parse_string_quote. cbn [String.append skip_ws].
  change (is_ws ":") with false. cbn iota.
  change (code ":" =? 58)%N with true. cbn iota.
  rewrite parse_value_quote. cbn [String.append skip_ws].
  change (is_ws ",") with false. cbn iota.
  change (code "," =? 44)%N with true. cbn iota. reflexivity.
Qed.

Lemma parse_members_num_more (fuel : nat) acc (k : string) (n : N) (tail : string) :
  parse_members (S (S fuel)) acc (quote k +:+ ":" +:+ digits n +:+ "," +:+ tail)
  = parse_members (S fuel) (acc ++ [(k, JNum (Z.of_N n) 0)]) tail.
Proof.
  rewrite quote_app.
  cbn [parse_members skip_ws]. change (is_ws dquote) with false. cbn iota.
  change (code dquote =? 34)%N with true. cbn iota.
  rewrite parse_string_quote. cbn [String.append skip_ws].
  change (is_ws ":") with false. cbn iota.
  change (code ":" =? 58)%N with true. cbn iota.
  rewrite parse_value_digits. cbn [String.append skip_ws].
  change (is_ws ",") with false. cbn iota.
  change (code "," =? 44)%N with true. cbn iota. reflexivity.
Qed.

Lemma parse_members_str_last (fuel : nat) acc (k v tail : string) :
  parse_members (S (S fuel)) acc (quote k +:+ ":" +:+ quote v +:+ "}" +:+ tail)
  = Some (JObj (acc ++ [(k, JStr v)]), tail).
Proof.
  rewrite quote_app.
  cbn [parse_members skip_ws]. change (is_ws dquote) with false. cbn iota.
  change (code dquote =? 34)%N with true. cbn iota.
  rewrite parse_string_quote. cbn [String.append skip_ws].
  change (is_ws ":") with false. cbn iota.
  change (code ":" =? 58)%N with true. cbn iota.
  rewrite parse_value_quote. cbn [String.append skip_ws].
  change (is_ws "}") with false. cbn iota.
  change (code "}" =? 44)%N with false. cbn iota.
  change (code "}" =? 125)%N with true. cbn iota. reflexivity.
Qed.

Lemma stringify_header_text (nm pth : string) (sz : N) :
  stringify (JObj [("type", JStr "file-header"); ("name", JStr nm);
                   ("size", JNum (Z.of_N sz) 0); ("path", JStr pth)])
  = "{" +:+ quote "type" +:+ ":" +:+ quote "file-header" +:+ "," +:+
           quote "name" +:+ ":" +:+ quote nm +:+ "," +:+
           quote "size" +:+ ":" +:+ digits sz +:+ "," +:+
           quote "path" +:+ ":" +:+ quote pth +:+ "}" +:+ EmptyString.
Proof.
  cbn [stringify List.map join fst snd stringify_num Z.eqb].
  assert (Hs : stringify_int (Z.of_N sz) = digits sz).
  { destruct sz; reflexivity. }
  rewrite Hs. rewrite !append_assoc. reflexivity.
Qed.

Lemma parse_stringify_header (nm pth : string) (sz : N) :
  parse (stringify (JObj [("type", JStr "file-header"); ("name", JStr nm);
                          ("size", JNum (Z.of_N sz) 0); ("path", JStr pth)]))
  = Some (JObj [("type", JStr "file-header"); ("name", JStr nm);
                ("size", JNum (Z.of_N sz) 0); ("path", JStr pth)]).
Proof.
  rewrite stringify_header_text. unfold parse.
  set (text := quote "type" +:+ _).
  assert (Hf : exists f, (2 * String.length ("{" +:+ text))%nat = S (S (S (S (S f))))).
  { subst text. cbn. eauto. }
  destruct Hf as [f Hf]. rewrite Hf.
  cbn [parse_value String.append skip_ws].
  change (is_ws "{") with false. cbn iota.
  change (code "{" =? 123)%N with true. cbn iota.
  assert (Ht : exists r, text = String dquote r).
  { subst text. rewrite quote_app. eauto. }
  destruct Ht as [r Ht]. rewrite Ht at 1.
  cbn [skip_ws]. change (is_ws dquote) with false. cbn iota.
  change (code dquote =? 125)%N with false. cbn iota.
  subst text.
  rewrite parse_members_str_more, parse_members_str_more.
  rewrite parse_members_num_more, parse_members_str_last.
  reflexivity.
Qed.

(** *** The fuel of the parser *)

Lemma skip_ws_le (s : string) : String.length (skip_ws s) <= String.length s.
Proof.
  induction s as [|c s IH]; cbn [skip_ws]; [lia|].
  destruct (is_ws c); cbn [String.length]; lia.
Qed.

Lemma skip_ws_cons (s : string) (c : ascii) (r : string) :
  skip_ws s = String c r -> String.length r < String.length s.
Proof.
  intros H. pose proof (skip_ws_le s) as Hle. rewrite H in Hle.
  cbn [String.length] in Hle. lia.
Qed.

Lemma cons_piece_rest p o ps r :
  cons_piece p o = Some (ps, r) -> exists ps', o = Some (ps', r).
Proof. destruct o as [[ps' r']|]; cbn; [|discriminate]. intros [= _ <-]. eauto. Qed.

Lemma parse_chars_le (n : nat) :
  forall s ps r, String.length s <= n -> parse_chars s = Some (ps, r) -> String.length r < String.length s.
Proof.
  induction n as [|n IH]; intros s ps r Hn H.
  { destruct s; [discriminate H|cbn in Hn; lia]. }
  destruct s as [|c s]; [discriminate H|]. cbn [parse_chars String.length] in *.
  destruct (code c =? 34)%N.
  { injection H as _ <-. lia. }
  destruct (code c =? 92)%N.
  - destruct s as [|e s1]; [discriminate H|]. cbn [String.length] in *.
    destruct (simple_escape e).
    + apply cons_piece_rest in H as [ps' H]. apply IH in H; lia.
    + destruct (code e =? 117)%N; [|discriminate H].
      destruct s1 as [|h1 [|h2 [|h3 [|h4 s2]]]]; try discriminate H.
      cbn [String.length] in *.
      destruct (hex_val h1), (hex_val h2), (hex_val h3), (hex_val h4); try discriminate H.
      apply cons_piece_rest in H as [ps' H]. apply IH in H; lia.
  - destruct (code c <? 32)%N; [discriminate H|].
    apply cons_piece_rest in H as [ps' H]. apply IH in H; lia.
Qed.

Lemma parse_string_le (s str r : string) :
  parse_string s = Some (str, r) -> String.length r < String.length s.
Proof.
  unfold parse_string. destruct (parse_chars s) as [[ps r']|] eqn:E; [|discriminate].
  intros [= _ <-]. eapply parse_chars_le; eauto.
Qed.

Lemma span_digits_le (s : string) : String.length (span_digits s).2 <= String.length s.
Proof.
  induction s as [|c s IH]; cbn [span_digits]; [cbn; lia|].
  destruct (is_digit c); [|cbn; lia].
  destruct (span_digits s) as [d r]. cbn in *. lia.
Qed.

Lemma strip_le (lit s r : string) : strip lit s = Some r -> String.length r <= String.length s.
Proof.
  revert s. induction lit as [|a lit IH]; intros s; cbn [strip].
  - intros [= <-]. lia.
  - destruct s as [|b s]; [discriminate|]. destruct (Ascii.eqb a b); [|discriminate].
    intros H. apply IH in H. cbn. lia.
Qed.

Lemma expect_le (lit : string) (v v' : json) (s r : string) :
  expect lit v s = Some (v', r) -> String.length r <= String.length s.
Proof.
  unfold expect. destruct (strip lit s) eqn:E; [|discriminate].
  intros [= _ <-]. eapply strip_le; eauto.
Qed.

Lemma parse_fraction_le (s fp r : string) :
  parse_fraction s = Some (fp, r) -> String.length r <= String.length s.
Proof.
  unfold parse_fraction. destruct s as [|c s]; [intros [= _ <-]; lia|].
  destruct (code c =? 46)%N; [|intros [= _ <-]; lia].
  pose proof (span_digits_le s) as Hle.
  destruct (span_digits s) as [[|d ds] r']; [discriminate|].
  intros [= _ <-]. cbn in *. lia.
Qed.

Lemma parse_exponent_le (s : string) (ex : Z) (r : string) :
  parse_exponent s = Some (ex, r) -> String.length r <= String.length s.
Proof.
  unfold parse_exponent. destruct s as [|c s]; [intros [= _ <-]; lia|].
  destruct ((code c =? 101)%N || (code c =? 69)%N); [|intros [= _ <-]; lia].
  set (p := match s with EmptyString => _ | String sg r0 => _ end).
  assert (Hp : String.length p.2 <= String.length s).
  { subst p. destruct s as [|sg r0]; [cbn; lia|].
    destruct (code sg =? 45)%N; [cbn; lia|].
    destruct (code sg =? 43)%N; cbn; lia. }
  destruct p as [neg rest1]. pose proof (span_digits_le rest1) as Hle.
  destruct (span_digits rest1) as [[|d ds] r']; [discriminate|].
  intros [= _ <-]. cbn in *. lia.
Qed.

Lemma parse_number_le (s : string) (v : json) (r : string) :
  parse_number s = Some (v, r) -> String.length r <= String.length s.
Proof.
  unfold parse_number.
  set (p := match s with EmptyString => _ | String c rest => _ end).
  assert (Hp : String.length p.2 <= String.length s).
  { subst p. destruct s as [|c rest]; [cbn; lia|].
    destruct (code c =? 45)%N; cbn; lia. }
  destruct p as [neg s1]. pose proof (span_digits_le s1) as Hle.
  destruct (span_digits s1) as [[|d ds] s2]; [discriminate|].
  destruct (leading_zero (String d ds)); [discriminate|].
  destruct (parse_fraction s2) as [[fp s3]|] eqn:Ef; [|discriminate].
  destruct (parse_exponent s3) as [[ex s4]|] eqn:Ee; [|discriminate].
  intros [= _ <-]. apply parse_fraction_le in Ef. apply parse_exponent_le in Ee.
  cbn in *. lia.
Qed.

(** What the three parsers leave is no longer than what they were given. *)
Lemma parse_value_le (fuel : nat) :
  (forall s v r, parse_value fuel s = Some (v, r) -> String.length r <= String.length s) /\
  (forall acc s v r, parse_elements fuel acc s = Some (v, r) -> String.length r <= String.length s) /\
  (forall acc s v r, parse_members fuel acc s = Some (v, r) -> String.length r <= String.length s).
Proof.
  induction fuel as [|fuel (IHv & IHe & IHm)].
  { repeat split; intros; discriminate. }
  split; [|split].
  - intros s v r. cbn [parse_value].
    destruct (skip_ws s) as [|c rest] eqn:Es; [discriminate|].
    apply skip_ws_cons in Es.
    destruct (code c =? 123)%N.
    { destruct (skip_ws rest) as [|c1 rest1] eqn:E1; [discriminate|].
      apply skip_ws_cons in E1.
      destruct (code c1 =? 125)%N; [intros [= _ <-]; lia|].
      intros H. apply IHm in H. lia. }
    destruct (code c =? 91)%N.
    { destruct (skip_ws rest) as [|c1 rest1] eqn:E1; [discriminate|].
      apply skip_ws_cons in E1.
      destruct (code c1 =? 93)%N; [intros [= _ <-]; lia|].
      intros H. apply IHe in H. lia. }
    destruct (code c =? 34)%N.
    { destruct (parse_string rest) as [[str rest1]|] eqn:E1; [|discriminate].
      apply parse_string_le in E1. intros [= _ <-]. lia. }
    destruct (code c =? 116)%N.
    { intros H. apply expect_le in H. cbn in H. lia. }
    destruct (code c =? 102)%N.
    { intros H. apply expect_le in H. cbn in H. lia. }
    destruct (code c =? 110)%N.
    { intros H. apply expect_le in H. cbn in H. lia. }
    intros H. apply parse_number_le in H. cbn in H. lia.
  - intros acc s v r. cbn [parse_elements].
    destruct (parse_value fuel s) as [[v1 rest]|] eqn:Ev; [|discriminate].
    apply IHv in Ev.
    destruct (skip_ws rest) as [|c rest1] eqn:E1; [discriminate|].
    apply skip_ws_cons in E1.
    destruct (code c =? 44)%N; [intros H; apply IHe in H; lia|].
    destruct (code c =? 93)%N; [|discriminate]. intros [= _ <-]. lia.
  - intros acc s v r. cbn [parse_members].
    destruct (skip_ws s) as [|q rest] eqn:Es; [discriminate|].
    apply skip_ws_cons in Es.
    destruct (code q =? 34)%N; [|discriminate].
    destruct (parse_string rest) as [[k rest1]|] eqn:Ek; [|discriminate].
    apply parse_string_le in Ek.
    destruct (skip_ws rest1) as [|c rest2] eqn:E2; [discriminate|].
    apply skip_ws_cons in E2.
    destruct (code c =? 58)%N; [|discriminate].
    destruct (parse_value fuel rest2) as [[v1 rest3]|] eqn:Ev; [|discriminate].
    apply IHv in Ev.
    destruct (skip_ws rest3) as [|d rest4] eqn:E4; [discriminate|].
    apply skip_ws_cons in E4.
    destruct (code d =? 44)%N; [intros H; apply IHm in H; lia|].
    destruct (code d =? 125)%N; [|discriminate]. intros [= _ <-]. lia.
Qed.

(** Fuel beyond twice the length of the text changes nothing. *)
Lemma parse_fuel (f1 : nat) :
  (forall f2 s, 2 * String.length s < f1 -> 2 * String.length s < f2 ->
     parse_value f1 s = parse_value f2 s) /\
  (forall f2 acc s, 2 * String.length s + 1 < f1 -> 2 * String.length s + 1 < f2 ->
     parse_elements f1 acc s = parse_elements f2 acc s) /\
  (forall f2 acc s, 2 * String.length s + 1 < f1 -> 2 * String.length s + 1 < f2 ->
     parse_members f1 acc s = parse_members f2 acc s).
Proof.
  induction f1 as [|f1 (IHv & IHe & IHm)].
  { repeat split; intros; lia. }
  split; [|split].
  - intros [|f2] s H1 H2; [lia|]. cbn [parse_value].
    destruct (skip_ws s) as [|c rest] eqn:Es; [reflexivity|].
    apply skip_ws_cons in Es.
    destruct (code c =? 123)%N.
    { destruct (skip_ws rest) as [|c1 rest1] eqn:E1; [reflexivity|].
      destruct (code c1 =? 125)%N; [reflexivity|]. apply IHm; lia. }
    destruct (code c =? 91)%N; [|reflexivity].
    destruct (skip_ws rest) as [|c1 rest1] eqn:E1; [reflexivity|].
    destruct (code c1 =? 93)%N; [reflexivity|]. apply IHe; lia.
  - intros [|f2] acc s H1 H2; [lia|]. cbn [parse_elements].
    rewrite (IHv f2 s) by lia.
    destruct (parse_value f2 s) as [[v1 rest]|] eqn:Ev; [|reflexivity].
    apply (proj1 (parse_value_le f2)) in Ev.
    destruct (skip_ws rest) as [|c rest1] eqn:E1; [reflexivity|].
    apply skip_ws_cons in E1.
    destruct (code c =? 44)%N; [|reflexivity]. apply IHe; lia.
  - intros [|f2] acc s H1 H2; [lia|]. cbn [parse_members].
    destruct (skip_ws s) as [|q rest] eqn:Es; [reflexivity|].
    apply skip_ws_cons in Es.
    destruct (code q =? 34)%N; [|reflexivity].
    destruct (parse_string rest) as [[k rest1]|] eqn:Ek; [|reflexivity].
    apply parse_string_le in Ek.
    destruct (skip_ws rest1) as [|c rest2] eqn:E2; [reflexivity|].
    apply skip_ws_cons in E2.
    destruct (code c =? 58)%N; [|reflexivity].
    rewrite (IHv f2 rest2) by lia.
    destruct (parse_value f2 rest2) as [[v1 rest3]|] eqn:Ev; [|reflexivity].
    apply (proj1 (parse_value_le f2)) in Ev.
    destruct (skip_ws rest3) as [|d rest4] eqn:E4; [reflexivity|].
    apply skip_ws_cons in E4.
    destruct (code d =? 44)%N; [|reflexivity]. apply IHm; lia.
Qed.

Lemma parse_value_fuel (fuel : nat) (text : string) :
  2 * String.length text < fuel ->
  parse_value fuel text = parse_value (S (2 * String.length text)) text.
Proof. intros H. apply (proj1 (parse_fuel fuel)); lia. Qed.

(** The frames of the sender, as the receiver classifies them. *)

Lemma toString_Buffer_from (text : string) : toString (Buffer_from text) = text.
Proof. apply string_of_list_byte_of_string. Qed.

Lemma header_parses (file : File) :
  parse (stringify (header file)) = Some (header file).
Proof.
  unfold header, size. rewrite <- nat_N_Z. apply parse_stringify_header.
Qed.

Lemma header_prefix (file : File) :
  String.prefix "{" (stringify (header file)) = true.
Proof.
  unfold header, size. rewrite <- nat_N_Z, stringify_header_text. reflexivity.
Qed.

Lemma control_header (file : File) :
  header_small file = true -> control (encode (Header file)) = Some (header file).
Proof.
  unfold header_small, control. intros ->.
  cbn [encode]. rewrite toString_Buffer_from, header_prefix. apply header_parses.
Qed.

Lemma control_end : control (encode EndMarker) = Some file_end.
Proof. reflexivity. Qed.

Lemma kind_header (file : File) :
  header_small file = true -> kind (encode (Header file)) = IsHeader.
Proof. intros H. unfold kind. rewrite (control_header _ H). reflexivity. Qed.

Lemma kind_end : kind (encode EndMarker) = IsEnd.
Proof. reflexivity. Qed.

End JSONFacts.

(** ** The sender *)



Lemma CHUNK_SIZE_pos : (0 < CHUNK_SIZE)%Z.
Proof. reflexivity. Qed.

Section Slices.
Variable file : File.

Lemma byteLength_slice (offset : Z) :
  (0 <= offset <= size file)%Z ->
  byteLength (slice file offset (offset + CHUNK_SIZE))
  = Z.min CHUNK_SIZE (size file - offset).
Proof.
  intros H. unfold byteLength, slice, size in *.
  rewrite length_take, length_drop. pose proof CHUNK_SIZE_pos. lia.
Qed.

Lemma slice_drop (offset : Z) :
  slice file offset (offset + CHUNK_SIZE)
  = take (Z.to_nat CHUNK_SIZE) (drop (Z.to_nat offset) (content file)).
Proof. unfold slice. do 2 f_equal. lia. Qed.

Lemma slices_concat (rounds : nat) (offset : Z) :
  (0 <= offset <= size file)%Z ->
  (size file - offset < Z.of_nat rounds)%Z ->
  concat (slices rounds file offset) = drop (Z.to_nat offset) (content file).
Proof.
  revert offset. induction rounds as [|rounds IH]; intros offset Ho Hr.
  { lia. }
  cbn [slices]. destruct (Z.ltb_spec offset (size file)) as [Hlt|Hge].
  - pose proof (byteLength_slice offset Ho) as Hlen.
    pose proof CHUNK_SIZE_pos.
    cbn [concat]. rewrite IH by lia.
    rewrite Hlen, slice_drop.
    replace (Z.to_nat (offset + Z.min CHUNK_SIZE (size file - offset)))
      with (Z.to_nat offset + Z.to_nat (Z.min CHUNK_SIZE (size file - offset)))%nat by lia.
    rewrite <- drop_drop.
    destruct (Z.le_ge_cases CHUNK_SIZE (size file - offset)) as [Hc|Hc].
    + rewrite Z.min_l by lia. apply take_drop.
    + rewrite Z.min_r by lia.
      rewrite (drop_ge (drop _ _)), app_nil_r.
      * apply take_ge. rewrite length_drop. unfold size in *. lia.
      * rewrite length_drop. unfold size in *. lia.
  - cbn [concat]. symmetry. apply drop_ge. unfold size in *. lia.
Qed.


Lemma chunksOf_concat : concat (chunksOf file) = content file.
Proof.
  unfold chunksOf. rewrite slices_concat; [reflexivity| |]; unfold size; lia.
Qed.



End Slices.

(** *** The sender's steps on a healthy channel *)

Lemma bind_Ok {A B} (c : M A) (f : A -> M B) (w w1 : World) (a : A) :
  c w = Ok a w1 -> (c ≫= f) w = f a w1.
Proof. intros H. unfold mbind, M_bind. now rewrite H. Qed.

Lemma bind_ext {A B} (c : M A) (f g : A -> M B) (w : World) :
  (forall a w', f a w' = g a w') -> (c ≫= f) w = (c ≫= g) w.
Proof. intros H. unfold mbind, M_bind. destruct (c w); auto. Qed.

(** The rounds given to the chunk loop are never used up: more of them change
    nothing, on any channel. *)
Lemma sendChunks_rounds (env : Env) (file : File) (total nfiles i : Z) (r1 : nat) :
  forall (r2 : nat) (offset : Z) (w : World),
    (0 <= offset <= size file)%Z ->
    (size file - offset < Z.of_nat r1)%Z -> (size file - offset < Z.of_nat r2)%Z ->
    sendChunks env r1 file total nfiles i offset w
    = sendChunks env r2 file total nfiles i offset w.
Proof.
  induction r1 as [|r1 IH]; intros r2 offset w Ho H1 H2.
  - lia.
  - destruct r2 as [|r2]; [lia|]. cbn [sendChunks].
    destruct (Z.ltb_spec offset (size file)) as [Hlt|Hge]; [|reflexivity].
    pose proof (byteLength_slice file offset Ho) as Hlen.
    pose proof CHUNK_SIZE_pos.
    apply bind_ext; intros _ w1. apply bind_ext; intros _ w2.
    apply bind_ext; intros _ w3. apply bind_ext; intros _ w4.
    apply bind_ext; intros _ w5. apply IH; lia.
Qed.

Lemma forFiles_catches (env : Env) (files : list File) (total nfiles i : Z) (w w' : World) :
  forFiles env files total nfiles i w <> Throw w'.
Proof.
  revert i w. induction files as [|file rest IH]; intros i w; cbn [forFiles].
  - discriminate.
  - unfold mbind, M_bind, try_catch.
    destruct (sendFile env file total nfiles i w) as [[] w1|w1|w1].
    + apply IH.
    + cbn. apply IH.
    + discriminate.
Qed.

Lemma sends_refl (w : World) : sends [] w w.
Proof. unfold sends. rewrite app_nil_r. auto. Qed.

Lemma sends_trans (a b : list Buffer) (w w1 w2 : World) :
  sends a w w1 -> sends b w1 w2 -> sends (a ++ b) w w2.
Proof.
  unfold sends. intros (Ha & ? & ? & ?) (Hb & ? & ? & ?).
  rewrite Hb, Ha, app_assoc. repeat split; try lia. congruence.
Qed.

Lemma healthy_from_mono (env : Env) (n t n' t' : nat) :
  n <= n' -> t <= t' -> healthy_from env n t -> healthy_from env n' t'.
Proof.
  intros Hn Ht (H1 & H2 & H3). repeat split.
  - intros k Hk. apply H1. lia.
  - intros u Hu. apply H2. lia.
  - intros u b Hu. apply H3. lia.
Qed.

Lemma healthy_sends (env : Env) (frames : list Buffer) (w w' : World) :
  sends frames w w' -> healthy_from env (nsend w) (tick w) ->
  healthy_from env (nsend w') (tick w').
Proof. intros (_ & ? & ? & _). now apply healthy_from_mono. Qed.

Section Healthy.
Variable env : Env.

Lemma completes_bind (c : M unit) (k : M unit) (a b : list Buffer) :
  completes env c a -> completes env k b -> completes env (c;; k) (a ++ b).
Proof.
  intros Hc Hk w Hw. destruct (Hc w Hw) as (w1 & E1 & S1).
  destruct (Hk w1 (healthy_sends _ _ _ _ S1 Hw)) as (w2 & E2 & S2).
  exists w2. split.
  - rewrite (bind_Ok _ _ _ _ _ E1). exact E2.
  - eapply sends_trans; eauto.
Qed.

Lemma completes_eq (c : M unit) (a b : list Buffer) :
  a = b -> completes env c a -> completes env c b.
Proof. now intros ->. Qed.

Lemma completes_ret : completes env (mret tt) [].
Proof. intros w _. exists w. split; [reflexivity|apply sends_refl]. Qed.

Lemma completes_modify (f : World -> World) :
  (forall w, sent (f w) = sent w /\ nsend (f w) = nsend w /\
             tick (f w) = tick w /\ toasts (f w) = toasts w) ->
  completes env (modify f) [].
Proof.
  intros Hf w _. exists (f w). split; [reflexivity|].
  destruct (Hf w) as (H1 & H2 & H3 & H4). unfold sends, wire.
  rewrite H1, H2, H3, H4, app_nil_r. auto.
Qed.

Lemma completes_yield : completes env (yield env) [].
Proof.
  intros w _. eexists. split; [reflexivity|].
  unfold sends, wire. cbn. rewrite app_nil_r. repeat split; lia.
Qed.

Lemma completes_send (st : Site) (data : Buffer) : completes env (send env st data) [data].
Proof.
  intros w (H1 & H2 & _). unfold send.
  rewrite H1, H2 by lia. cbn [orb negb]. eexists. split; [reflexivity|].
  unfold sends, wire. cbn. rewrite fmap_app. cbn. repeat split; lia.
Qed.

Lemma check_resolves (polls k : nat) (w : World) :
  (forall t', tick w <= t' -> channel env t' = true) ->
  k <= polls ->
  (polled env k (tick w) (bufferedAmount w) < BUFFER_THRESHOLD)%Z ->
  exists w', check env polls w = Ok tt w' /\ sends [] w w'.
Proof.
  revert k w. induction polls as [|polls IH]; intros k w Hch Hk Hp.
  - assert (k = 0%nat) as -> by lia. cbn [polled] in Hp. cbn [check].
    apply Z.ltb_lt in Hp. rewrite Hp. exists w. split; [reflexivity|apply sends_refl].
  - cbn [check]. destruct (Z.ltb_spec (bufferedAmount w) BUFFER_THRESHOLD) as [Hlt|Hge].
    + exists w. split; [reflexivity|apply sends_refl].
    + destruct k as [|k]; [cbn [polled] in Hp; lia|].
      cbn [polled] in Hp. pose (w1 := final (yield env w)).
      change (yield env w) with (Ok tt w1). cbv iota beta.
      change (tick w1) with (S (tick w)). rewrite Hch by lia.
      destruct (IH k w1) as (w' & E & S).
      * intros t' Ht'. apply Hch. cbn in Ht'. lia.
      * lia.
      * exact Hp.
      * exists w'. split; [exact E|].
        destruct S as (S1 & S2 & S3 & S4). unfold sends, wire in *. cbn in *.
        repeat split; try lia; assumption.
Qed.

Lemma completes_backpressure : completes env (backpressure env) [].
Proof.
  intros w (H1 & H2 & H3). unfold backpressure.
  destruct (channel env (tick w) && (BUFFER_THRESHOLD <? bufferedAmount w)%Z).
  - destruct (H3 (tick w) (bufferedAmount w) (le_n _)) as (k & Hk & Hp).
    apply (check_resolves _ k); auto.
  - exists w. split; [reflexivity|apply sends_refl].
Qed.

Lemma completes_sendChunks (rounds : nat) (file : File) (total nfiles i offset : Z) :
  (0 <= offset <= size file)%Z ->
  (size file - offset < Z.of_nat rounds)%Z ->
  completes env (sendChunks env rounds file total nfiles i offset)
            (slices rounds file offset).
Proof.
  revert offset. induction rounds as [|rounds IH]; intros offset Ho Hr; [lia|].
  cbn [sendChunks slices].
  destruct (Z.ltb_spec offset (size file)) as [Hlt|Hge]; [|apply completes_ret].
  pose proof (byteLength_slice file offset Ho) as Hlen.
  pose proof CHUNK_SIZE_pos.
  eapply completes_eq; [|apply completes_bind; [apply completes_yield|]].
  2:{ apply completes_bind; [apply completes_backpressure|].
      apply completes_bind; [apply completes_send|].
      apply completes_bind; [apply completes_modify; intros; cbn; auto|].
      apply completes_bind; [apply completes_modify; intros; cbn; auto|].
      apply IH; lia. }
  reflexivity.
Qed.

Lemma completes_sendFile (file : File) (total nfiles i : Z) :
  completes env (sendFile env file total nfiles i) (encode <$> framesOf file).
Proof.
  unfold sendFile, framesOf.
  eapply completes_eq; [|apply completes_bind; [apply completes_send|]].
  2:{ apply completes_bind; [apply completes_yield|].
      apply completes_bind.
      { apply completes_sendChunks; unfold size; lia. }
      apply completes_bind; [apply completes_yield|apply completes_send]. }
  cbn [fmap list_fmap encode app]. rewrite fmap_app, <- list_fmap_compose.
  cbn. f_equal. f_equal. rewrite list_fmap_id. reflexivity.
Qed.

Lemma completes_try (body handler : M unit) (frames : list Buffer) :
  completes env body frames -> completes env (try_catch body handler) frames.
Proof.
  intros Hb w Hw. destruct (Hb w Hw) as (w' & E & S). exists w'.
  unfold try_catch. rewrite E. auto.
Qed.

Lemma completes_forFiles (files : list File) (total nfiles i : Z) :
  completes env (forFiles env files total nfiles i)
            (encode <$> (files ≫= framesOf)).
Proof.
  revert i. induction files as [|file rest IH]; intros i; cbn [forFiles].
  { apply completes_ret. }
  eapply completes_eq; [|apply completes_bind; [apply completes_try, completes_sendFile|apply IH]].
  change ((file :: rest) ≫= framesOf) with (framesOf file ++ rest ≫= framesOf).
  rewrite fmap_app. reflexivity.
Qed.

End Healthy.

Lemma bind_modify (f : World -> World) (k : M unit) (w : World) :
  (modify f;; k) w = k (f w).
Proof. reflexivity. Qed.

Lemma sendFiles_completes (env : Env) (files : list File) (w : World) :
  healthy_from env (nsend w) (tick w) ->
  exists w', sendFiles env files w = Ok tt w' /\
             wire w' = wire w ++ (encode <$> (files ≫= framesOf)) /\
             toasts w' = toasts w ++ [("All files sent!", "success")].
Proof.
  intros Hw. unfold sendFiles. rewrite !bind_modify.
  match goal with |- context [forFiles env files ?t ?n ?i] =>
    destruct (completes_forFiles env files t n i
                (set_sentBytesTotal 0
                   (set_progress (fun _ =>
                      {| stats := {| totalFiles := n; processedFiles := 0;
                                     totalBytes := t; processedBytes := 0;
                                     speed := "0 MB/s"; eta := "--:--";
                                     currentFile := firstName files |};
                         lastBytesRef := 0;
                         lastTimeRef := clock env (tick (setTransferring true w)) |})
                      (setTransferring true w))) Hw) as (w1 & E & S1 & _ & _ & S4)
  end.
  rewrite (bind_Ok _ _ _ _ _ E), !bind_modify. eexists. split; [reflexivity|].
  split; [exact S1|]. cbn. now rewrite S4.
Qed.

(** *** Backpressure, on any channel *)

Lemma safe_refl (w : World) : safe w w.
Proof. exists []. now rewrite app_nil_r. Qed.

Lemma safe_trans (w w1 w2 : World) : safe w w1 -> safe w1 w2 -> safe w w2.
Proof.
  intros (a & Ha & Fa) (b & Hb & Fb). exists (a ++ b).
  rewrite Hb, Ha, app_assoc. split; [reflexivity|]. now apply Forall_app.
Qed.

Lemma safe_same (w w' : World) : sent w' = sent w -> safe w w'.
Proof. intros H. exists []. now rewrite app_nil_r. Qed.

Lemma keeps_bind {A B} (c : M A) (f : A -> M B) :
  keeps_safe c -> (forall a, keeps_safe (f a)) -> keeps_safe (c ≫= f).
Proof.
  intros Hc Hf w. specialize (Hc w). unfold mbind, M_bind.
  destruct (c w) as [a w1|w1|w1]; cbn [final] in *; auto.
  eapply safe_trans; [exact Hc|apply Hf].
Qed.

Lemma keeps_ret {A} (a : A) : keeps_safe (mret a : M A).
Proof. intros w. apply safe_refl. Qed.

Lemma keeps_modify (f : World -> World) :
  (forall w, sent (f w) = sent w) -> keeps_safe (modify f).
Proof. intros Hf w. apply safe_same, Hf. Qed.

Section AnyChannel.
Variable env : Env.

Lemma keeps_yield : keeps_safe (yield env).
Proof. intros w. now apply safe_same. Qed.

Lemma keeps_send (st : Site) (data : Buffer) :
  st <> AtChunk -> keeps_safe (send env st data).
Proof.
  intros Hst w. unfold send.
  destruct (send_throws env (nsend w) || negb (channel env (tick w))); cbn [final].
  - now apply safe_same.
  - eexists. split; [reflexivity|]. constructor; [|constructor].
    unfold bounded. cbn. intros Hs. contradiction.
Qed.

Lemma check_sent (polls : nat) (w : World) :
  sent (final (check env polls w)) = sent w /\
  tick w <= tick (final (check env polls w)) /\
  forall w', check env polls w = Ok tt w' -> (bufferedAmount w' < BUFFER_THRESHOLD)%Z.
Proof.
  revert w. induction polls as [|polls IH]; intros w; cbn [check].
  - destruct (Z.ltb_spec (bufferedAmount w) BUFFER_THRESHOLD); cbn [final].
    + split; [reflexivity|]. split; [lia|]. intros w' [= <-]. assumption.
    + split; [reflexivity|]. split; [lia|]. intros w' [=].
  - destruct (Z.ltb_spec (bufferedAmount w) BUFFER_THRESHOLD); cbn [final].
    + split; [reflexivity|]. split; [lia|]. intros w' [= <-]. assumption.
    + pose (w1 := final (yield env w)).
      change (yield env w) with (Ok tt w1). cbv iota beta.
      assert (Ht : tick w1 = S (tick w)) by reflexivity.
      destruct (channel env (tick w1)).
      * destruct (IH w1) as (H1 & H2 & H3).
        split; [exact H1|]. split; [lia|exact H3].
      * cbn [final]. split; [reflexivity|]. split; [lia|]. intros w' [=].
Qed.

Lemma backpressure_spec (w : World) :
  sent (final (backpressure env w)) = sent w /\
  forall w', backpressure env w = Ok tt w' ->
    channel env (tick w') = true -> (bufferedAmount w' <= BUFFER_THRESHOLD)%Z.
Proof.
  unfold backpressure.
  destruct (channel env (tick w)) eqn:Hc; cbn [andb].
  - destruct (Z.ltb_spec BUFFER_THRESHOLD (bufferedAmount w)).
    + destruct (check_sent (patience env) w) as (H1 & _ & H3). split; [exact H1|].
      intros w' E _. specialize (H3 w' E). lia.
    + cbn [final]. split; [reflexivity|]. intros w' [= <-] _. assumption.
  - cbn [final]. split; [reflexivity|]. intros w' [= <-]. congruence.
Qed.

Lemma byteLength_slice_le (file : File) (offset : Z) :
  (byteLength (slice file offset (offset + CHUNK_SIZE)) <= CHUNK_SIZE)%Z.
Proof.
  unfold byteLength, slice. rewrite length_take. pose proof CHUNK_SIZE_pos. lia.
Qed.

Lemma keeps_guarded_send (chunk : Buffer) (k : M unit) :
  (byteLength chunk <= CHUNK_SIZE)%Z ->
  keeps_safe k ->
  keeps_safe (backpressure env;; send env AtChunk chunk;; k).
Proof.
  intros Hlen Hk w. destruct (backpressure_spec w) as (Hs & Hb).
  unfold mbind at 1, M_bind at 1.
  destruct (backpressure env w) as [[] w1|w1|w1]; cbn [final] in *;
    try now apply safe_same.
  specialize (Hb w1 eq_refl).
  unfold mbind, M_bind, send.
  destruct (send_throws env (nsend w1)); cbn [orb final].
  { now apply safe_same. }
  destruct (channel env (tick w1)); cbn [negb final].
  2:{ now apply safe_same. }
  eapply safe_trans; [|apply Hk].
  eexists. cbn [sent]. rewrite Hs. split; [reflexivity|].
  constructor; [|constructor]. unfold bounded. cbn. intros _.
  specialize (Hb eq_refl). lia.
Qed.

Lemma keeps_sendChunks (rounds : nat) (file : File) (total nfiles i offset : Z) :
  keeps_safe (sendChunks env rounds file total nfiles i offset).
Proof.
  revert offset. induction rounds as [|rounds IH]; intros offset; cbn [sendChunks].
  { intros w. apply safe_refl. }
  destruct (offset <? size file)%Z; [|apply keeps_ret].
  apply keeps_bind; [apply keeps_yield|intros _].
  apply keeps_guarded_send; [apply byteLength_slice_le|].
  apply keeps_bind; [now apply keeps_modify|intros _].
  apply keeps_bind; [now apply keeps_modify|intros _].
  apply IH.
Qed.

Lemma keeps_try (body handler : M unit) :
  keeps_safe body -> keeps_safe handler -> keeps_safe (try_catch body handler).
Proof.
  intros Hb Hh w. specialize (Hb w). unfold try_catch.
  destruct (body w) as [a w1|w1|w1]; cbn [final] in *; auto.
  eapply safe_trans; [exact Hb|apply Hh].
Qed.

Lemma keeps_sendFile (file : File) (total nfiles i : Z) :
  keeps_safe (sendFile env file total nfiles i).
Proof.
  unfold sendFile.
  apply keeps_bind; [now apply keeps_send|intros _].
  apply keeps_bind; [apply keeps_yield|intros _].
  apply keeps_bind; [apply keeps_sendChunks|intros _].
  apply keeps_bind; [apply keeps_yield|intros _].
  now apply keeps_send.
Qed.

Lemma keeps_forFiles (files : list File) (total nfiles i : Z) :
  keeps_safe (forFiles env files total nfiles i).
Proof.
  revert i. induction files as [|file rest IH]; intros i; cbn [forFiles].
  { apply keeps_ret. }
  apply keeps_bind; [|intros _; apply IH].
  apply keeps_try; [apply keeps_sendFile|].
  apply keeps_bind; [now apply keeps_modify|intros _]. now apply keeps_modify.
Qed.

End AnyChannel.

(** C7.  Whatever the channel does and whichever files are sent, every data
    chunk accepted by [send] was sent while the [bufferedAmount] of the
    channel was at most [BUFFER_THRESHOLD]: the amount is looked at before
    each chunk, and above the mark no chunk is sent until a poll finds the
    amount below the mark.  Hence right after a chunk has been enqueued the
    amount is above the mark by at most one chunk.  The second part is the
    wait by itself: entered above the mark, it sends nothing and ends only
    with the amount below the mark. *)
Theorem backpressure_bounds_overshoot (env : Env) (files : list File) (w : World) :
  (exists evs, sent (final (sendFiles env files w)) = sent w ++ evs /\
               Forall bounded evs) /\
  (forall w1 w2,
     channel env (tick w1) = true ->
     (BUFFER_THRESHOLD < bufferedAmount w1)%Z ->
     backpressure env w1 = Ok tt w2 ->
     sent w2 = sent w1 /\ (bufferedAmount w2 < BUFFER_THRESHOLD)%Z).
Proof.
  split.
  - revert w. change (keeps_safe (sendFiles env files)). unfold sendFiles.
    repeat (apply keeps_bind; [try (now apply keeps_modify)|intros _]).
    + apply keeps_forFiles.
    + now apply keeps_modify.
  - intros w1 w2 Hc Hb E. unfold backpressure in E. rewrite Hc in E.
    apply Z.ltb_lt in Hb. rewrite Hb in E. cbn [andb] in E.
    destruct (check_sent env (patience env) w1) as (H1 & _ & H3).
    rewrite E in H1. cbn [final] in H1. split; [exact H1|]. now apply H3.
Qed.

Lemma forFiles_app (env : Env) (pre post : list File) (total nfiles i : Z) (w w1 : World) :
  forFiles env pre total nfiles i w = Ok tt w1 ->
  forFiles env (pre ++ post) total nfiles i w
  = forFiles env post total nfiles (i + Z.of_nat (length pre)) w1.
Proof.
  revert i w. induction pre as [|f pre IH]; intros i w E.
  - cbn in E. injection E as <-. cbn [app length]. f_equal. lia.
  - cbn [app forFiles length] in *. unfold mbind, M_bind in *.
    destruct (try_catch _ _ w) as [[] w'|w'|w']; try discriminate E.
    rewrite (IH _ _ E). f_equal. lia.
Qed.

(** C8.  The claim fails on the code where the channel is lost during a
    backpressure wait.  The peer goes while the first chunk of [a.txt] waits
    for the buffer to drain: the timer callback throws outside the [try], the
    promise of the wait never settles, and [sendFiles] never returns.  Only
    the Header of [a.txt] has been sent; nothing is reported, [b.txt] is
    never tried, and [transferring] stays set. *)
Theorem lost_channel_stalls_the_queue :
  exists w,
    sendFiles lost_in_wait [hello; notes] idle = Hang w /\
    wire w = [encode (Header hello)] /\
    toasts w = [] /\ console_error w = [] /\ transferring w = true.
Proof. eexists. vm_compute. repeat split. Qed.

(** X25.  When [send] throws while file N is being sent, the files before it
    having gone through the loop, the loop reports the failure of that file
    ([console.error] and a toast) and goes on with the files N+1 to the
    last, from the world the failure left behind; on a channel that is
    healthy from then on, all the frames of these files are sent. *)
Theorem error_aborts_one_file (env : Env) (pre : list File) (file : File)
    (post : list File) (total nfiles i : Z) (w w1 w2 : World) :
  forFiles env pre total nfiles i w = Ok tt w1 ->
  sendFile env file total nfiles (i + Z.of_nat (length pre)) w1 = Throw w2 ->
  forFiles env (pre ++ file :: post) total nfiles i w
  = forFiles env post total nfiles (i + Z.of_nat (length pre) + 1) (reported file w2)
  /\ In ("Failed to send " +:+ name file, "error") (toasts (reported file w2))
  /\ (healthy_from env (nsend w2) (tick w2) ->
      exists w3,
        forFiles env (pre ++ file :: post) total nfiles i w = Ok tt w3 /\
        wire w3 = wire w2 ++ (encode <$> (post ≫= framesOf))).
Proof.
  intros Epre Efile.
  assert (Eq : forFiles env (pre ++ file :: post) total nfiles i w
               = forFiles env post total nfiles (i + Z.of_nat (length pre) + 1)
                   (reported file w2)).
  { rewrite (forFiles_app _ _ _ _ _ _ _ _ Epre). cbn [forFiles].
    unfold mbind at 1, M_bind at 1, try_catch. rewrite Efile. reflexivity. }
  split; [exact Eq|]. split.
  { unfold reported, addToast. cbn [toasts]. apply in_or_app. right. now left. }
  intros Hh. rewrite Eq.
  destruct (completes_forFiles env post total nfiles (i + Z.of_nat (length pre) + 1)
              (reported file w2) Hh) as (w3 & E & S & _).
  exists w3. split; [exact E|exact S].
Qed.


(** ** The receiver *)



Section ReceiverFacts.
Variable renv : REnv.

Lemma onData_binary (r : Receiver) (data : Buffer) :
  is_binary data = true -> onData renv r data = onBinary data r.
Proof.
  unfold is_binary, kind, onData. destruct (control data) as [msg|]; [|reflexivity].
  destruct (JSON.is_str (JSON.get msg "type") "file-header"); [discriminate|].
  destruct (JSON.is_str (JSON.get msg "type") "file-end"); [discriminate|reflexivity].
Qed.

Lemma onData_header (r : Receiver) (file : File) :
  header_small file = true ->
  onData renv r (encode (Header file)) = onHeader renv (header file) r.
Proof. intros H. unfold onData. rewrite (control_header _ H). reflexivity. Qed.

Lemma onData_end (r : Receiver) : onData renv r (encode EndMarker) = onEnd r.
Proof. unfold onData. rewrite control_end. reflexivity. Qed.

Lemma header_opens (r : Receiver) (file : File) :
  closed r -> receiving file [] (onHeader renv (header file) r)
              /\ downloads (onHeader renv (header file) r) = downloads r.
Proof.
  destruct r as [meta wr ch fs rb cr dl lg]. intros [Hm Hw]. cbn in Hm, Hw. subst.
  unfold onHeader, receiving, pending, sink_name.
  destruct (isIOS renv); cbn; [auto|].
  destruct (streamSaver_supported renv); cbn; [|auto].
  destruct (createWriteStream_throws renv cr); cbn; auto.
Qed.

Lemma binary_appends (r : Receiver) (file : File) (got : list byte) (data : Buffer) :
  receiving file got r ->
  receiving file (got ++ data) (onBinary data r)
  /\ downloads (onBinary data r) = downloads r.
Proof.
  destruct r as [meta [wr|] ch fs rb cr dl lg];
    unfold receiving, onBinary, pending, sink_name; cbn;
    intros (-> & Hn & <-); cbn.
  - auto.
  - rewrite concat_app. cbn. rewrite app_nil_r. auto.
Qed.

Lemma end_saves (r : Receiver) (file : File) (got : list byte) :
  receiving file got r ->
  closed (onEnd r)
  /\ downloads (onEnd r)
     = downloads r ++ [{| filename := Some (JSON.JStr (name file)); bytes := got |}].
Proof.
  destruct r as [meta [wr|] ch fs rb cr dl lg];
    unfold receiving, onEnd, closed, pending, sink_name; cbn;
    intros (-> & Hn & <-); cbn.
  - rewrite Hn. auto.
  - auto.
Qed.

Lemma receive_chunks (cs : list Buffer) (file : File) (got : list byte) (r : Receiver) :
  forallb is_binary cs = true ->
  receiving file got r ->
  receiving file (got ++ concat cs) (receive renv cs r)
  /\ downloads (receive renv cs r) = downloads r.
Proof.
  revert got r. induction cs as [|c cs IH]; intros got r Hb Hr.
  - cbn. rewrite app_nil_r. auto.
  - cbn [forallb] in Hb. apply andb_true_iff in Hb as [Hc Hcs].
    cbn [receive fold_left]. rewrite (onData_binary _ _ Hc).
    destruct (binary_appends r file got c Hr) as [Hr' Hd].
    destruct (IH _ _ Hcs Hr') as [Hr'' Hd'].
    change (fold_left (onData renv) cs (onBinary c r)) with (receive renv cs (onBinary c r)).
    cbn [concat]. rewrite app_assoc. split; [exact Hr''|congruence].
Qed.

Lemma receive_app (a b : list Buffer) (r : Receiver) :
  receive renv (a ++ b) r = receive renv b (receive renv a r).
Proof. apply fold_left_app. Qed.

Lemma receive_file (file : File) (r : Receiver) :
  header_small file = true -> chunks_binary file = true ->
  closed r ->
  closed (receive renv (encode <$> framesOf file) r)
  /\ downloads (receive renv (encode <$> framesOf file) r)
     = downloads r ++ [downloadOf file].
Proof.
  intros Hh Hb Hc. unfold framesOf.
  rewrite fmap_cons, fmap_app, <- list_fmap_compose.
  change (encode ∘ DataChunk) with (@id Buffer). rewrite list_fmap_id.
  cbn [receive fold_left]. rewrite (onData_header _ _ Hh).
  change (fold_left (onData renv) ?l ?x) with (receive renv l x).
  rewrite receive_app.
  destruct (header_opens r file Hc) as [H1 D1].
  destruct (receive_chunks (chunksOf file) file [] _ Hb H1) as [H2 D2].
  cbn [app] in H2. rewrite chunksOf_concat in H2.
  cbn [fmap list_fmap receive fold_left]. rewrite onData_end.
  destruct (end_saves _ file _ H2) as [H3 D3].
  split; [exact H3|]. rewrite D3, D2, D1. reflexivity.
Qed.

Lemma receive_files (files : list File) (r : Receiver) :
  Forall (fun file => header_small file = true /\ chunks_binary file = true) files ->
  closed r ->
  closed (receive renv (encode <$> (files ≫= framesOf)) r)
  /\ downloads (receive renv (encode <$> (files ≫= framesOf)) r)
     = downloads r ++ (downloadOf <$> files).
Proof.
  intros Hf. revert r. induction Hf as [|file files [Hh Hb] _ IH]; intros r Hc.
  - cbn. rewrite app_nil_r. auto.
  - change ((file :: files) ≫= framesOf) with (framesOf file ++ files ≫= framesOf).
    rewrite fmap_app, receive_app.
    destruct (receive_file file r Hh Hb Hc) as [H1 D1].
    destruct (IH _ H1) as [H2 D2].
    split; [exact H2|]. rewrite D2, D1, <- app_assoc. reflexivity.
Qed.

End ReceiverFacts.

Lemma closed_setup : closed setupReceiverEvents.
Proof. split; reflexivity. Qed.

(** C1, as amended.  For every list of files whose Header frames are
    shorter than 1000 bytes and none of whose chunks the receiver takes for
    a header or an end marker, the frames that [sendFiles] puts on a
    healthy channel, fed to the data handler in order, leave downloads with
    the same names, the same bytes and the same order as the files,
    whichever sink the browser offers. *)
Theorem transfer_roundtrip (env : Env) (renv : REnv) (files : list File) (w : World) :
  healthy_from env (nsend w) (tick w) ->
  sent w = [] ->
  Forall (fun file => header_small file = true /\ chunks_binary file = true) files ->
  exists w', sendFiles env files w = Ok tt w' /\
             downloads (receive renv (wire w') setupReceiverEvents)
             = downloadOf <$> files.
Proof.
  intros Hw Hs Hf.
  destruct (sendFiles_completes env files w Hw) as (w' & E & S & _).
  exists w'. split; [exact E|]. rewrite S. unfold wire at 1. rewrite Hs. cbn [fmap list_fmap app].
  destruct (receive_files renv files setupReceiverEvents Hf closed_setup) as [_ D].
  exact D.
Qed.

(** C10.  A frame that is not taken for a header or an end marker and
    arrives while no file is open leaves the receiver as it was: nothing
    is written, no chunk is kept, [receivedBytes] does not change. *)
Theorem binary_without_file_is_dropped (renv : REnv) (r : Receiver) (data : Buffer) :
  currentFileMeta r = None -> is_binary data = true -> onData renv r data = r.
Proof.
  intros Hm Hb. rewrite (onData_binary _ _ _ Hb). unfold onBinary. now rewrite Hm.
Qed.


Lemma healthy_steady (n t : nat) : healthy_from steady n t.
Proof.
  split; [|split].
  - reflexivity.
  - reflexivity.
  - intros t' b _. exists 1%nat. split; [reflexivity|reflexivity].
Defined.

(** C5, as amended.  An EndMarker that arrives while a file is open closes
    the writer or hands the chunks kept so far to the browser, under the
    name of the file, announces the file as received and clears the
    current file.  [receivedBytes] is left as it is and is compared with
    nothing: the outcome is the same for every count and every declared
    size. *)
Theorem end_marker_saves_unchecked (renv : REnv) (r : Receiver) (meta : JSON.json) :
  currentFileMeta r = Some meta ->
  let r' := onData renv r (encode EndMarker) in
  currentFileMeta r' = None /\ writable r' = None /\
  downloads r' = downloads r ++ [{| filename := sink_name r; bytes := pending r |}] /\
  rlog r' = rlog r ++ [Log_FileReceived (JSON.get meta "name");
                       Toast_Received (JSON.get meta "name")] /\
  receivedBytes r' = receivedBytes r.
Proof.
  intros Hm r'. subst r'. rewrite onData_end.
  destruct r as [m [wr|] ch fs rb cr dl lg]; cbn in Hm; subst m;
    unfold onEnd, sink_name, pending; cbn; rewrite <- app_assoc; auto.
Qed.

(** C5 as stated fails.  Were a mismatch reported, the lines logged for an
    EndMarker would differ from those of a complete file; with 3 bytes
    received of the 5 declared they are the same two lines. *)
Lemma end_marker_ignores_size :
  ~ (forall renv r meta sz,
       currentFileMeta r = Some meta ->
       JSON.get meta "size" = Some (JSON.JNum sz 0) ->
       receivedBytes r <> sz ->
       rlog (onData renv r (encode EndMarker))
       <> rlog r ++ [Log_FileReceived (JSON.get meta "name");
                     Toast_Received (JSON.get meta "name")]).
Proof.
  intros H.
  apply (H phone three_of_five (header hello) 5%Z); [reflexivity|reflexivity| |reflexivity].
  vm_compute. discriminate.
Qed.

(** C6, as amended.  A Header is handled in the same way whether or not a
    file is open: it becomes the current file, [receivedBytes] goes back
    to 0, nothing is downloaded for the file that was open, and the log
    gets the usual line for a new file and no other (but for a failure of
    the stream saver).  With a new stream the open writer is replaced;
    otherwise the chunks kept so far are dropped. *)
Theorem header_replaces_open_file (renv : REnv) (r : Receiver) (file : File) :
  header_small file = true ->
  let r' := onData renv r (encode (Header file)) in
  let line := Log_Receiving (Some (JSON.JStr (name file))) in
  currentFileMeta r' = Some (header file) /\ receivedBytes r' = 0%Z /\
  downloads r' = downloads r /\
  if negb (isIOS renv) && streamSaver_supported renv
     && negb (createWriteStream_throws renv (created r))
  then writable r' = Some {| wr_name := Some (JSON.JStr (name file));
                             wr_size := Some (JSON.JNum (size file) 0);
                             wr_written := [] |}
       /\ rlog r' = rlog r ++ [line]
  else writable r' = writable r /\ chunks r' = [] /\
       (rlog r' = rlog r ++ [line] \/
        rlog r' = rlog r ++ [line; Log_StreamSaverFailed]).
Proof.
  intros Hh r' line. subst r' line. rewrite (onData_header _ _ _ Hh).
  destruct r as [m wr ch fs rb cr dl lg]. unfold onHeader.
  destruct (isIOS renv); cbn; [auto 10|].
  destruct (streamSaver_supported renv); cbn; [|auto 10].
  destruct (createWriteStream_throws renv cr); cbn; [|auto 10].
  rewrite <- app_assoc. auto 10.
Qed.

(** C6 as stated fails.  Were an overlapping Header rejected, the file in
    flight would stay as it is; the header of [notes] arriving in the middle of
    [hello] takes its place. *)
Lemma overlapping_header_overwrites :
  ~ (forall renv r file,
       header_small file = true -> currentFileMeta r <> None ->
       currentFileMeta (onData renv r (encode (Header file))) = currentFileMeta r
       /\ pending (onData renv r (encode (Header file))) = pending r).
Proof.
  intros H.
  destruct (H phone three_of_five notes) as [H1 _]; [reflexivity|discriminate|].
  vm_compute in H1. discriminate H1.
Qed.

(** C1 as stated fails.  The only chunk of [tricky] reads as an end marker:
    the receiver saves the file empty and drops the rest. *)
Lemma roundtrip_loses_control_like_file :
  ~ (forall env renv files w',
       healthy env ->
       sendFiles env files idle = Ok tt w' ->
       downloads (receive renv (wire w') setupReceiverEvents) = downloadOf <$> files).
Proof.
  intros H.
  assert (E : sendFiles steady [tricky] idle
              = Ok tt (final (sendFiles steady [tricky] idle)))
    by (vm_compute; reflexivity).
  specialize (H steady phone [tricky] _ (healthy_steady 0 0) E).
  vm_compute in H. discriminate H.
Qed.

(** The bound on the Header is needed as well: the header of [deep] is
    taken for data, and nothing of the file is saved. *)
Lemma roundtrip_loses_long_header :
  header_small deep = false /\
  chunks_binary deep = true /\
  downloads (receive phone (wire (final (sendFiles steady [deep] idle)))
               setupReceiverEvents) = [].
Proof. vm_compute. repeat split. Qed.

(** Witnesses *)

Lemma transfer_roundtrip_witness :
  exists w', sendFiles steady [hello; notes] idle = Ok tt w' /\
             downloads (receive desktop (wire w') setupReceiverEvents)
             = downloadOf <$> [hello; notes].
Proof.
  apply (transfer_roundtrip steady desktop [hello; notes] idle).
  - apply healthy_steady.
  - reflexivity.
  - repeat constructor.
Defined.


Lemma binary_without_file_is_dropped_witness :
  onData desktop setupReceiverEvents (Buffer_from "hello") = setupReceiverEvents.
Proof.
  apply (binary_without_file_is_dropped desktop setupReceiverEvents (Buffer_from "hello")).
  - reflexivity.
  - reflexivity.
Defined.

Lemma end_marker_saves_unchecked_witness :
  downloads (onData phone three_of_five (encode EndMarker))
  = [{| filename := Some (JSON.JStr "a.txt"); bytes := Buffer_from "hel" |}].
Proof.
  pose proof (end_marker_saves_unchecked phone three_of_five (header hello) eq_refl) as H.
  cbv zeta in H. destruct H as (_ & _ & H & _). rewrite H. reflexivity.
Defined.

Lemma header_replaces_open_file_witness :
  currentFileMeta (onData phone three_of_five (encode (Header notes)))
  = Some (header notes).
Proof.
  pose proof (header_replaces_open_file phone three_of_five notes eq_refl) as H.
  cbv zeta in H. exact (proj1 H).
Defined.

Lemma error_aborts_one_file_witness :
  forFiles one_error [] 10 2 0 idle = Ok tt idle /\
  sendFile one_error hello 10 2 (0 + Z.of_nat (length (@nil File))) idle
  = Throw (final (sendFile one_error hello 10 2 0 idle)) /\
  exists w3,
    forFiles one_error ([] ++ hello :: [notes]) 10 2 0 idle = Ok tt w3 /\
    wire w3 = wire (final (sendFile one_error hello 10 2 0 idle))
              ++ (encode <$> ([notes] ≫= framesOf)).
Proof.
  split; [reflexivity|]. split; [reflexivity|].
  destruct (error_aborts_one_file one_error [] hello [notes] 10 2 0 idle idle
              (final (sendFile one_error hello 10 2 0 idle)) eq_refl eq_refl)
    as (_ & _ & H).
  apply H. split; [|split].
  - intros k Hk. change (2 <= k) in Hk. destruct k as [|[|k]]; [lia|lia|reflexivity].
  - reflexivity.
  - intros t' b _. exists 1%nat. split; reflexivity.
Defined.

(** ** The relay *)

Section Relay.
Import Server.



Lemma consistent_init : consistent init.
Proof.
  split; cbn.
  - intros k u H. by rewrite lookup_empty in H.
  - intros k [u H]. by rewrite lookup_empty in H.
  - set_solver.
Qed.

Lemma consistent_step (st : State) (sid : string) (ev : Event) :
  consistent st -> possible st sid ev = true -> consistent (step st sid ev).1.
Proof.
  intros [I1 I2 I3] Hp. destruct ev; cbn [step fst possible] in *.
  - apply andb_true_iff in Hp as [H1 H2].
    apply bool_decide_eq_true in H1, H2.
    split; cbn; [exact I1| |].
    + intros k Hk. apply I2 in Hk. set_solver.
    + set_solver.
  - apply bool_decide_eq_true in Hp.
    split; cbn; [| |exact I3].
    + intros k u. destruct (decide (sid = k)) as [->|Hne].
      * rewrite lookup_insert_eq. intros [= <-]. reflexivity.
      * rewrite lookup_insert_ne by done. apply I1.
    + intros k. destruct (decide (sid = k)) as [->|Hne]; [done|].
      rewrite lookup_insert_ne by done. apply I2.
  - by split.
  - by split.
  - by split.
  - apply bool_decide_eq_true in Hp.
    destruct (users st !! sid) as [u|] eqn:Hu; cbn.
    + split; cbn.
      * intros k v. destruct (decide (sid = k)) as [->|Hne].
        -- by rewrite lookup_delete_eq.
        -- rewrite lookup_delete_ne by done. apply I1.
      * intros k. destruct (decide (sid = k)) as [->|Hne].
        -- rewrite lookup_delete_eq. by intros [? ?].
        -- rewrite lookup_delete_ne by done. intros Hk. apply I2 in Hk. set_solver.
      * set_solver.
    + split; cbn; [exact I1| |set_solver].
      intros k Hk. assert (k ≠ sid) by (intros ->; rewrite Hu in Hk; by destruct Hk).
      apply I2 in Hk. set_solver.
Qed.

Lemma consistent_run (trace : list (string * Event)) (st st' : State) :
  consistent st -> run st trace = Some st' -> consistent st'.
Proof.
  revert st. induction trace as [|[sid ev] trace IH]; intros st Hc Hr; cbn in Hr.
  - by injection Hr as <-.
  - destruct (possible st sid ev) eqn:Hp; [|discriminate].
    eapply IH; [|exact Hr]. by apply consistent_step.
Qed.

Lemma filter_is (l : list string) (x : string) (P : string -> Prop)
    `{forall y, Decision (P y)} :
  NoDup l -> x ∈ l -> (forall y, P y <-> y = x) -> filter P l = [x].
Proof.
  intros Hnd Hx HP. induction Hnd as [|y l Hy Hnd IH]; [by apply elem_of_nil in Hx|].
  apply elem_of_cons in Hx as [<-|Hx].
  - rewrite filter_cons_True by (by apply HP). f_equal.
    clear IH. induction l as [|z l IHl]; [done|].
    rewrite filter_cons_False.
    + apply IHl; [set_solver|by inversion Hnd].
    + rewrite HP. intros ->. set_solver.
  - rewrite filter_cons_False; [by apply IH|].
    rewrite HP. intros ->. done.
Qed.

Lemma filter_none (l : list string) (P : string -> Prop) `{forall y, Decision (P y)} :
  (forall y, y ∈ l -> ¬ P y) -> filter P l = [].
Proof.
  induction l as [|y l IH]; intros HP; [done|].
  rewrite filter_cons_False by (apply HP; set_solver). apply IH. set_solver.
Qed.

Lemma filter_all {A} (l : list A) (P : A -> Prop) `{forall y, Decision (P y)} :
  (forall y, y ∈ l -> P y) -> filter P l = l.
Proof.
  induction l as [|y l IH]; intros HP; [done|].
  rewrite filter_cons_True by (apply HP; set_solver). f_equal. apply IH. set_solver.
Qed.

Lemma io_to_connected (st : State) (to : string) (m : Message) :
  to ∈ sockets st -> to ≠ MAIN_LOBBY -> io_to st to m = [(to, m)].
Proof.
  intros Hin Hne. unfold io_to.
  rewrite (filter_is _ to); [done|apply NoDup_elements|by apply elem_of_elements|].
  intros y. unfold in_room. rewrite orb_true_iff, !bool_decide_eq_true. naive_solver.
Qed.

Lemma io_to_nobody (st : State) (to : string) (m : Message) :
  to ∉ sockets st -> to ≠ MAIN_LOBBY -> io_to st to m = [].
Proof.
  intros Hin Hne. unfold io_to. rewrite filter_none; [done|].
  intros y Hy. unfold in_room. rewrite orb_true_iff, !bool_decide_eq_true.
  apply elem_of_elements in Hy. naive_solver.
Qed.

Lemma io_to_lobby (st : State) (m : Message) :
  io_to st MAIN_LOBBY m = (fun s => (s, m)) <$> elements (sockets st).
Proof.
  unfold io_to. rewrite filter_all; [done|].
  intros y _. unfold in_room. rewrite orb_true_iff, !bool_decide_eq_true. by right.
Qed.

Lemma to_one (l : list string) (p : string) (m : Message) :
  NoDup l -> p ∈ l ->
  filter (fun e : Emission => e.1 = p) ((fun s => (s, m)) <$> l) = [(p, m)].
Proof.
  intros Hnd Hp. induction Hnd as [|y l Hy Hnd IH]; [by apply elem_of_nil in Hp|].
  cbn [fmap list_fmap]. apply elem_of_cons in Hp as [<-|Hp].
  - rewrite filter_cons_True by done. f_equal.
    clear IH. induction l as [|z l IHl]; [done|]. cbn [fmap list_fmap].
    rewrite filter_cons_False; [|cbn; intros ->; set_solver].
    apply IHl; [set_solver|by inversion Hnd].
  - rewrite filter_cons_False; [by apply IH|]. cbn. intros ->. done.
Qed.

Lemma others_count (m : gmap string User) (p : string) (u : User) :
  (forall k v, m !! k = Some v -> id v = k) ->
  m !! p = Some u ->
  length (onUsers p (map_to_list m).*2) = base.size m - 1.
Proof.
  intros Hid Hp. unfold onUsers.
  rewrite <- (map_to_list_delete m p u Hp). cbn [fmap list_fmap snd].
  rewrite filter_cons_False by (intros Hne; apply Hne; by apply Hid).
  rewrite filter_all.
  - rewrite length_fmap, length_map_to_list, map_size_delete_Some by done.
    lia.
  - intros v Hv. apply list_elem_of_fmap in Hv as ([k v'] & -> & Hkv). cbn.
    apply elem_of_map_to_list in Hkv.
    destruct (decide (k = p)) as [->|Hne]; [by rewrite lookup_delete_eq in Hkv|].
    rewrite lookup_delete_ne in Hkv by done. by rewrite (Hid _ _ Hkv).
Qed.

Lemma registry_list (m : gmap string User) (u : User) :
  (forall k v, m !! k = Some v -> id v = k) ->
  u ∈ (map_to_list m).*2 <-> m !! id u = Some u.
Proof.
  intros Hid. split.
  - intros Hu. apply list_elem_of_fmap in Hu as [[k v] [-> Hkv]].
    apply elem_of_map_to_list in Hkv. cbn. by rewrite (Hid _ _ Hkv).
  - intros Hu. apply list_elem_of_fmap. exists (id u, u). split; [done|].
    by apply elem_of_map_to_list.
Qed.

(** C3, as amended.  After any run of the relay with N registered peers, a
    broadcast puts one message on the connection of each registered peer,
    and its list is the whole registry: N entries, the peer's own among
    them.  It is the handler of the peer that drops the entry with the id
    of the peer, so that the list the peer keeps holds the other N-1
    registered users and no entry with its own id. *)
Theorem kept_list_excludes_self (trace : list (string * Event)) (st : State) (p : string) :
  run init trace = Some st ->
  is_Some (users st !! p) ->
  exists userList,
    filter (fun e : Emission => e.1 = p) (broadcastUsers st) = [(p, users_list userList)] /\
    length userList = base.size (users st) /\
    (forall u, u ∈ userList <-> users st !! id u = Some u) /\
    (exists own, own ∈ userList /\ id own = p) /\
    length (onUsers p userList) = base.size (users st) - 1 /\
    (forall u, u ∈ onUsers p userList <-> users st !! id u = Some u /\ id u ≠ p).
Proof.
  intros Hr [u Hu]. pose proof (consistent_run _ _ _ consistent_init Hr) as [I1 I2 I3].
  exists ((map_to_list (users st)).*2). split; [|split; [|split; [|split; [|split]]]].
  - unfold broadcastUsers. rewrite io_to_lobby. apply to_one.
    + apply NoDup_elements.
    + apply elem_of_elements, I2. by exists u.
  - by rewrite length_fmap, length_map_to_list.
  - intros v. by apply registry_list.
  - exists u. split; [|by apply I1]. apply registry_list; [exact I1|].
    by rewrite (I1 _ _ Hu).
  - by apply (others_count _ _ u).
  - intros v. unfold onUsers. rewrite list_elem_of_filter, (registry_list _ _ I1).
    tauto.
Qed.

(** C3 as stated fails.  With Ann and one more user registered, the list
    that the relay sends to Ann has two entries, and one of them is hers. *)
Lemma broadcast_includes_self :
  ~ (forall trace st p,
       run init trace = Some st ->
       is_Some (users st !! p) ->
       exists userList,
         filter (fun e : Emission => e.1 = p) (broadcastUsers st)
         = [(p, users_list userList)] /\
         length userList = base.size (users st) - 1 /\
         Forall (fun u => id u ≠ p) userList).
Proof.
  intros H.
  assert (H1 : run init lobby_trace = Some (after lobby_trace)) by (vm_compute; reflexivity).
  assert (H2 : is_Some (users (after lobby_trace) !! "a1")).
  { eexists. vm_compute. reflexivity. }
  destruct (H lobby_trace (after lobby_trace) "a1" H1 H2) as (userList & E & L & _).
  assert (S : base.size (users (after lobby_trace)) = 2) by (vm_compute; reflexivity).
  assert (F : exists a b, filter (fun e : Emission => e.1 = "a1")
                            (broadcastUsers (after lobby_trace))
                          = [("a1", users_list [a; b])]).
  { eexists _, _. vm_compute. reflexivity. }
  destruct F as (a & b & F). rewrite F in E. injection E as <-.
  rewrite S in L. discriminate L.
Qed.

(** C4, as amended.  After any run of the relay, a signal or a request for
    a registered destination is emitted once, to that destination, with
    the signal, the sender's [from] and the fields of the request as they
    came (the request also gets the registered name of [from]); for a
    destination that is neither a connected socket nor the lobby nothing
    is emitted.  The registry is not consulted for delivery. *)
Theorem relay_forwards_to_connected (trace : list (string * Event)) (st : State)
    (sid to from : string) (sig fileCount totalSize totalBytes : JSON.json) :
  run init trace = Some st ->
  (is_Some (users st !! to) ->
     step st sid (on_signal to sig from) = (st, [(to, signal sig from)]) /\
     step st sid (on_batch_request from to fileCount totalSize totalBytes)
     = (st, [(to, batch_request from (name_of (users st !! from) "Unknown")
                                 fileCount totalSize totalBytes)])) /\
  (to ∉ sockets st -> to ≠ MAIN_LOBBY ->
     step st sid (on_signal to sig from) = (st, []) /\
     step st sid (on_batch_request from to fileCount totalSize totalBytes) = (st, [])).
Proof.
  intros Hr. pose proof (consistent_run _ _ _ consistent_init Hr) as [I1 I2 I3].
  split.
  - intros Hto. apply I2 in Hto.
    assert (to ≠ MAIN_LOBBY) by (intros ->; done).
    cbn [step]. by rewrite !io_to_connected.
  - intros Hto Hne. cbn [step]. by rewrite !io_to_nobody.
Qed.

(** C4 as stated fails.  A socket that is connected but has not joined is
    not in the registry, and a signal addressed to it is delivered all the
    same. *)
Lemma unjoined_socket_still_receives :
  ~ (forall trace st sid to sig from,
       run init trace = Some st ->
       users st !! to = None ->
       (step st sid (on_signal to sig from)).2 = []).
Proof.
  intros H.
  specialize (H early_trace (after early_trace) "a1" "b1" JSON.JNull "a1" eq_refl eq_refl).
  vm_compute in H. discriminate H.
Qed.

Lemma kept_list_excludes_self_witness :
  run init lobby_trace = Some (after lobby_trace) /\
  is_Some (users (after lobby_trace) !! "a1") /\
  exists userList,
    filter (fun e : Emission => e.1 = "a1") (broadcastUsers (after lobby_trace))
    = [("a1", users_list userList)] /\
    length userList = base.size (users (after lobby_trace)) /\
    (forall u, u ∈ userList <-> users (after lobby_trace) !! id u = Some u) /\
    (exists own, own ∈ userList /\ id own = "a1") /\
    length (onUsers "a1" userList) = base.size (users (after lobby_trace)) - 1 /\
    (forall u, u ∈ onUsers "a1" userList
               <-> users (after lobby_trace) !! id u = Some u /\ id u ≠ "a1").
Proof.
  assert (H1 : run init lobby_trace = Some (after lobby_trace)) by reflexivity.
  assert (H2 : is_Some (users (after lobby_trace) !! "a1")).
  { eexists. vm_compute. reflexivity. }
  split; [exact H1|]. split; [exact H2|].
  exact (kept_list_excludes_self lobby_trace (after lobby_trace) "a1" H1 H2).
Defined.

Lemma relay_forwards_to_connected_witness :
  run init lobby_trace = Some (after lobby_trace) /\
  is_Some (users (after lobby_trace) !! "b1") /\
  step (after lobby_trace) "a1" (on_signal "b1" JSON.JNull "a1")
  = (after lobby_trace, [("b1", signal JSON.JNull "a1")]) /\
  ("zz" ∉ sockets (after lobby_trace)) /\
  step (after lobby_trace) "a1" (on_signal "zz" JSON.JNull "a1")
  = (after lobby_trace, []).
Proof.
  assert (H1 : run init lobby_trace = Some (after lobby_trace)) by reflexivity.
  assert (H2 : is_Some (users (after lobby_trace) !! "b1")).
  { eexists. vm_compute. reflexivity. }
  assert (H3 : "zz" ∉ sockets (after lobby_trace)).
  { apply (proj1 (bool_decide_eq_false _)). vm_compute. reflexivity. }
  split; [exact H1|]. split; [exact H2|].
  split; [|split; [exact H3|]].
  - exact (proj1 (proj1 (relay_forwards_to_connected lobby_trace (after lobby_trace)
                    "a1" "b1" "a1" JSON.JNull JSON.JNull JSON.JNull JSON.JNull H1) H2)).
  - refine (proj1 (proj2 (relay_forwards_to_connected lobby_trace (after lobby_trace)
                    "a1" "zz" "a1" JSON.JNull JSON.JNull JSON.JNull JSON.JNull H1) H3 _)).
    discriminate.
Defined.


End Relay.

(** ** Progress *)

Lemma div_zero_l (y : Double.number) :
  Double.ltb Double.zero y = true -> Double.div Double.zero y = Double.zero.
Proof.
  destruct y as [s|s| |s m e]; try discriminate; destruct s; try discriminate; reflexivity.
Qed.

Lemma formatTime_zero : formatTime Double.zero = "0m 0s".
Proof. vm_compute. reflexivity. Qed.

Lemma eta_zero_rate (now total processed : Z) (p : Progress) :
  Double.ltb Double.zero (speedBytesPerSec now processed p) = false ->
  formatTime (etaSeconds now total processed p) = "0m 0s".
Proof. intros H. unfold etaSeconds. rewrite H. exact formatTime_zero. Qed.

Lemma eta_complete (now total : Z) (p : Progress) :
  formatTime (etaSeconds now total total p) = "0m 0s".
Proof.
  unfold etaSeconds.
  destruct (Double.ltb Double.zero (speedBytesPerSec now total p)) eqn:E;
    [|exact formatTime_zero].
  rewrite Z.sub_diag. change (Double.of_Z 0) with Double.zero.
  rewrite (div_zero_l _ E). exact formatTime_zero.
Qed.

Lemma timeDiff_same (now : Z) (p : Progress) :
  now = lastTimeRef p -> timeDiff now p = Double.zero.
Proof. intros ->. unfold timeDiff. rewrite Z.sub_diag. reflexivity. Qed.

(** C9, as amended.  A sample at no distance in time from the last one is
    dropped.  A sample at least a second after it, or one that completes
    the transfer, becomes the last sample; the rate shown is
    (processed - last bytes) / elapsed when time has advanced, and the ETA
    shown is (total - processed) / rate for a positive rate and [0m 0s]
    otherwise, also at completion.  Any other sample leaves rate, ETA and
    the last sample alone and updates the counts and the file name.  The
    quotients are those of the doubles, each rounded to the nearest. *)
Theorem progress_estimate (now total processed nfiles done : Z) (current : string)
    (p : Progress) :
  let p' := updateStats now total processed current nfiles done p in
  let elapsed := timeDiff now p in
  let rate := speedBytesPerSec now processed p in
  (now = lastTimeRef p \/ Double.eqb elapsed Double.zero = true -> p' = p) /\
  (Double.eqb elapsed Double.zero = false ->
   Double.leb Double.one elapsed = true \/ processed = total ->
     lastBytesRef p' = processed /\ lastTimeRef p' = now /\
     speed (stats p') = speedMB rate +:+ " MB/s" /\
     (Double.ltb Double.zero elapsed = true ->
        rate = Double.div (Double.of_Z (processed - lastBytesRef p)) elapsed) /\
     (Double.ltb Double.zero rate = true ->
        eta (stats p')
        = formatTime (Double.div (Double.of_Z (total - processed)) rate)) /\
     (Double.ltb Double.zero rate = false -> eta (stats p') = "0m 0s") /\
     (processed = total -> eta (stats p') = "0m 0s")) /\
  (Double.eqb elapsed Double.zero = false ->
   Double.leb Double.one elapsed = false -> processed <> total ->
     lastBytesRef p' = lastBytesRef p /\ lastTimeRef p' = lastTimeRef p /\
     speed (stats p') = speed (stats p) /\ eta (stats p') = eta (stats p) /\
     totalFiles (stats p') = totalFiles (stats p) /\
     totalBytes (stats p') = totalBytes (stats p) /\
     processedFiles (stats p') = done /\
     processedBytes (stats p') = processed /\
     currentFile (stats p') = current).
Proof.
  intros p' elapsed rate. subst p'. unfold updateStats. fold elapsed.
  split.
  { intros [H|H].
    - subst elapsed. rewrite (timeDiff_same _ _ H). reflexivity.
    - rewrite H. reflexivity. }
  destruct (Double.eqb elapsed Double.zero) eqn:E0.
  { split; intros H; discriminate H. }
  destruct (Double.leb Double.one elapsed || (processed =? total)%Z) eqn:Eq.
  - split.
    + intros _ _. cbn [stats lastBytesRef lastTimeRef speed eta].
      split; [reflexivity|]. split; [reflexivity|]. split; [reflexivity|].
      split; [|split; [|split]].
      * intros Hpos. subst rate. unfold speedBytesPerSec. fold elapsed.
        rewrite Hpos. reflexivity.
      * intros Hpos. unfold etaSeconds. fold rate. rewrite Hpos. reflexivity.
      * apply eta_zero_rate.
      * intros ->. apply eta_complete.
    + intros _ Hlt Hne. exfalso. apply orb_true_iff in Eq as [H|H].
      * congruence.
      * apply Z.eqb_eq in H. contradiction.
  - apply orb_false_iff in Eq as [H1 H2]. split.
    + intros _ [H|H]; exfalso.
      * congruence.
      * apply Z.eqb_eq in H. congruence.
    + intros _ _ _. cbn. repeat split.
Qed.

(** C9 as stated fails.  The sample that completes a transfer shows the
    ETA [0m 0s], not the label for an unknown one. *)
Lemma eta_at_completion_is_zero :
  ~ (forall now total processed nfiles done current p,
       Double.eqb (timeDiff now p) Double.zero = false -> processed = total ->
       eta (stats (updateStats now total processed current nfiles done p)) = "--:--").
Proof.
  intros H. specialize (H 1000%Z 100%Z 100%Z 1%Z 0%Z "a.txt" sample0).
  assert (E : eta (stats (updateStats 1000 100 100 "a.txt" 1 0 sample0)) = "0m 0s")
    by (vm_compute; reflexivity).
  rewrite E in H. discriminate H; reflexivity.
Qed.

Lemma progress_estimate_witness :
  lastBytesRef (updateStats 1000 100 50 "a.txt" 1 0 sample0) = 50%Z /\
  speed (stats (updateStats 1000 100 50 "a.txt" 1 0 sample0)) = "0.0 MB/s" /\
  eta (stats (updateStats 1000 100 50 "a.txt" 1 0 sample0))
  = formatTime (Double.div (Double.of_Z (100 - 50)) (speedBytesPerSec 1000 50 sample0)).
Proof.
  assert (H0 : Double.eqb (timeDiff 1000 sample0) Double.zero = false)
    by (vm_compute; reflexivity).
  assert (H1 : Double.leb Double.one (timeDiff 1000 sample0) = true)
    by (vm_compute; reflexivity).
  assert (H2 : Double.ltb Double.zero (speedBytesPerSec 1000 50 sample0) = true)
    by (vm_compute; reflexivity).
  destruct (progress_estimate 1000 100 50 1 0 "a.txt" sample0) as (_ & H & _).
  cbv zeta in H.
  destruct (H H0 (or_introl H1)) as (E1 & _ & E2 & _ & E3 & _).
  split; [exact E1|]. split; [|exact (E3 H2)].
  rewrite E2. vm_compute. reflexivity.
Defined.

(** The quotients are rounded as the doubles round them.  One byte in
    1.001 s leaves 1000.9999999999999 s for a thousand more, and 196608
    bytes in 1.25 s are 0.14999999999999999 MB/s. *)
Example eta_is_rounded_down :
  eta (stats (updateStats 1001 1001 1 "a.txt" 1 0 sample0)) = "16m 40s".
Proof. vm_compute. reflexivity. Qed.

Example speed_is_rounded_down :
  speed (stats (updateStats 1250 400000 196608 "a.txt" 1 0 sample0)) = "0.1 MB/s".
Proof. vm_compute. reflexivity. Qed.

(** * More of the code *)

(** ** The relay: registry and rooms *)

Section RelayMore.
Import Server.

Lemma consistent_reachable (trace : list (string * Event)) (st : State) :
  run init trace = Some st -> consistent st.
Proof. apply consistent_run, consistent_init. Qed.

(** X1.  After any run of the relay every entry of the registry is kept
    under the id it carries and belongs to a socket that is connected, so
    that the registry never holds more users than there are connections. *)
Theorem registry_follows_connections (trace : list (string * Event)) (st : State) :
  run init trace = Some st ->
  (forall k u, users st !! k = Some u -> id u = k /\ (k ∈ sockets st)) /\
  base.size (users st) <= base.size (sockets st).
Proof.
  intros Hr. destruct (consistent_reachable _ _ Hr) as [I1 I2 I3]. split.
  - intros k u Hk. split; [by apply I1|]. apply I2. by exists u.
  - rewrite <- size_dom. apply subseteq_size.
    intros k Hk. apply elem_of_dom in Hk. by apply I2.
Qed.

Lemma registry_follows_connections_witness :
  run init lobby_trace = Some (after lobby_trace) /\
  (forall k u, users (after lobby_trace) !! k = Some u ->
     id u = k /\ (k ∈ sockets (after lobby_trace))) /\
  base.size (users (after lobby_trace)) <= base.size (sockets (after lobby_trace)).
Proof.
  assert (H : run init lobby_trace = Some (after lobby_trace)) by (vm_compute; reflexivity).
  split; [exact H|]. exact (registry_follows_connections lobby_trace _ H).
Defined.

(** X2.  After any run of the relay a broadcast puts one and the same
    list on the connection of every connected socket, joined or not, once
    each; the list names every registered user, and no id twice. *)
Theorem broadcast_lists_each_user_once (trace : list (string * Event)) (st : State) :
  run init trace = Some st ->
  exists userList,
    (forall e, e ∈ broadcastUsers st -> e.2 = users_list userList) /\
    NoDup (broadcastUsers st).*1 /\
    (forall socket, socket ∈ (broadcastUsers st).*1 <-> socket ∈ sockets st) /\
    NoDup (id <$> userList) /\
    (forall u, u ∈ userList <-> users st !! id u = Some u).
Proof.
  intros Hr. destruct (consistent_reachable _ _ Hr) as [I1 I2 I3].
  exists (map_to_list (users st)).*2.
  assert (R : (broadcastUsers st).*1 = elements (sockets st)).
  { unfold broadcastUsers. rewrite io_to_lobby, <- list_fmap_compose.
    apply list_fmap_id. }
  assert (E : id <$> (map_to_list (users st)).*2 = (map_to_list (users st)).*1).
  { rewrite <- list_fmap_compose. apply list_fmap_ext.
    intros i [k u] Hi. cbn. apply I1.
    apply elem_of_map_to_list. eapply list_elem_of_lookup_2, Hi. }
  split; [|split; [|split; [|split]]].
  - intros e He. unfold broadcastUsers in He. rewrite io_to_lobby in He.
    by apply list_elem_of_fmap in He as [s [-> _]].
  - rewrite R. apply NoDup_elements.
  - intros socket. rewrite R. apply elem_of_elements.
  - rewrite E. apply NoDup_fst_map_to_list.
  - intros u. split.
    + intros Hu. apply list_elem_of_fmap in Hu as [[k v] [-> Hkv]].
      apply elem_of_map_to_list in Hkv. cbn. by rewrite (I1 _ _ Hkv).
    + intros Hu. apply list_elem_of_fmap. exists (id u, u). split; [done|].
      by apply elem_of_map_to_list.
Qed.

Lemma broadcast_lists_each_user_once_witness :
  run init lobby_trace = Some (after lobby_trace) /\
  exists userList,
    (forall e, e ∈ broadcastUsers (after lobby_trace) -> e.2 = users_list userList) /\
    NoDup (broadcastUsers (after lobby_trace)).*1 /\
    (forall socket, socket ∈ (broadcastUsers (after lobby_trace)).*1
                    <-> socket ∈ sockets (after lobby_trace)) /\
    NoDup (id <$> userList) /\
    (forall u, u ∈ userList <-> users (after lobby_trace) !! id u = Some u).
Proof.
  assert (H : run init lobby_trace = Some (after lobby_trace)) by (vm_compute; reflexivity).
  split; [exact H|]. exact (broadcast_lists_each_user_once lobby_trace _ H).
Defined.

(** X3.  A second join of a socket replaces its entry: the registry is
    the one that a single join with the later name gives and has as many
    entries as after the first join; a name that is not empty is kept as it
    was sent, a missing or empty one becomes [User-] followed by the first
    four characters of the id; the entries of other sockets stay. *)
Theorem rejoin_replaces (st : State) (sid : string) (n1 n2 : option string) :
  let st1 := (step st sid (join n1)).1 in
  let st2 := (step st1 sid (join n2)).1 in
  st2 = (step st sid (join n2)).1 /\
  base.size (users st2) = base.size (users st1) /\
  (forall n, n2 = Some n -> n ≠ EmptyString ->
     users st2 !! sid = Some {| id := sid; name := n |}) /\
  (n2 = None \/ n2 = Some EmptyString ->
     users st2 !! sid = Some {| id := sid; name := "User-" +:+ substring 0 4 sid |}) /\
  (forall k, k ≠ sid -> users st2 !! k = users st !! k).
Proof.
  cbn [step fst users sockets]. repeat split.
  - f_equal. apply insert_insert_eq.
  - rewrite insert_insert_eq.
    destruct (users st !! sid) as [u|] eqn:Hu.
    + rewrite !map_size_insert_Some; eauto.
    + rewrite !map_size_insert_None; eauto.
  - intros n -> Hn. rewrite lookup_insert_eq.
    destruct (String.eqb n EmptyString) eqn:E; [|done].
    apply String.eqb_eq in E. done.
  - intros [->| ->]; by rewrite lookup_insert_eq.
  - intros k Hk. by rewrite !lookup_insert_ne.
Qed.

(** X4.  After any run of the relay, the connection of a new socket,
    its join and its disconnect leave the relay in the state in which they
    found it. *)
Theorem connect_join_disconnect_restores (trace : list (string * Event)) (st : State)
    (sid : string) (n : option string) :
  run init trace = Some st ->
  possible st sid connection = true ->
  let st1 := (step st sid connection).1 in
  let st2 := (step st1 sid (join n)).1 in
  (step st2 sid disconnect).1 = st.
Proof.
  intros Hr Hp. destruct (consistent_reachable _ _ Hr) as [I1 I2 I3].
  apply andb_true_iff in Hp as [H1 _]. apply bool_decide_eq_true in H1.
  assert (Hn : users st !! sid = None).
  { destruct (users st !! sid) eqn:E; [|done]. exfalso. apply H1, I2. by rewrite E. }
  cbn [step fst users sockets]. rewrite lookup_insert_eq. cbn [fst users sockets].
  destruct st as [S U]. cbn in *. f_equal.
  - apply leibniz_equiv. set_solver.
  - rewrite delete_insert_eq. by apply delete_id.
Qed.

Lemma connect_join_disconnect_restores_witness :
  run init lobby_trace = Some (after lobby_trace) /\
  possible (after lobby_trace) "c1" connection = true /\
  (step (step (step (after lobby_trace) "c1" connection).1 "c1" (join (Some "Cy"))).1
        "c1" disconnect).1 = after lobby_trace.
Proof.
  assert (H : run init lobby_trace = Some (after lobby_trace)) by (vm_compute; reflexivity).
  assert (P : possible (after lobby_trace) "c1" connection = true) by (vm_compute; reflexivity).
  split; [exact H|]. split; [exact P|].
  exact (connect_join_disconnect_restores lobby_trace _ "c1" (Some "Cy") H P).
Defined.

(** X5.  After any run of the relay a disconnect takes the socket out
    of the connections and out of the registry and leaves the entries of
    the others.  For a socket that had not joined nothing is emitted; for
    one that had, the new list goes to sockets that stay connected, never to
    the one that left, and names no user with its id. *)
Theorem disconnect_leaves_no_trace (trace : list (string * Event)) (st : State) (sid : string) :
  run init trace = Some st ->
  possible st sid disconnect = true ->
  let st' := (step st sid disconnect).1 in
  let out := (step st sid disconnect).2 in
  (sid ∉ sockets st') /\ users st' !! sid = None /\
  (forall k, k ≠ sid -> users st' !! k = users st !! k) /\
  (users st !! sid = None -> users st' = users st /\ out = []) /\
  (is_Some (users st !! sid) ->
     out = broadcastUsers st' /\
     forall socket m, (socket, m) ∈ out ->
       (socket ∈ sockets st) /\ socket ≠ sid /\
       exists userList, m = users_list userList /\ Forall (fun u => id u ≠ sid) userList).
Proof.
  intros Hr Hp. destruct (consistent_reachable _ _ Hr) as [I1 I2 I3].
  apply bool_decide_eq_true in Hp.
  cbn [step]. destruct (users st !! sid) as [u|] eqn:Hu; cbn [fst snd users sockets].
  - split; [set_solver|]. split; [apply lookup_delete_eq|].
    split; [intros k Hk; by rewrite lookup_delete_ne|].
    split; [done|]. intros _. split; [done|].
    intros socket m Hin. unfold broadcastUsers in Hin. rewrite io_to_lobby in Hin.
    apply list_elem_of_fmap in Hin as [s [[= -> ->] Hs]]. cbn [sockets] in Hs.
    apply elem_of_elements in Hs. split; [set_solver|]. split; [set_solver|].
    eexists. split; [reflexivity|]. cbn [users].
    apply Forall_forall. intros v Hv.
    apply list_elem_of_fmap in Hv as [[k v'] [-> Hkv]].
    apply elem_of_map_to_list in Hkv. cbn.
    intros E. destruct (decide (k = sid)) as [->|Hne].
    + by rewrite lookup_delete_eq in Hkv.
    + rewrite lookup_delete_ne in Hkv by done. apply I1 in Hkv. congruence.
  - split; [set_solver|]. split; [done|]. split; [done|]. split; [done|].
    by intros [? ?].
Qed.

Lemma disconnect_leaves_no_trace_witness :
  run init lobby_trace = Some (after lobby_trace) /\
  possible (after lobby_trace) "a1" disconnect = true /\
  users (step (after lobby_trace) "a1" disconnect).1 !! "a1" = None.
Proof.
  assert (H : run init lobby_trace = Some (after lobby_trace)) by (vm_compute; reflexivity).
  assert (P : possible (after lobby_trace) "a1" disconnect = true) by (vm_compute; reflexivity).
  split; [exact H|]. split; [exact P|].
  exact (proj1 (proj2 (disconnect_leaves_no_trace lobby_trace _ "a1" H P))).
Defined.

(** X6.  A signal, a request or an answer addressed to the name of the
    lobby is put on the connection of every connected socket, whoever sent
    it. *)
Theorem lobby_address_reaches_everyone (st : State) (sid from : string)
    (sig fileCount totalSize totalBytes : JSON.json) (accepted : bool) (socket : string) :
  socket ∈ sockets st ->
  ((socket, signal sig from) ∈ (step st sid (on_signal MAIN_LOBBY sig from)).2) /\
  ((socket, batch_request from (name_of (users st !! from) "Unknown")
             fileCount totalSize totalBytes)
    ∈ (step st sid (on_batch_request from MAIN_LOBBY fileCount totalSize totalBytes)).2) /\
  ((socket, batch_answer sid accepted)
    ∈ (step st sid (on_batch_answer MAIN_LOBBY accepted)).2).
Proof.
  intros Hs. cbn [step snd]. rewrite !io_to_lobby. repeat split;
    apply list_elem_of_fmap; exists socket; (split; [done|by apply elem_of_elements]).
Qed.

Lemma lobby_address_reaches_everyone_witness :
  ("a1" ∈ sockets (after lobby_trace)) /\
  (("a1", signal JSON.JNull "a1")
    ∈ (step (after lobby_trace) "a1" (on_signal MAIN_LOBBY JSON.JNull "a1")).2).
Proof.
  assert (H : "a1" ∈ sockets (after lobby_trace)).
  { apply (proj1 (bool_decide_eq_true _)). vm_compute. reflexivity. }
  split; [exact H|].
  exact (proj1 (lobby_address_reaches_everyone (after lobby_trace) "a1" "a1"
                  JSON.JNull JSON.JNull JSON.JNull JSON.JNull true "a1" H)).
Defined.

End RelayMore.

(** ** The sender: what it reports and how many frames it sends *)

(** *** What the sender shows *)

Lemma quiet_bind {A B} (c : M A) (f : A -> M B) :
  quiet c -> (forall a, quiet (f a)) -> quiet (c ≫= f).
Proof.
  intros Hc Hf w. unfold mbind, M_bind. specialize (Hc w).
  destruct (c w) as [a w1|w1|w1]; cbn in *; [|done|done].
  by rewrite (Hf a w1).
Qed.

Lemma quiet_ret {A} (a : A) : quiet (mret a : M A).
Proof. by intros w. Qed.

Lemma quiet_modify (f : World -> World) :
  (forall w, toasts (f w) = toasts w) -> quiet (modify f).
Proof. intros H w. apply H. Qed.

Section Quiet.
Variable env : Env.

Lemma quiet_yield : quiet (yield env).
Proof. by intros w. Qed.

Lemma quiet_send (st : Site) (data : Buffer) : quiet (send env st data).
Proof. intros w. unfold send. by destruct (_ || _). Qed.

Lemma quiet_check (polls : nat) : quiet (check env polls).
Proof.
  induction polls as [|polls IH]; intros w; cbn [check].
  - by destruct (_ <? _)%Z.
  - destruct (_ <? _)%Z; [done|]. cbn [yield].
    match goal with |- context [channel env (tick ?w1)] =>
      destruct (channel env (tick w1)); [|done]
    end.
    rewrite IH. reflexivity.
Qed.

Lemma quiet_backpressure : quiet (backpressure env).
Proof. intros w. unfold backpressure. destruct (_ && _); [apply quiet_check|done]. Qed.

Lemma quiet_sendChunks (rounds : nat) (file : File) (total nfiles i offset : Z) :
  quiet (sendChunks env rounds file total nfiles i offset).
Proof.
  revert offset. induction rounds as [|rounds IH]; intros offset; cbn [sendChunks].
  - by intros w.
  - destruct (_ <? _)%Z; [|apply quiet_ret].
    apply quiet_bind; [apply quiet_yield|intros _].
    apply quiet_bind; [apply quiet_backpressure|intros _].
    apply quiet_bind; [apply quiet_send|intros _].
    apply quiet_bind; [by apply quiet_modify|intros _].
    apply quiet_bind; [by apply quiet_modify|intros _].
    apply IH.
Qed.

Lemma quiet_sendFile (file : File) (total nfiles i : Z) :
  quiet (sendFile env file total nfiles i).
Proof.
  unfold sendFile.
  apply quiet_bind; [apply quiet_send|intros _].
  apply quiet_bind; [apply quiet_yield|intros _].
  apply quiet_bind; [apply quiet_sendChunks|intros _].
  apply quiet_bind; [apply quiet_yield|intros _].
  apply quiet_send.
Qed.

Lemma forFiles_toasts (files : list File) (total nfiles i : Z) (w : World) :
  exists failed, toasts (final (forFiles env files total nfiles i w))
                 = toasts w ++ (failure <$> failed) /\ failed `sublist_of` files.
Proof.
  revert i w. induction files as [|file rest IH]; intros i w; cbn [forFiles].
  - exists []. split; [by rewrite app_nil_r|done].
  - unfold mbind, M_bind, try_catch.
    pose proof (quiet_sendFile file total nfiles i w) as Q.
    destruct (sendFile env file total nfiles i w) as [[] w1|w1|w1]; cbn in Q.
    + destruct (IH (i + 1)%Z w1) as (failed & E & S). exists failed.
      split; [by rewrite E, Q|]. by apply sublist_cons.
    + unfold modify.
      destruct (IH (i + 1)%Z (addToast ("Failed to send " +:+ name file) "error"
              (log_error ("Error sending " +:+ name file +:+ ":") w1)))
        as (failed & E & S).
      exists (file :: failed). split; [|by apply sublist_skip].
      rewrite E. cbn. rewrite Q, <- app_assoc. reflexivity.
    + cbn. exists []. split; [by rewrite app_nil_r|apply sublist_nil_l].
Qed.

End Quiet.

Lemma bind_Hang {A B} (c : M A) (f : A -> M B) (w w1 : World) :
  c w = Hang w1 -> (c ≫= f) w = Hang w1.
Proof. intros H. unfold mbind, M_bind. by rewrite H. Qed.

(** X7.  [sendFiles] never rejects.  Whenever it returns, on any
    channel, the transfer is marked as over, the selection is emptied, all
    files count as processed under [Completed!], and the toasts it has added
    are a failure toast for each file of some part of the list, in the order
    of the list, followed by [All files sent!]: success is announced also
    when files have failed. *)
Theorem sendFiles_announces_success_regardless (env : Env) (files : list File) (w : World) :
  (forall w', sendFiles env files w <> Throw w') /\
  (forall w', sendFiles env files w = Ok tt w' ->
     transferring w' = false /\ selectedFiles w' = [] /\
     processedFiles (stats (progress w')) = Z.of_nat (length files) /\
     currentFile (stats (progress w')) = "Completed!" /\
     exists failed,
       failed `sublist_of` files /\
       toasts w' = toasts w ++ (failure <$> failed) ++ [("All files sent!", "success")]).
Proof.
  unfold sendFiles. rewrite !bind_modify.
  match goal with |- context [(forFiles env files ?t ?n ?i ≫= _) ?w0] =>
    pose proof (forFiles_toasts env files t n i w0) as (failed & E & S);
    pose proof (forFiles_catches env files t n i w0) as C;
    destruct (forFiles env files t n i w0) as [[] w1|w1|w1] eqn:F
  end.
  - rewrite (bind_Ok _ _ _ _ _ F), !bind_modify. unfold modify. split; [intros w' H; discriminate H|].
    intros w' [= <-]. cbn in *. repeat split.
    exists failed. split; [done|]. rewrite E. by rewrite <- app_assoc.
  - by destruct (C w1).
  - rewrite (bind_Hang _ _ _ _ F). split; intros w' H; discriminate H.
Qed.

Lemma sendFile_dead (env : Env) (file : File) (total nfiles i : Z) (w : World) :
  dead env ->
  exists w', sendFile env file total nfiles i w = Throw w' /\
             sent w' = sent w /\ toasts w' = toasts w /\
             console_error w' = console_error w.
Proof.
  intros D. unfold sendFile, mbind, M_bind, send. rewrite (D (nsend w) (tick w)).
  eexists. split; [reflexivity|]. by cbn.
Qed.

Lemma forFiles_dead (env : Env) (files : list File) (total nfiles i : Z) (w : World) :
  dead env ->
  exists w', forFiles env files total nfiles i w = Ok tt w' /\
             sent w' = sent w /\
             toasts w' = toasts w ++ (failure <$> files).
Proof.
  intros D. revert i w. induction files as [|file rest IH]; intros i w; cbn [forFiles].
  - exists w. by rewrite app_nil_r.
  - destruct (sendFile_dead env file total nfiles i w D) as (w1 & E & S1 & T1 & _).
    match goal with |- context [(try_catch ?b ?h ≫= _) w] =>
      assert (T : try_catch b h w = Ok tt (reported file w1))
        by (unfold try_catch; rewrite E; reflexivity)
    end.
    rewrite (bind_Ok _ _ _ _ _ T).
    destruct (IH (i + 1)%Z (reported file w1)) as (w3 & E3 & S3 & T3).
    exists w3. split; [exact E3|]. split.
    + rewrite S3. cbn. exact S1.
    + rewrite T3. cbn. rewrite T1, <- app_assoc. reflexivity.
Qed.

(** X8.  When every call of [send] fails, [sendFiles] returns having
    put nothing on the channel, with one failure toast for every file, in
    the order of the list, and then announces [All files sent!]. *)
Theorem dead_channel_is_reported_as_sent (env : Env) (files : list File) (w : World) :
  dead env ->
  exists w', sendFiles env files w = Ok tt w' /\
             wire w' = wire w /\
             toasts w' = toasts w ++ (failure <$> files) ++ [("All files sent!", "success")].
Proof.
  intros D. unfold sendFiles. rewrite !bind_modify.
  match goal with |- context [(forFiles env files ?t ?n ?i ≫= _) ?w0] =>
    destruct (forFiles_dead env files t n i w0 D) as (w1 & E & S & T)
  end.
  rewrite (bind_Ok _ _ _ _ _ E), !bind_modify. eexists. split; [reflexivity|].
  unfold wire. cbn in *. rewrite S, T. split; [done|]. by rewrite <- app_assoc.
Qed.

Lemma dead_unplugged : dead unplugged.
Proof. intros k t. reflexivity. Qed.

Lemma dead_channel_is_reported_as_sent_witness :
  dead unplugged /\
  exists w', sendFiles unplugged [hello; notes] idle = Ok tt w' /\
             wire w' = wire idle /\
             toasts w' = toasts idle ++ (failure <$> [hello; notes])
                         ++ [("All files sent!", "success")].
Proof.
  split; [exact dead_unplugged|].
  exact (dead_channel_is_reported_as_sent unplugged [hello; notes] idle dead_unplugged).
Defined.

(** *** How many frames a file takes *)

Lemma slices_length (file : File) (rounds : nat) (offset : Z) :
  (0 <= offset <= size file)%Z ->
  (size file - offset < Z.of_nat rounds)%Z ->
  Z.of_nat (length (slices rounds file offset))
  = ((size file - offset + CHUNK_SIZE - 1) / CHUNK_SIZE)%Z.
Proof.
  revert offset. induction rounds as [|rounds IH]; intros offset Ho Hr.
  { lia. }
  pose proof CHUNK_SIZE_pos as Hc.
  cbn [slices]. destruct (Z.ltb_spec offset (size file)) as [Hlt|Hge].
  - pose proof (byteLength_slice file offset Ho) as Hlen.
    cbn [length]. rewrite Nat2Z.inj_succ, IH by lia. rewrite Hlen.
    destruct (Z.le_ge_cases CHUNK_SIZE (size file - offset)) as [Hm|Hm].
    + rewrite Z.min_l by lia.
      replace (size file - offset + CHUNK_SIZE - 1)%Z
        with (size file - (offset + CHUNK_SIZE) + CHUNK_SIZE - 1 + 1 * CHUNK_SIZE)%Z by lia.
      rewrite Z.div_add by lia. lia.
    + rewrite Z.min_r by lia.
      replace (size file - (offset + (size file - offset)) + CHUNK_SIZE - 1)%Z
        with (CHUNK_SIZE - 1)%Z by lia.
      rewrite Z.div_small by lia.
      change (Z.succ 0) with 1%Z.
      apply (Z.div_unique _ _ 1 (size file - offset - 1)%Z); lia.
  - replace offset with (size file) by lia.
    replace (size file - size file + CHUNK_SIZE - 1)%Z with (CHUNK_SIZE - 1)%Z by lia.
    rewrite Z.div_small by lia. reflexivity.
Qed.

Lemma framesOf_length (file : File) :
  Z.of_nat (length (framesOf file))
  = (2 + (size file + CHUNK_SIZE - 1) / CHUNK_SIZE)%Z.
Proof.
  unfold framesOf. cbn [length]. rewrite length_app, length_fmap. cbn [length].
  unfold chunksOf.
  pose proof (slices_length file (S (Z.to_nat (size file))) 0) as H.
  rewrite Z.sub_0_r in H. rewrite <- H; unfold size; lia.
Qed.

(** X9.  On a healthy channel [sendFiles] puts 2 + ceil(n / 65536) frames
    on the channel for a file of n bytes, and just the Header and the
    EndMarker exactly when the file has no content. *)
Theorem frames_per_file (env : Env) (file : File) (total nfiles i : Z) (w : World) :
  healthy_from env (nsend w) (tick w) ->
  exists w',
    sendFile env file total nfiles i w = Ok tt w' /\
    Z.of_nat (length (sent w'))
    = (Z.of_nat (length (sent w)) + 2 + (size file + CHUNK_SIZE - 1) / CHUNK_SIZE)%Z /\
    (content file = [] <-> wire w' = wire w ++ [encode (Header file); encode EndMarker]).
Proof.
  intros Hh. destruct (completes_sendFile env file total nfiles i w Hh) as (w' & E & S & _).
  exists w'. split; [exact E|].
  pose proof (framesOf_length file) as L.
  pose proof CHUNK_SIZE_pos as Hc.
  split.
  - assert (Lw : length (sent w') = length (sent w) + length (framesOf file)).
    { unfold wire in S. apply (f_equal length) in S.
      by rewrite length_app, !length_fmap in S. }
    lia.
  - rewrite S. split.
    + intros E0. f_equal. unfold framesOf, chunksOf. cbn [slices]. unfold size.
      rewrite E0. reflexivity.
    + intros E0. apply app_inv_head in E0. apply (f_equal length) in E0.
      rewrite length_fmap in E0. cbn [length] in E0.
      assert (D : ((size file + CHUNK_SIZE - 1) / CHUNK_SIZE = 0)%Z) by lia.
      apply Z.div_small_iff in D; [|lia].
      destruct (content file) as [|c cs] eqn:Ec; [reflexivity|exfalso].
      unfold size in D. rewrite Ec in D. cbn [length] in D. lia.
Qed.

Lemma frames_per_file_witness :
  exists w',
    sendFile steady hello 10 2 0 idle = Ok tt w' /\
    Z.of_nat (length (sent w')) = 3%Z.
Proof.
  destruct (frames_per_file steady hello 10 2 0 idle (healthy_steady _ _))
    as (w' & E & L & _).
  exists w'. split; [exact E|]. rewrite L. vm_compute. reflexivity.
Defined.

(** *** Which chunks can be misread *)

Lemma long_is_binary (data : Buffer) :
  (1000 <= byteLength data)%Z -> is_binary data = true.
Proof.
  intros H. unfold is_binary, kind, control.
  rewrite (proj2 (Z.ltb_ge _ _)) by lia. reflexivity.
Qed.

Lemma slices_long (file : File) (rounds : nat) (offset : Z) :
  (size file mod CHUNK_SIZE = 0 \/ 1000 <= size file mod CHUNK_SIZE)%Z ->
  (0 <= offset <= size file)%Z ->
  (offset mod CHUNK_SIZE = 0 \/ offset = size file)%Z ->
  forallb is_binary (slices rounds file offset) = true.
Proof.
  intros Hs. revert offset. induction rounds as [|rounds IH]; intros offset Ho Hm.
  { reflexivity. }
  pose proof CHUNK_SIZE_pos as Hc.
  assert (H1000 : (1000 <= CHUNK_SIZE)%Z) by (vm_compute; discriminate).
  cbn [slices]. destruct (Z.ltb_spec offset (size file)) as [Hlt|Hge]; [|reflexivity].
  destruct Hm as [Hm|Hm]; [|lia].
  apply Z.mod_divide in Hm as [q Hq]; [|lia].
  pose proof (byteLength_slice file offset Ho) as Hlen.
  cbn [forallb]. apply andb_true_iff.
  destruct (Z.le_gt_cases CHUNK_SIZE (size file - offset)) as [Hle|Hle].
  - rewrite Z.min_l in Hlen by lia. split.
    + apply long_is_binary. lia.
    + rewrite Hlen. apply IH; [lia|]. left.
      apply Z.mod_divide; [lia|]. exists (q + 1)%Z. lia.
  - rewrite Z.min_r in Hlen by lia.
    assert (E : (size file mod CHUNK_SIZE = size file - offset)%Z).
    { symmetry. apply (Z.mod_unique _ _ q); lia. }
    split.
    + apply long_is_binary. lia.
    + rewrite Hlen. apply IH; [lia|]. right. lia.
Qed.

(** X10.  A file whose size is a multiple of 65536, or leaves a last
    chunk of at least 1000 bytes, has no chunk that the receiver could take
    for a control frame: with a Header below 1000 bytes its frames, received
    between two files, are saved as the file itself, whatever the content. *)
Theorem long_last_chunk_is_safe (renv : REnv) (file : File) (r : Receiver) :
  (size file mod CHUNK_SIZE = 0 \/ 1000 <= size file mod CHUNK_SIZE)%Z ->
  header_small file = true ->
  closed r ->
  chunks_binary file = true /\
  downloads (receive renv (encode <$> framesOf file) r) = downloads r ++ [downloadOf file].
Proof.
  intros Hs Hh Hr.
  assert (B : chunks_binary file = true).
  { unfold chunks_binary, chunksOf. apply slices_long; [exact Hs| |by left].
    unfold size. lia. }
  split; [exact B|]. by apply receive_file.
Qed.

Lemma long_last_chunk_is_safe_witness :
  (size long mod CHUNK_SIZE = 0 \/ 1000 <= size long mod CHUNK_SIZE)%Z /\
  header_small long = true /\
  closed setupReceiverEvents /\
  length (chunksOf long) = 2 /\
  chunks_binary long = true /\
  downloads (receive desktop (encode <$> framesOf long) setupReceiverEvents)
  = downloads setupReceiverEvents ++ [downloadOf long].
Proof.
  assert (E : (size long mod CHUNK_SIZE = 1000)%Z) by (vm_compute; reflexivity).
  assert (H1 : (size long mod CHUNK_SIZE = 0 \/ 1000 <= size long mod CHUNK_SIZE)%Z)
    by (right; rewrite E; discriminate).
  assert (H2 : header_small long = true) by (vm_compute; reflexivity).
  assert (H3 : length (chunksOf long) = 2) by (vm_compute; reflexivity).
  split; [exact H1|]. split; [exact H2|]. split; [exact closed_setup|].
  split; [exact H3|].
  exact (long_last_chunk_is_safe desktop long setupReceiverEvents H1 H2 closed_setup).
Defined.

(** ** The receiver: control frames and sinks *)

(** X11.  The receiver reads a Header frame as a header exactly when
    the frame is shorter than 1000 bytes.  Then the name, the size and the
    path come out as they went in, whatever characters they hold; a Header
    of 1000 bytes or more is handled as binary data. *)
Theorem header_is_read_iff_small (file : File) :
  (kind (encode (Header file)) = IsHeader <-> header_small file = true) /\
  (header_small file = true ->
     exists msg, control (encode (Header file)) = Some msg /\
       JSON.get msg "name" = Some (JSON.JStr (name file)) /\
       JSON.get msg "size" = Some (JSON.JNum (size file) 0) /\
       JSON.get msg "path"
       = Some (JSON.JStr (if String.eqb (webkitRelativePath file) EmptyString
                          then name file else webkitRelativePath file))) /\
  (header_small file = false ->
     forall renv r, onData renv r (encode (Header file)) = onBinary (encode (Header file)) r).
Proof.
  split; [split|split].
  - intros H. destruct (header_small file) eqn:E; [reflexivity|].
    unfold kind, control in H. unfold header_small in E. rewrite E in H. discriminate H.
  - apply kind_header.
  - intros H. exists (header file). split; [by apply control_header|].
    repeat split.
  - intros H renv r. unfold onData, control. unfold header_small in H. by rewrite H.
Qed.

Lemma header_is_read_iff_small_witness :
  header_small hello = true /\
  exists msg, control (encode (Header hello)) = Some msg /\
    JSON.get msg "name" = Some (JSON.JStr (name hello)) /\
    JSON.get msg "size" = Some (JSON.JNum (size hello) 0) /\
    JSON.get msg "path"
    = Some (JSON.JStr (if String.eqb (webkitRelativePath hello) EmptyString
                       then name hello else webkitRelativePath hello)).
Proof.
  assert (H : header_small hello = true) by reflexivity.
  split; [exact H|]. exact (proj1 (proj2 (header_is_read_iff_small hello)) H).
Defined.

(** X12.  After an EndMarker no file is open.  A second EndMarker in
    a row therefore fails on the missing file before anything is done: it
    saves nothing and only adds the error to the log, as does an EndMarker
    that arrives when no file was open in the first place. *)
Theorem repeated_end_marker_saves_once (renv : REnv) (r : Receiver) :
  let r1 := onData renv r (encode EndMarker) in
  let r2 := onData renv r1 (encode EndMarker) in
  currentFileMeta r1 = None /\
  r2 = logging Uncaught_TypeError r1 /\
  downloads r2 = downloads r1 /\
  (currentFileMeta r = None -> r1 = logging Uncaught_TypeError r).
Proof.
  cbv zeta. rewrite !onData_end.
  assert (H : currentFileMeta (onEnd r) = None).
  { unfold onEnd. destruct (currentFileMeta r) eqn:E; [reflexivity|exact E]. }
  split; [exact H|].
  assert (H2 : onEnd (onEnd r) = logging Uncaught_TypeError (onEnd r)).
  { unfold onEnd at 1. by rewrite H. }
  split; [exact H2|]. split; [by rewrite H2|].
  intros E. unfold onEnd. by rewrite E.
Qed.

(** *** Where the bytes of an open file are kept *)

Section Sinks.
Variable renv : REnv.

Lemma onData_no_stream (r : Receiver) (data : Buffer) :
  isIOS renv = true \/ streamSaver_supported renv = false ->
  writable r = None /\ created r = 0 ->
  writable (onData renv r data) = None /\ created (onData renv r data) = 0.
Proof.
  intros Hs [Hw Hc].
  assert (HB : writable (onBinary data r) = None /\ created (onBinary data r) = 0).
  { unfold onBinary. destruct (currentFileMeta r); [|done]. by rewrite Hw. }
  assert (HE : writable (onEnd r) = None /\ created (onEnd r) = 0).
  { unfold onEnd. destruct (currentFileMeta r); [|done]. cbn. by rewrite Hw. }
  assert (HH : forall msg, writable (onHeader renv msg r) = None
                           /\ created (onHeader renv msg r) = 0).
  { intros msg. unfold onHeader.
    destruct Hs as [-> | Hs]; cbn; [done|].
    destruct (isIOS renv); cbn; [done|]. by rewrite Hs. }
  unfold onData. destruct (control data) as [msg|]; [|exact HB].
  destruct (JSON.is_str _ "file-header"); [apply HH|].
  destruct (JSON.is_str _ "file-end"); [exact HE|exact HB].
Qed.

Lemma onData_streams (r : Receiver) (data : Buffer) :
  isIOS renv = false -> streamSaver_supported renv = true ->
  (forall k, createWriteStream_throws renv k = false) ->
  chunks r = [] /\ (currentFileMeta r = None <-> writable r = None) ->
  chunks (onData renv r data) = [] /\
  (currentFileMeta (onData renv r data) = None <-> writable (onData renv r data) = None).
Proof.
  intros H1 H2 H3 [Hc Hw].
  assert (HB : chunks (onBinary data r) = [] /\
          (currentFileMeta (onBinary data r) = None <-> writable (onBinary data r) = None)).
  { unfold onBinary. destruct (currentFileMeta r) as [m|] eqn:Em.
    2:{ split; [exact Hc|]. rewrite Em. exact Hw. }
    destruct (writable r) as [wr|] eqn:Ew; cbn.
    - rewrite Em. split; [done|]. split; discriminate.
    - exfalso. destruct Hw as [_ Hw]. by specialize (Hw eq_refl). }
  assert (HE : chunks (onEnd r) = [] /\
          (currentFileMeta (onEnd r) = None <-> writable (onEnd r) = None)).
  { unfold onEnd. destruct (currentFileMeta r) as [m|] eqn:Em; cbn.
    - destruct (writable r) eqn:Ew; cbn; rewrite ?Ew; (split; [done|by split]).
    - split; [exact Hc|]. rewrite Em. exact Hw. }
  assert (HH : forall msg, chunks (onHeader renv msg r) = [] /\
          (currentFileMeta (onHeader renv msg r) = None
           <-> writable (onHeader renv msg r) = None)).
  { intros msg. unfold onHeader. rewrite H1, H2. cbn. rewrite H3. cbn.
    split; [done|]. split; discriminate. }
  unfold onData. destruct (control data) as [msg|]; [|exact HB].
  destruct (JSON.is_str _ "file-header"); [apply HH|].
  destruct (JSON.is_str _ "file-end"); [exact HE|exact HB].
Qed.

End Sinks.

(** X13.  Whatever frames arrive, the sink is the one the browser
    offers: on iOS or without StreamSaver no stream is ever created and no
    writer is ever open; with a StreamSaver that works nothing is ever kept
    in memory, and a file is open exactly when a writer is. *)
Theorem sink_is_fixed_by_browser (renv : REnv) (frames : list Buffer) :
  let r := receive renv frames setupReceiverEvents in
  (isIOS renv = true \/ streamSaver_supported renv = false ->
     writable r = None /\ created r = 0) /\
  (isIOS renv = false -> streamSaver_supported renv = true ->
   (forall k, createWriteStream_throws renv k = false) ->
     chunks r = [] /\ (currentFileMeta r = None <-> writable r = None)).
Proof.
  cbv zeta. unfold receive. split.
  - intros Hs.
    assert (G : forall r0, writable r0 = None /\ created r0 = 0 ->
              writable (fold_left (onData renv) frames r0) = None
              /\ created (fold_left (onData renv) frames r0) = 0).
    { induction frames as [|d ds IH]; intros r0 H0; [exact H0|].
      cbn [fold_left]. apply IH. by apply onData_no_stream. }
    by apply G.
  - intros H1 H2 H3.
    assert (G : forall r0, chunks r0 = [] /\ (currentFileMeta r0 = None <-> writable r0 = None) ->
              chunks (fold_left (onData renv) frames r0) = [] /\
              (currentFileMeta (fold_left (onData renv) frames r0) = None
               <-> writable (fold_left (onData renv) frames r0) = None)).
    { induction frames as [|d ds IH]; intros r0 H0; [exact H0|].
      cbn [fold_left]. apply IH. by apply onData_streams. }
    by apply G.
Qed.

(** ** Times, sizes and names *)

(** *** Doubles: what rounding does *)

Section Rounding.
Import Double.
Local Open Scope Z_scope.

Lemma digits2_size (p : positive) : digits2_pos p = Pos.size p.
Proof. induction p as [p IH|p IH|]; cbn; by rewrite ?IH. Qed.

Lemma digits2_log2 (p : positive) : Zpos (digits2_pos p) = Z.log2 (Zpos p) + 1.
Proof.
  rewrite digits2_size. destruct p as [p|p|]; cbn; try reflexivity; lia.
Qed.

Lemma digits2_bounds (p : positive) :
  2 ^ (Zpos (digits2_pos p) - 1) <= Zpos p < 2 ^ Zpos (digits2_pos p).
Proof.
  rewrite digits2_log2. replace (Z.log2 (Zpos p) + 1 - 1) with (Z.log2 (Zpos p)) by lia.
  change (Z.log2 (Zpos p) + 1) with (Z.succ (Z.log2 (Zpos p))).
  apply Z.log2_spec. lia.
Qed.

Lemma iter_pos_nat {A} (f : A -> A) (p : positive) (x : A) :
  SpecFloat.iter_pos f p x = Nat.iter (Pos.to_nat p) f x.
Proof.
  revert x. induction p as [p IH|p IH|]; intros x; cbn [SpecFloat.iter_pos].
  - rewrite !IH, Pos2Nat.inj_xI.
    replace (S (2 * Pos.to_nat p)) with (Pos.to_nat p + (Pos.to_nat p + 1))%nat by lia.
    rewrite !Nat.iter_add. reflexivity.
  - rewrite !IH, Pos2Nat.inj_xO.
    replace (2 * Pos.to_nat p)%nat with (Pos.to_nat p + Pos.to_nat p)%nat by lia.
    rewrite Nat.iter_add. reflexivity.
  - reflexivity.
Qed.

Lemma shr_1_spec (r : shr_record) :
  0 <= shr_m r ->
  shr_m (shr_1 r) = shr_m r / 2 /\
  shr_r (shr_1 r) = Z.odd (shr_m r) /\
  shr_s (shr_1 r) = shr_r r || shr_s r.
Proof.
  destruct r as [m r s]. cbn [shr_m shr_r shr_s]. intros Hm.
  destruct m as [|[p|p|]|p]; cbn [shr_1 shr_m shr_r shr_s]; try lia.
  - done.
  - split; [|done]. rewrite Pos2Z.inj_xI.
    apply (Z.div_unique _ _ _ 1); lia.
  - split; [|done]. rewrite Pos2Z.inj_xO.
    apply (Z.div_unique _ _ _ 0); lia.
  - done.
Qed.

Lemma shr_iter (n : nat) (m0 : Z) (r0 s0 : bool) :
  0 <= m0 ->
  let r := Nat.iter n shr_1 {| shr_m := m0; shr_r := r0; shr_s := s0 |} in
  shr_m r = m0 / 2 ^ Z.of_nat n /\
  (n <> 0%nat -> shr_r r = Z.odd (m0 / 2 ^ (Z.of_nat n - 1))).
Proof.
  intros Hm. induction n as [|n IH]; cbn zeta.
  - cbn. split; [by rewrite Z.div_1_r|done].
  - cbn zeta in IH. destruct IH as [IH1 IH2]. rewrite Nat.iter_succ.
    assert (P : 0 <= shr_m (Nat.iter n shr_1 {| shr_m := m0; shr_r := r0; shr_s := s0 |})).
    { rewrite IH1. apply Z.div_pos; lia. }
    destruct (shr_1_spec _ P) as (E1 & E2 & _).
    split.
    + rewrite E1, IH1, Nat2Z.inj_succ, Z.pow_succ_r by lia.
      rewrite Z.div_div by lia. f_equal. lia.
    + intros _. rewrite E2, IH1. f_equal. f_equal. f_equal. lia.
Qed.

Lemma round_nearest_even_bounds (r : shr_record) :
  shr_m r <= round_nearest_even (shr_m r) (loc_of_shr_record r)
  <= shr_m r + (if shr_r r then 1 else 0).
Proof.
  destruct r as [m [|] [|]]; cbn; try lia.
  destruct (Z.even m); lia.
Qed.

(** A right shift by [n] places of a mantissa that was exact. *)
Lemma shr_exact (m0 e n : Z) :
  0 <= m0 ->
  exists r,
    shr {| shr_m := m0; shr_r := false; shr_s := false |} e n = (r, e + Z.max 0 n) /\
    shr_m r = m0 / 2 ^ Z.max 0 n /\
    (0 < n -> shr_r r = Z.odd (m0 / 2 ^ (n - 1))) /\
    (n <= 0 -> shr_r r = false).
Proof.
  intros Hm. destruct n as [|p|p]; cbn [shr Z.max].
  - eexists. split; [by rewrite Z.add_0_r|]. cbn. split; [by rewrite Z.div_1_r|].
    split; [lia|done].
  - rewrite iter_pos_nat.
    destruct (shr_iter (Pos.to_nat p) m0 false false Hm) as [E1 E2]. cbv zeta in E1, E2.
    rewrite positive_nat_Z in E1, E2.
    eexists. split; [reflexivity|]. split; [exact E1|]. split; [|lia].
    intros _. apply E2. lia.
  - eexists. split; [by rewrite Z.add_0_r|]. cbn. split; [by rewrite Z.div_1_r|].
    split; [lia|done].
Qed.

Lemma half_up (M n : Z) :
  0 <= M -> 0 < n ->
  (M / 2 ^ n + (if Z.odd (M / 2 ^ (n - 1)) then 1 else 0)) * 2 ^ n <= M + 2 ^ (n - 1).
Proof.
  intros HM Hn.
  assert (P : 0 < 2 ^ (n - 1)) by (apply Z.pow_pos_nonneg; lia).
  assert (E : 2 ^ n = 2 * 2 ^ (n - 1)).
  { replace n with (Z.succ (n - 1)) at 1 by lia. apply Z.pow_succ_r. lia. }
  set (q := M / 2 ^ (n - 1)).
  assert (Q : M / 2 ^ n = q / 2).
  { rewrite E, (Z.mul_comm 2), <- Z.div_div by lia. reflexivity. }
  pose proof (Z.mul_div_le M (2 ^ (n - 1)) P) as Hq. fold q in Hq.
  rewrite Q, E. pose proof (Zodd_bool_iff q) as Ho. pose proof (Zeven_bool_iff q) as He.
  pose proof (Z.div_mod q 2 ltac:(lia)) as D.
  destruct (Z.odd q) eqn:Eo.
  - rewrite Zodd_mod in Eo. apply Z.eqb_eq in Eo. nia.
  - pose proof (Z.mod_pos_bound q 2 ltac:(lia)). nia.
Qed.

(** A mantissa [M] at the exponent [E], rounded: the result is at an
    exponent [E + k], with a mantissa that exceeds [M / 2^k] by no more
    than half a unit of the last place kept. *)
Lemma round_exact (sx : bool) (M : positive) (E : Z) :
  let n := fexp prec emax (Zpos (digits2_pos M) + E) - E in
  exists m3 k,
    0 <= m3 /\ 0 <= k /\
    2 * (m3 * 2 ^ k) <= 2 * Zpos M + 2 ^ Z.max 0 n /\
    binary_round_aux prec emax sx (Zpos M) E loc_Exact
    = match m3 with
      | Z0 => S754_zero sx
      | Zpos m =>
          if E + k <=? emax - prec then S754_finite sx m (E + k) else S754_infinity sx
      | Zneg _ => S754_nan
      end.
Proof.
  intros n. unfold binary_round_aux, shr_fexp. cbn [Zdigits2 shr_record_of_loc].
  fold n.
  destruct (shr_exact (Zpos M) E n ltac:(lia)) as (r1 & -> & M1 & R1 & R0).
  pose proof (round_nearest_even_bounds r1) as B.
  set (m2 := round_nearest_even (shr_m r1) (loc_of_shr_record r1)) in *.
  assert (P1 : 0 <= shr_m r1) by (rewrite M1; apply Z.div_pos; lia).
  assert (P2 : 0 <= m2) by lia.
  set (n2 := fexp prec emax (Zdigits2 m2 + (E + Z.max 0 n)) - (E + Z.max 0 n)).
  destruct (shr_exact m2 (E + Z.max 0 n) n2 P2) as (r3 & -> & M3 & _).
  exists (shr_m r3), (Z.max 0 n + Z.max 0 n2).
  assert (Q2 : 0 < 2 ^ Z.max 0 n2) by (apply Z.pow_pos_nonneg; lia).
  assert (Q1 : 0 < 2 ^ Z.max 0 n) by (apply Z.pow_pos_nonneg; lia).
  split; [rewrite M3; apply Z.div_pos; lia|]. split; [lia|]. split.
  - rewrite Z.pow_add_r by lia.
    pose proof (Z.mul_div_le m2 _ Q2) as L3. rewrite <- M3 in L3.
    assert (L2 : 2 * (m2 * 2 ^ Z.max 0 n) <= 2 * Zpos M + 2 ^ Z.max 0 n).
    { destruct (Z.le_gt_cases n 0) as [Hn|Hn].
      - rewrite (R0 Hn) in B. rewrite Z.max_l in * by lia.
        rewrite Z.pow_0_r, Z.div_1_r in *. lia.
      - rewrite (R1 Hn) in B. rewrite Z.max_r in * by lia.
        pose proof (half_up (Zpos M) n ltac:(lia) Hn) as H.
        assert (E2 : 2 ^ n = 2 * 2 ^ (n - 1)).
        { replace n with (Z.succ (n - 1)) at 1 by lia. apply Z.pow_succ_r. lia. }
        rewrite M1 in B. nia. }
    nia.
  - rewrite Z.add_assoc. reflexivity.
Qed.

End Rounding.

Section Random.
Import Double.
Local Open Scope Z_scope.

Lemma canonical_exponent (m : positive) (e : Z) :
  canonical_mantissa prec emax m e = true ->
  -1074 <= e /\ Zpos (digits2_pos m) <= 53 /\ (-1074 < e -> Zpos (digits2_pos m) = 53).
Proof.
  unfold canonical_mantissa, fexp, emin, prec, emax. intros H. apply Z.eqb_eq in H. lia.
Qed.

Lemma below_two53 (m : positive) :
  Zpos (digits2_pos m) <= 53 -> Zpos m < 9007199254740992.
Proof.
  intros D. pose proof (digits2_bounds m) as [_ B].
  eapply Z.lt_le_trans; [exact B|].
  change 9007199254740992 with (2 ^ 53). apply Z.pow_le_mono_r; lia.
Qed.

Lemma from_two52 (m : positive) :
  Zpos (digits2_pos m) = 53 -> 4503599627370496 <= Zpos m.
Proof.
  intros D. pose proof (digits2_bounds m) as [B _]. rewrite D in B. exact B.
Qed.

Lemma valid_finite (s : bool) (m : positive) (e : Z) :
  valid (S754_finite s m e) = true ->
  -1074 <= e <= 971 /\ Zpos m < 9007199254740992.
Proof.
  unfold valid, valid_binary, bounded. intros H.
  apply andb_true_iff in H as [H1 H2]. apply Z.leb_le in H2.
  destruct (canonical_exponent _ _ H1) as (A & B & _).
  unfold prec, emax in H2. split; [lia|]. by apply below_two53.
Qed.

Lemma ltb_one (m : positive) (e : Z) :
  ltb (S754_finite false m e) one = true ->
  e < -52 \/ (e = -52 /\ Zpos m < 4503599627370496).
Proof.
  unfold ltb, SFltb, one, SFcompare.
  destruct (Z.compare_spec e (-52)) as [->|Hlt|Hgt]; [|by left|discriminate].
  rewrite Pos.compare_cont_spec. unfold Pos.switch_Eq.
  destruct (Pos.compare_spec m 4503599627370496) as [C|C|C]; try discriminate.
  intros _. right. split; [reflexivity|]. by apply Pos2Z.pos_lt_pos.
Qed.

Lemma random_finite (s : bool) (m : positive) (e : Z) :
  random_number (S754_finite s m e) ->
  s = false /\ -1074 <= e <= -53 /\ Zpos m < 9007199254740992.
Proof.
  intros (V & L & U). destruct (valid_finite _ _ _ V) as [He Hm].
  destruct s; [discriminate L|]. split; [reflexivity|]. split; [|exact Hm].
  apply ltb_one in U as [U|[-> U]]; [lia|]. exfalso.
  unfold valid, valid_binary, bounded in V. apply andb_true_iff in V as [V _].
  destruct (canonical_exponent _ _ V) as (_ & _ & D).
  pose proof (from_two52 m (D ltac:(lia))). lia.
Qed.

End Random.

Section Products.
Import Double.
Local Open Scope Z_scope.

Lemma digits2_le (p : positive) (d : Z) :
  0 <= d -> Zpos p < 2 ^ d -> Zpos (digits2_pos p) <= d.
Proof.
  intros Hd H. pose proof (digits2_bounds p) as [B _].
  assert (L : 2 ^ (Zpos (digits2_pos p) - 1) < 2 ^ d) by lia.
  apply Z.pow_lt_mono_r_iff in L; lia.
Qed.

Lemma shiftl_below (m3 k E N : Z) :
  0 <= m3 -> 0 <= k -> E < 0 -> 0 < N ->
  m3 * 2 ^ k < N * 2 ^ (- E) ->
  0 <= Z.shiftl m3 (E + k) < N.
Proof.
  intros H3 Hk HE HN H.
  destruct (Z.le_gt_cases 0 (E + k)) as [Hp|Hn].
  - rewrite Z.shiftl_mul_pow2 by lia.
    assert (P : 0 < 2 ^ (E + k)) by (apply Z.pow_pos_nonneg; lia).
    assert (Q : 0 < 2 ^ (- E)) by (apply Z.pow_pos_nonneg; lia).
    assert (E1 : 2 ^ k = 2 ^ (E + k) * 2 ^ (- E)).
    { rewrite <- Z.pow_add_r by lia. f_equal. lia. }
    rewrite E1 in H. nia.
  - rewrite Z.shiftl_div_pow2 by lia.
    assert (P : 0 < 2 ^ (- (E + k))) by (apply Z.pow_pos_nonneg; lia).
    assert (Q : 0 < 2 ^ k) by (apply Z.pow_pos_nonneg; lia).
    assert (E1 : 2 ^ (- E) = 2 ^ (- (E + k)) * 2 ^ k).
    { rewrite <- Z.pow_add_r by lia. f_equal. lia. }
    rewrite E1 in H. split; [apply Z.div_pos; lia|].
    apply Z.div_lt_upper_bound; [lia|]. nia.
Qed.

(** The product of a random number and an integer [N] that is no power of
    two, floored: rounding does not take it up to [N]. *)
Lemma mul_random (r : number) (N : Z) (C : positive) (t : Z) :
  random_number r ->
  of_Z N = S754_finite false C (- t) ->
  Zpos C = N * 2 ^ t -> 0 <= t <= 52 -> 4503599627370496 < Zpos C < 9007199254740992 ->
  exists s k, floorZ (mul r (of_Z N)) = Some k /\ 0 <= k < N /\
    (mul r (of_Z N) = S754_zero s \/ exists m e, mul r (of_Z N) = S754_finite false m e).
Proof.
  intros R HN HC Ht HCb. rewrite HN.
  assert (T : 0 < 2 ^ t) by (apply Z.pow_pos_nonneg; lia).
  assert (N0 : 0 < N) by nia.
  destruct r as [s|s| |s m e].
  - exists (xorb s false), 0. cbn. split; [reflexivity|]. split; [lia|by left].
  - destruct R as (_ & L & U). destruct s; discriminate.
  - destruct R as (_ & L & _). discriminate.
  - destruct (random_finite _ _ _ R) as (-> & He & Hm).
    unfold mul, SFmul. cbn [xorb].
    destruct (round_exact false (m * C) (e + - t)) as (m3 & k & P3 & Pk & B & ->).
    set (n := fexp prec emax (Zpos (digits2_pos (m * C)) + (e + - t)) - (e + - t)) in *.
    assert (HP : 9007199254740992 <= 2 ^ (- e)).
    { change 9007199254740992 with (2 ^ 53). apply Z.pow_le_mono_r; lia. }
    assert (Hn : 2 ^ Z.max 0 n <= 9007199254740992).
    { change 9007199254740992 with (2 ^ 53). apply Z.pow_le_mono_r; [lia|].
      assert (D : Zpos (digits2_pos (m * C)) <= 106).
      { apply digits2_le; [lia|]. rewrite Pos2Z.inj_mul.
        change (2 ^ 106) with (9007199254740992 * 9007199254740992). nia. }
      subst n. unfold fexp, emin, prec, emax. lia. }
    assert (K : m3 * 2 ^ k < N * 2 ^ (- (e + - t))).
    { replace (- (e + - t)) with (t + - e) by lia. rewrite Z.pow_add_r by lia.
      rewrite Z.mul_assoc, <- HC. rewrite Pos2Z.inj_mul in B. nia. }
    destruct m3 as [|m3|m3]; [| |lia].
    + exists false, 0. split; [reflexivity|]. split; [lia|by left].
    + destruct (Z.leb_spec (e + - t + k) (emax - prec)) as [Hle|Hgt].
      * exists false, (Z.shiftl (Zpos m3) (e + - t + k)). split; [reflexivity|].
        split; [apply shiftl_below; lia|]. right. by eexists _, _.
      * exfalso. unfold emax, prec in Hgt.
        assert (Q : 0 < 2 ^ (- (e + - t))) by (apply Z.pow_pos_nonneg; lia).
        assert (E1 : 2 ^ k = 2 ^ (e + - t + k) * 2 ^ (- (e + - t))).
        { rewrite <- Z.pow_add_r by lia. f_equal. lia. }
        assert (Big : 9007199254740992 <= 2 ^ (e + - t + k)).
        { change 9007199254740992 with (2 ^ 53). apply Z.pow_le_mono_r; lia. }
        rewrite E1 in K. nia.
Qed.

End Products.

Section SmallIntegers.
Import Double.
Local Open Scope Z_scope.

(** The whole numbers below 100 are doubles that [Math.floor] leaves alone
    and that [Number::toString] prints digit by digit. *)
Lemma small_table :
  forallb (fun k =>
             match floorZ (of_Z k) with Some j => (j =? k) | None => false end
             && eqb (floor (of_Z k)) (of_Z k)
             && String.eqb (toString (of_Z k)) (JSON.stringify_int k))
          (Z.of_nat <$> seq 0 100) = true.
Proof. vm_compute. reflexivity. Qed.

Lemma small_integer (k : Z) :
  0 <= k < 100 ->
  floorZ (of_Z k) = Some k /\
  eqb (floor (of_Z k)) (of_Z k) = true /\
  toString (of_Z k) = JSON.stringify_int k.
Proof.
  intros H. pose proof small_table as T. rewrite forallb_forall in T.
  specialize (T k). cbv beta in T.
  assert (S : match floorZ (of_Z k) with Some j => (j =? k) | None => false end
              && eqb (floor (of_Z k)) (of_Z k)
              && String.eqb (toString (of_Z k)) (JSON.stringify_int k) = true).
  { apply T. apply list_elem_of_In, list_elem_of_fmap. exists (Z.to_nat k).
    split; [lia|]. apply list_elem_of_In, in_seq. lia. }
  apply andb_true_iff in S as [S S3].
  apply andb_true_iff in S as [S1 S2].
  destruct (floorZ (of_Z k)) as [j|]; [|discriminate S1].
  apply Z.eqb_eq in S1. apply String.eqb_eq in S3. by subst j.
Qed.

Lemma floor_small (y : number) (k : Z) :
  floorZ y = Some k -> 0 <= k < 100 ->
  (exists s, y = S754_zero s) \/ (exists m e, y = S754_finite false m e) ->
  floorZ (floor y) = Some k /\
  eqb (floor (floor y)) (floor y) = true /\
  toString (floor y) = JSON.stringify_int k.
Proof.
  intros F Hk [[s ->]|(m & e & ->)].
  - injection F as <-. by destruct s.
  - unfold floor. rewrite F. destruct (small_integer k Hk) as (S1 & S2 & S3).
    destruct k as [|k|k]; [done| |lia]. done.
Qed.

End SmallIntegers.


Section Exact.
Import Double.
Local Open Scope Z_scope.

(** A mantissa that fits the precision at its exponent is kept as it is. *)
Lemma round_fits (sx : bool) (M : positive) (E : Z) :
  fexp prec emax (Zpos (digits2_pos M) + E) <= E -> E <= emax - prec ->
  binary_round_aux prec emax sx (Zpos M) E loc_Exact = S754_finite sx M E.
Proof.
  intros H1 H2. unfold binary_round_aux, shr_fexp. cbn [Zdigits2 shr_record_of_loc].
  assert (S : forall n, n <= 0 ->
            shr {| shr_m := Zpos M; shr_r := false; shr_s := false |} E n
            = ({| shr_m := Zpos M; shr_r := false; shr_s := false |}, E)).
  { intros [|p|p] Hn; [reflexivity|lia|reflexivity]. }
  rewrite S by lia. cbn [shr_m loc_of_shr_record round_nearest_even Zdigits2].
  rewrite S by lia. cbn [shr_m]. by rewrite (proj2 (Z.leb_le _ _) H2).
Qed.

Lemma iter_xO_value (r d : positive) : Zpos (Pos.iter xO r d) = Zpos r * 2 ^ Zpos d.
Proof.
  revert r. induction d as [|d IH] using Pos.peano_ind; intros r.
  - cbn [Pos.iter]. lia.
  - rewrite Pos.iter_succ, Pos2Z.inj_xO, IH, Pos2Z.inj_succ, Z.pow_succ_r by lia. lia.
Qed.

Lemma iter_xO_digits (r d : positive) :
  Zpos (digits2_pos (Pos.iter xO r d)) = Zpos (digits2_pos r) + Zpos d.
Proof.
  revert r. induction d as [|d IH] using Pos.peano_ind; intros r.
  - cbn [Pos.iter digits2_pos]. lia.
  - rewrite Pos.iter_succ. cbn [digits2_pos]. rewrite Pos2Z.inj_succ, IH. lia.
Qed.

(** An integer below [2^53] at an exponent from the least up to 0 is a
    double, and the double has its whole part. *)
Lemma normalize_exact (r e : Z) :
  0 <= r < 9007199254740992 -> -1074 <= e <= 0 ->
  floorZ (binary_normalize prec emax r e false) = Some (Z.shiftl r e) /\
  ((exists s, binary_normalize prec emax r e false = S754_zero s) \/
   exists m e', binary_normalize prec emax r e false = S754_finite false m e').
Proof.
  intros [Hr0 Hr] He. destruct r as [|r|r]; [| |lia].
  { cbn. rewrite Z.shiftl_0_l. split; [reflexivity|left; by eexists]. }
  assert (D : Zpos (digits2_pos r) <= 53).
  { apply digits2_le; [lia|exact Hr]. }
  cbn [binary_normalize]. unfold binary_round, shl_align.
  set (e' := fexp prec emax (Zpos (digits2_pos r) + e)).
  assert (E' : e' = Z.max (Zpos (digits2_pos r) + e - 53) (-1074)) by reflexivity.
  destruct (e' - e) as [|d|d] eqn:Ed.
  - rewrite round_fits; [|fold e'; lia|unfold emax, prec; lia].
    split; [reflexivity|right; by eexists _, _].
  - lia.
  - rewrite round_fits.
    + cbn [floorZ]. split; [|right; by eexists _, _]. f_equal.
      rewrite iter_xO_value. rewrite !Z.shiftl_div_pow2 by lia.
      assert (P : 0 < 2 ^ Zpos d) by (apply Z.pow_pos_nonneg; lia).
      assert (Q : 0 < 2 ^ (- e)) by (apply Z.pow_pos_nonneg; lia).
      replace (- e') with (Zpos d + - e) by lia. rewrite Z.pow_add_r by lia.
      rewrite (Z.mul_comm (2 ^ Zpos d)). rewrite Z.div_mul_cancel_r by lia. reflexivity.
    + rewrite iter_xO_digits.
      replace (Zpos (digits2_pos r) + Zpos d + e') with (Zpos (digits2_pos r) + e) by lia.
      fold e'. lia.
    + unfold emax, prec. lia.
Qed.

Lemma sixty : of_Z 60 = S754_finite false 8444249301319680 (- 47).
Proof. reflexivity. Qed.

Lemma mod_scaled (a p c : Z) : 0 < p -> 0 < c -> (a mod (c * p)) / p = (a / p) mod c.
Proof.
  intros Hp Hc.
  pose proof (Z.div_mod a p ltac:(lia)) as D1.
  pose proof (Z.mod_pos_bound a p Hp) as B1.
  pose proof (Z.div_mod (a / p) c ltac:(lia)) as D2.
  pose proof (Z.mod_pos_bound (a / p) c Hc) as B2.
  assert (E : a mod (c * p) = p * ((a / p) mod c) + a mod p).
  { symmetry. apply (Z.mod_unique _ _ (a / p / c)); nia. }
  rewrite E. symmetry. apply (Z.div_unique _ _ _ (a mod p)); lia.
Qed.

(** The seconds that are left over from the minutes: [x % 60] floored is
    the whole part of [x] modulo 60. *)
Lemma rem_60 (m : positive) (e : Z) :
  valid (S754_finite false m e) = true ->
  floorZ (rem (S754_finite false m e) (of_Z 60)) = Some (Z.shiftl (Zpos m) e mod 60) /\
  ((exists s, rem (S754_finite false m e) (of_Z 60) = S754_zero s) \/
   exists m' e', rem (S754_finite false m e) (of_Z 60) = S754_finite false m' e').
Proof.
  intros V. destruct (valid_finite _ _ _ V) as [He Hm].
  rewrite sixty. unfold rem.
  set (e0 := Z.min e (- 47)).
  set (a := Zpos m * 2 ^ (e - e0)).
  set (b := 8444249301319680 * 2 ^ (- 47 - e0)).
  assert (P : 0 < 2 ^ (- e0)) by (apply Z.pow_pos_nonneg; lia).
  assert (B : b = 60 * 2 ^ (- e0)).
  { subst b. change 8444249301319680 with (60 * 2 ^ 47). rewrite <- Z.mul_assoc.
    rewrite <- Z.pow_add_r by lia. do 2 f_equal. lia. }
  assert (Ha : 0 <= a).
  { subst a. apply Z.mul_nonneg_nonneg; [lia|]. apply Z.pow_nonneg. lia. }
  assert (R : 0 <= a mod b < 9007199254740992).
  { pose proof (Z.mod_pos_bound a b ltac:(lia)) as Mb.
    destruct (Z.le_gt_cases e (- 47)) as [Hle|Hgt].
    - assert (a = Zpos m) as Ea.
      { subst a e0. rewrite Z.min_l by lia. rewrite Z.sub_diag. lia. }
      pose proof (Z.mod_le a b Ha ltac:(lia)). lia.
    - assert (b = 8444249301319680) as Eb.
      { subst b e0. rewrite Z.min_r by lia. replace (-47 - -47) with 0 by lia. lia. }
      lia. }
  destruct (normalize_exact (a mod b) e0 R ltac:(lia)) as [F S].
  split; [|exact S]. rewrite F. f_equal.
  rewrite Z.shiftl_div_pow2 by lia. rewrite B, mod_scaled by lia. f_equal.
  subst a. destruct (Z.le_gt_cases 0 e) as [Hp|Hn].
  - rewrite Z.shiftl_mul_pow2 by lia.
    replace (e - e0) with (e + - e0) by lia. rewrite Z.pow_add_r by lia.
    rewrite Z.mul_assoc, Z.div_mul by lia. reflexivity.
  - rewrite Z.shiftl_div_pow2 by lia.
    assert (Q : 0 < 2 ^ (e - e0)) by (apply Z.pow_pos_nonneg; lia).
    replace (- e0) with (- e + (e - e0)) by lia. rewrite Z.pow_add_r by lia.
    rewrite Z.div_mul_cancel_r by lia. reflexivity.
Qed.

End Exact.

Section Quotients.
Import Double.
Local Open Scope Z_scope.

Lemma shr_any (m0 e n : Z) (r0 s0 : bool) :
  0 <= m0 ->
  exists r,
    shr {| shr_m := m0; shr_r := r0; shr_s := s0 |} e n = (r, e + Z.max 0 n) /\
    shr_m r = m0 / 2 ^ Z.max 0 n /\
    (0 < n -> shr_r r = Z.odd (m0 / 2 ^ (n - 1))) /\
    (n <= 0 -> r = {| shr_m := m0; shr_r := r0; shr_s := s0 |}).
Proof.
  intros Hm. destruct n as [|p|p]; cbn [shr Z.max].
  - eexists. split; [by rewrite Z.add_0_r|]. cbn. split; [by rewrite Z.div_1_r|].
    split; [lia|done].
  - rewrite iter_pos_nat.
    destruct (shr_iter (Pos.to_nat p) m0 r0 s0 Hm) as [E1 E2]. cbv zeta in E1, E2.
    rewrite positive_nat_Z in E1, E2.
    eexists. split; [reflexivity|]. split; [exact E1|]. split; [|lia].
    intros _. apply E2. lia.
  - eexists. split; [by rewrite Z.add_0_r|]. cbn. split; [by rewrite Z.div_1_r|].
    split; [lia|done].
Qed.

Lemma loc_of_record_of_loc (m : Z) (l : location) :
  loc_of_shr_record (shr_record_of_loc m l) = l.
Proof. by destruct l as [|[| |]]. Qed.

(** Rounding a quotient [q] whose remainder is at the place [l]: the
    mantissa [q] loses [N] bits, goes up by one or stays, and loses [N2]
    more bits when that takes it out of the precision. *)
Lemma round_any (sx : bool) (q E : Z) (l : location) :
  0 <= q ->
  let n := fexp prec emax (Zdigits2 q + E) - E in
  let N := Z.max 0 n in
  exists m2 N2,
    0 <= N2 /\
    q / 2 ^ N <= m2 <= q / 2 ^ N + 1 /\
    (0 < n -> 2 * (m2 * 2 ^ N) <= 2 * q + 2 ^ N) /\
    (n <= 0 -> m2 = round_nearest_even q l) /\
    (-1074 <= E -> N2 <= 1) /\
    binary_round_aux prec emax sx q E l
    = match m2 / 2 ^ N2 with
      | Z0 => S754_zero sx
      | Zpos m =>
          if E + (N + N2) <=? emax - prec then S754_finite sx m (E + (N + N2))
          else S754_infinity sx
      | Zneg _ => S754_nan
      end.
Proof.
  intros Hq n N. unfold binary_round_aux, shr_fexp. fold n.
  destruct (shr_record_of_loc q l) as [mq r0 s0] eqn:Eq.
  assert (mq = q) as -> by (by destruct l as [|[| |]]; injection Eq).
  destruct (shr_any q E n r0 s0 Hq) as (r1 & -> & M1 & R1 & R0). fold N in M1 |- *.
  pose proof (round_nearest_even_bounds r1) as B.
  set (m2 := round_nearest_even (shr_m r1) (loc_of_shr_record r1)) in *.
  assert (P1 : 0 <= shr_m r1) by (rewrite M1; apply Z.div_pos; [lia|apply Z.pow_pos_nonneg; lia]).
  assert (P2 : 0 <= m2) by lia.
  set (n2 := fexp prec emax (Zdigits2 m2 + (E + N)) - (E + N)).
  destruct (shr_any m2 (E + N) n2 false false P2) as (r3 & E3 & M3 & _).
  cbn [shr_record_of_loc]. rewrite E3.
  exists m2, (Z.max 0 n2). split; [lia|]. split.
  { rewrite <- M1. destruct (shr_r r1); lia. }
  split; [|split; [|split]].
  - intros Hn. rewrite (R1 Hn), M1 in B. unfold N in *. rewrite Z.max_r in * by lia.
    pose proof (half_up q n Hq Hn) as H.
    assert (E2 : 2 ^ n = 2 * 2 ^ (n - 1)).
    { replace n with (Z.succ (n - 1)) at 1 by lia. apply Z.pow_succ_r. lia. }
    nia.
  - intros Hn. subst m2. rewrite (R0 Hn). cbn [shr_m]. rewrite <- Eq.
    by rewrite loc_of_record_of_loc.
  - intros HE. fold N in n2.
    assert (Q : shr_m r1 < 9007199254740992).
    { rewrite M1. apply Z.div_lt_upper_bound; [apply Z.pow_pos_nonneg; lia|].
      destruct q as [|q|q]; [apply Z.mul_pos_pos; [apply Z.pow_pos_nonneg|]; lia| |lia].
      pose proof (digits2_bounds q) as [_ Bq].
      eapply Z.lt_le_trans; [exact Bq|].
      change 9007199254740992 with (2 ^ 53). rewrite <- Z.pow_add_r by lia.
      apply Z.pow_le_mono_r; [lia|].
      subst N n. cbn [Zdigits2]. unfold fexp, emin, prec, emax. lia. }
    assert (B2 : m2 <= shr_m r1 + 1) by (destruct (shr_r r1); lia).
    assert (D : Zdigits2 m2 <= 54).
    { clearbody m2. clear B. destruct m2 as [|m2|m2]; cbn [Zdigits2]; [lia| |lia].
      apply digits2_le; [lia|]. change (2 ^ 54) with 18014398509481984. lia. }
    subst n2. unfold fexp, emin, prec, emax. lia.
  - rewrite M3, Z.add_assoc. reflexivity.
Qed.

Lemma Zdigits2_le (q d : Z) : 0 <= d -> 0 <= q < 2 ^ d -> Zdigits2 q <= d.
Proof.
  intros Hd [H0 H]. destruct q as [|q|q]; cbn [Zdigits2]; [lia| |lia].
  by apply digits2_le.
Qed.

End Quotients.

Section Minutes.
Import Double.
Local Open Scope Z_scope.

(** What the remainder [r] of a division by an even [C] adds to the
    quotient [q] when no bit is dropped: one, from half of [C] on. *)
Lemma round_quotient (q C r : Z) :
  0 <= r < C -> Z.even C = true ->
  2 * (C * round_nearest_even q (new_location C r)) <= 2 * (C * q + r) + C.
Proof.
  intros [H0 H1] Ev. unfold new_location. rewrite Ev. unfold new_location_even.
  destruct (Z.eqb_spec r 0) as [->|Hr]; cbn [round_nearest_even]; [nia|].
  destruct (Z.compare_spec (2 * r) C) as [E|E|E]; cbn [round_nearest_even].
  - destruct (Z.even q); nia.
  - nia.
  - nia.
Qed.

Lemma pow2_split (a b : Z) : 0 <= a -> 0 <= b -> 2 ^ (a + b) = 2 ^ a * 2 ^ b.
Proof. intros. by apply Z.pow_add_r. Qed.

(** The minutes: a number of seconds below [2^53], divided by 60 and
    floored, is the number of whole minutes.  The quotient is rounded, and
    the rounding never reaches the next minute. *)
Lemma div_60 (m : positive) (e : Z) :
  valid (S754_finite false m e) = true -> e <= 0 ->
  floorZ (div (S754_finite false m e) (of_Z 60)) = Some (Z.shiftl (Zpos m) e / 60) /\
  ((exists s, div (S754_finite false m e) (of_Z 60) = S754_zero s) \/
   exists m' e', div (S754_finite false m e) (of_Z 60) = S754_finite false m' e').
Proof.
  intros V He0.
  unfold valid, valid_binary, bounded in V. apply andb_true_iff in V as [V _].
  destruct (canonical_exponent _ _ V) as (He & D1 & Dn).
  pose proof (digits2_bounds m) as [Bl Bu].
  rewrite sixty. unfold div, SFdiv. cbn [xorb]. unfold SFdiv_core_binary.
  change (Zdigits2 (Zpos 8444249301319680)) with 53. cbn [Zdigits2].
  set (C := 8444249301319680).
  set (d1 := Zpos (digits2_pos m)) in *.
  set (e' := Z.min (fexp prec emax (d1 + e - (53 + - 47))) (e - - 47)).
  set (s := e - - 47 - e').
  assert (Regime : (d1 = 53 /\ e' = e - 6 /\ s = 53 /\ -1074 <= e')
                   \/ (d1 + e <= -1016 /\ e' = -1074 /\ s = e + 1121)).
  { subst s e'. unfold fexp, emin, prec, emax. lia. }
  assert (Hs : 47 <= s) by lia.
  assert (He' : -1074 <= e' <= -6) by lia.
  assert (M' : match s with
               | 0 => Zpos m
               | Zpos _ => Z.shiftl (Zpos m) s
               | Zneg _ => 0
               end = Zpos m * 2 ^ s).
  { destruct s as [|sp|sp] eqn:Es; [lia| |lia]. by rewrite Z.shiftl_mul_pow2. }
  rewrite M'. clear M'.
  set (m' := Zpos m * 2 ^ s).
  assert (S2 : 0 < 2 ^ s) by (apply Z.pow_pos_nonneg; lia).
  assert (Hm' : 0 <= m') by (subst m'; lia).
  destruct (Z.div_eucl m' C) as [q r] eqn:Ed.
  assert (Eq : q = m' / C) by (unfold Z.div; by rewrite Ed).
  assert (Er : r = m' mod C) by (unfold Z.modulo; by rewrite Ed).
  pose proof (Z.div_mod m' C ltac:(subst C; lia)) as DM. rewrite <- Eq, <- Er in DM.
  pose proof (Z.mod_pos_bound m' C ltac:(subst C; lia)) as Br. rewrite <- Er in Br.
  assert (Hq : 0 <= q) by (rewrite Eq; apply Z.div_pos; subst C; lia).
  destruct (round_any false q e' (new_location C r) Hq)
    as (m2 & N2 & HN2 & Bm2 & Up & Ex & N21 & ->).
  set (n := fexp prec emax (Zdigits2 q + e') - e') in *.
  set (N := Z.max 0 n) in *.
  specialize (N21 ltac:(lia)).
  (* the whole seconds and the whole minutes *)
  set (P := 2 ^ (- e)).
  assert (HP : 0 < P) by (apply Z.pow_pos_nonneg; lia).
  rewrite (Z.shiftl_div_pow2 (Zpos m) e He0). fold P.
  set (whole := Zpos m / P).
  set (K := whole / 60).
  pose proof (Z.div_mod (Zpos m) P ltac:(lia)) as DW. fold whole in DW.
  pose proof (Z.mod_pos_bound (Zpos m) P HP) as BW.
  pose proof (Z.div_mod whole 60 ltac:(lia)) as DK. fold K in DK.
  pose proof (Z.mod_pos_bound whole 60 ltac:(lia)) as BK.
  assert (HK : 0 <= K) by (apply Z.div_pos; [apply Z.div_pos|]; lia).
  set (g := (K + 1) * 60 * P - Zpos m).
  assert (Hg : 1 <= g) by (subst g; nia).
  set (W := 2 ^ (- e')).
  assert (HW : 0 < W) by (apply Z.pow_pos_nonneg; lia).
  assert (CW : C * W = 60 * P * 2 ^ s).
  { subst C W P. change 8444249301319680 with (60 * 2 ^ 47).
    rewrite <- !Z.mul_assoc. f_equal. rewrite <- !pow2_split by lia. f_equal. lia. }
  assert (Low : K * W <= q).
  { assert (K * W * C <= m') by (subst m'; nia). subst C. nia. }
  assert (NGap : N <= 1 /\ C * 2 ^ N < 2 * (2 ^ s * g)).
  { destruct Regime as [(Ed1 & Ee' & Es & _)|(Ed1 & Ee' & Es)].
    - assert (Q54 : q < 18014398509481984).
      { assert (Zpos m < 9007199254740992) by (by apply below_two53).
        assert (2 ^ s = 9007199254740992) by (by rewrite Es).
        subst m' C. nia. }
      assert (Dq : Zdigits2 q <= 54) by (apply Zdigits2_le; [lia|split; [lia|exact Q54]]).
      assert (N <= 1) by (subst N n; unfold fexp, emin, prec, emax; lia).
      assert (2 ^ N <= 2).
      { change 2 with (2 ^ 1) at 2. apply Z.pow_le_mono_r; lia. }
      assert (2 ^ s = 9007199254740992) by (by rewrite Es).
      split; [lia|]. subst C. nia.
    - assert (Bd : 2 ^ d1 * 2 ^ s <= 2 ^ 105).
      { rewrite <- pow2_split by lia. apply Z.pow_le_mono_r; lia. }
      assert (Q53 : q < 9007199254740992).
      { change (2 ^ 105) with (9007199254740992 * 4503599627370496) in Bd.
        subst m' C. nia. }
      assert (Dq : Zdigits2 q <= 53) by (apply Zdigits2_le; [lia|split; [lia|exact Q53]]).
      assert (N0 : N = 0) by (subst N n; unfold fexp, emin, prec, emax; lia).
      rewrite N0. split; [lia|].
      assert (mP : Zpos m < P).
      { eapply Z.lt_le_trans; [exact Bu|]. apply Z.pow_le_mono_r; lia. }
      assert (140737488355328 <= 2 ^ s).
      { change 140737488355328 with (2 ^ 47). apply Z.pow_le_mono_r; lia. }
      subst g C. nia. }
  destruct NGap as [N1 Gap].
  assert (PN : 0 < 2 ^ N) by (apply Z.pow_pos_nonneg; lia).
  assert (Up2 : 2 * (C * (m2 * 2 ^ N)) <= 2 * m' + C * 2 ^ N).
  { destruct (Z.le_gt_cases n 0) as [Hn|Hn].
    - rewrite (Ex Hn). replace N with 0 by lia. rewrite Z.pow_0_r, !Z.mul_1_r.
      pose proof (round_quotient q C r Br ltac:(reflexivity)) as RQ. lia.
    - specialize (Up Hn). subst C. nia. }
  assert (Top : m2 * 2 ^ N < (K + 1) * W).
  { assert (2 * (C * (m2 * 2 ^ N)) < 2 * (C * ((K + 1) * W))).
    { replace (C * ((K + 1) * W)) with ((K + 1) * (C * W)) by lia. rewrite CW.
      subst g m'. nia. }
    subst C. nia. }
  assert (PN2 : 0 < 2 ^ N2) by (apply Z.pow_pos_nonneg; lia).
  pose proof (Z.mul_div_le m2 (2 ^ N2) PN2) as L3.
  set (m3 := m2 / 2 ^ N2) in *.
  assert (Hq1 : 0 <= q / 2 ^ N) by (apply Z.div_pos; lia).
  assert (H3 : 0 <= m3) by (apply Z.div_pos; lia).
  assert (Hk : 0 <= N + N2 <= 2) by lia.
  assert (Top3 : m3 * 2 ^ (N + N2) < (K + 1) * 2 ^ (- e')).
  { fold W. rewrite pow2_split by lia.
    apply Z.le_lt_trans with (m2 * 2 ^ N); [|exact Top].
    replace (m3 * (2 ^ N * 2 ^ N2)) with (2 ^ N2 * m3 * 2 ^ N) by ring.
    apply Z.mul_le_mono_nonneg_r; lia. }
  set (W3 := 2 ^ (- (e' + (N + N2)))).
  assert (HW3 : 0 < W3) by (apply Z.pow_pos_nonneg; lia).
  assert (EW : W = W3 * 2 ^ (N + N2)).
  { subst W W3. rewrite <- pow2_split by lia. f_equal. lia. }
  assert (Low3 : K * W3 <= m3).
  { subst m3. apply Z.div_le_lower_bound; [lia|].
    assert (K * W3 * 2 ^ N2 * 2 ^ N <= q).
    { replace (K * W3 * 2 ^ N2 * 2 ^ N) with (K * W); [exact Low|].
      rewrite EW, pow2_split by lia. ring. }
    assert (K * W3 * 2 ^ N2 <= q / 2 ^ N).
    { apply Z.div_le_lower_bound; [lia|]. lia. }
    lia. }
  clearbody m3. destruct m3 as [|p3|p3]; [| |lia].
  - split; [|left; by eexists]. cbn [floorZ]. f_equal. clear - Low3 HW3 HK. nia.
  - rewrite (proj2 (Z.leb_le _ _)) by (unfold emax, prec; lia).
    split; [|right; by eexists _, _]. cbn [floorZ]. f_equal.
    pose proof (shiftl_below (Zpos p3) (N + N2) e' (K + 1) ltac:(lia) ltac:(lia)
                  ltac:(lia) ltac:(lia) Top3) as [_ U].
    assert (L : K <= Z.shiftl (Zpos p3) (e' + (N + N2))).
    { rewrite Z.shiftl_div_pow2 by lia. fold W3. apply Z.div_le_lower_bound; lia. }
    lia.
Qed.

End Minutes.

Section Formatting.
Import Double.
Local Open Scope Z_scope.

Lemma floor_toString (y : number) (k : Z) :
  floorZ y = Some k ->
  (exists s, y = S754_zero s) \/ (exists m e, y = S754_finite false m e) ->
  toString (floor y) = toString (of_Z k).
Proof.
  intros F [[s ->]|(m & e & ->)].
  - injection F as <-. reflexivity.
  - unfold floor. rewrite F. by destruct k.
Qed.

Lemma shiftl_negative (m : positive) (e : Z) : Z.shiftl (Zneg m) e < 0.
Proof.
  destruct (Z.le_gt_cases 0 e) as [H|H].
  - rewrite Z.shiftl_mul_pow2 by lia.
    assert (0 < 2 ^ e) by (apply Z.pow_pos_nonneg; lia). nia.
  - rewrite Z.shiftl_div_pow2 by lia.
    assert (0 < 2 ^ (- e)) by (apply Z.pow_pos_nonneg; lia).
    apply Z.div_lt_upper_bound; lia.
Qed.

Lemma whole_below_two53 (m : positive) (e : Z) :
  valid (S754_finite false m e) = true ->
  Z.shiftl (Zpos m) e < 9007199254740992 -> e <= 0.
Proof.
  intros V H. destruct (Z.le_gt_cases e 0) as [He|He]; [exact He|exfalso].
  unfold valid, valid_binary, bounded in V. apply andb_true_iff in V as [V _].
  destruct (canonical_exponent _ _ V) as (_ & _ & D).
  pose proof (from_two52 m (D ltac:(lia))) as B.
  rewrite Z.shiftl_mul_pow2 in H by lia.
  assert (2 <= 2 ^ e).
  { change 2 with (2 ^ 1) at 1. apply Z.pow_le_mono_r; lia. }
  nia.
Qed.

(** X14.  [formatTime] shows [NaN], an infinity and a negative number
    as [--:--].  For any other number of seconds below [2^53] it shows the
    whole minutes and the whole seconds that are left, these from 0 to 59:
    the quotient by 60 is rounded to a double before it is floored, and the
    rounding never takes it to the next minute. *)
Theorem formatTime_minutes_and_seconds (seconds : number) :
  (isFinite seconds = false \/ ltb seconds zero = true -> formatTime seconds = "--:--") /\
  (forall whole,
     valid seconds = true -> floorZ seconds = Some whole ->
     0 <= whole < 9007199254740992 ->
     formatTime seconds
     = toString (of_Z (whole / 60)) +:+ "m "
       +:+ JSON.stringify_int (whole mod 60) +:+ "s"
     /\ 0 <= whole mod 60 < 60).
Proof.
  split.
  - unfold formatTime. intros [H|H]; rewrite H; [reflexivity|].
    by rewrite orb_true_r.
  - intros whole V F Hw. split; [|apply Z.mod_pos_bound; lia].
    destruct seconds as [s|s| |s m e]; try discriminate F.
    + injection F as <-. by destruct s.
    + cbn [floorZ] in F. injection F as <-. destruct s.
      { pose proof (shiftl_negative m e). lia. }
      pose proof (whole_below_two53 m e V ltac:(lia)) as He.
      destruct (div_60 m e V He) as [Fd Sd].
      destruct (rem_60 m e V) as [Fr Sr].
      assert (Hr : 0 <= Z.shiftl (Zpos m) e mod 60 < 100).
      { pose proof (Z.mod_pos_bound (Z.shiftl (Zpos m) e) 60 ltac:(lia)). lia. }
      destruct (floor_small _ _ Fr Hr Sr) as (_ & _ & Tr).
      unfold formatTime. cbn [isFinite negb orb].
      change (ltb (S754_finite false m e) zero) with false. cbv iota.
      by rewrite (floor_toString _ _ Fd Sd), Tr.
Qed.

Lemma formatTime_minutes_and_seconds_witness :
  valid almost_1001 = true /\ floorZ almost_1001 = Some 1000 /\
  formatTime almost_1001 = "16m 40s".
Proof.
  assert (V : valid almost_1001 = true) by (vm_compute; reflexivity).
  assert (F : floorZ almost_1001 = Some 1000) by (vm_compute; reflexivity).
  split; [exact V|]. split; [exact F|].
  destruct (proj2 (formatTime_minutes_and_seconds almost_1001) 1000 V F ltac:(lia))
    as [E _].
  rewrite E. vm_compute. reflexivity.
Defined.

End Formatting.

Lemma hundredths_whole (b : Z) : (0 <= b)%Z -> hundredths (b * 100) = JSON.stringify_int b.
Proof.
  intros H. unfold hundredths. rewrite Z.mod_mul by lia. cbn [Z.eqb].
  by rewrite Z.div_mul by lia.
Qed.

(** X15.  [formatBytes] shows a size below 1024 as the number of
    bytes itself, with nothing after the point. *)
Theorem formatBytes_below_1024 (bytes : Z) :
  (0 <= bytes < 1024)%Z -> formatBytes bytes = JSON.stringify_int bytes +:+ " B".
Proof.
  intros H. unfold formatBytes.
  destruct (Z.eqb_spec bytes 0) as [->|Hne]; [reflexivity|].
  rewrite (proj2 (Z.ltb_ge _ _)) by lia.
  assert (L : (Z.log2 bytes / 10 = 0)%Z).
  { apply Z.div_small. split; [apply Z.log2_nonneg|].
    apply Z.log2_lt_pow2; lia. }
  rewrite L. change (1024 ^ 0)%Z with 1%Z. change (Z.to_nat 0) with 0. cbn [nth sizes].
  assert (N : Qfloor (inject_Z bytes / inject_Z 1 * 100 + (1 # 2)) = (bytes * 100)%Z).
  { unfold Qfloor, Qdiv, Qmult, Qplus, Qinv, inject_Z. cbn.
    rewrite !Z.mul_1_r.
    replace (bytes * 100 * 2 + 1)%Z with (1 + (bytes * 100) * 2)%Z by lia.
    rewrite Z.div_add by lia. reflexivity. }
  rewrite N, hundredths_whole by lia. reflexivity.
Qed.

Lemma formatBytes_below_1024_witness :
  (0 <= 512 < 1024)%Z /\ formatBytes 512 = "512 B".
Proof.
  assert (H : (0 <= 512 < 1024)%Z) by lia.
  split; [exact H|]. exact (formatBytes_below_1024 512 H).
Defined.

Section Names.
Import Double.
Local Open Scope Z_scope.

Lemma fifteen : of_Z 15 = S754_finite false 8444249301319680 (- 49).
Proof. reflexivity. Qed.

Lemma hundred : of_Z 100 = S754_finite false 7036874417766400 (- 46).
Proof. reflexivity. Qed.

Lemma random_15 (r : number) :
  random_number r ->
  exists k, floorZ (mul r (of_Z 15)) = Some k /\ 0 <= k < 15 /\
    ((exists s, mul r (of_Z 15) = S754_zero s)
     \/ exists m e, mul r (of_Z 15) = S754_finite false m e).
Proof.
  intros R.
  destruct (mul_random r 15 8444249301319680 49 R fifteen) as (s & k & F & Hk & Z);
    [reflexivity|lia|lia|].
  exists k. split; [exact F|]. split; [exact Hk|]. destruct Z as [Z|Z]; [left; by exists s|by right].
Qed.

Lemma random_100 (r : number) :
  random_number r ->
  exists k, floorZ (mul r (of_Z 100)) = Some k /\ 0 <= k < 100 /\
    ((exists s, mul r (of_Z 100) = S754_zero s)
     \/ exists m e, mul r (of_Z 100) = S754_finite false m e).
Proof.
  intros R.
  destruct (mul_random r 100 7036874417766400 46 R hundred) as (s & k & F & Hk & Z);
    [reflexivity|lia|lia|].
  exists k. split; [exact F|]. split; [exact Hk|]. destruct Z as [Z|Z]; [left; by exists s|by right].
Qed.

Lemma pick_in (random : number) (array : list string) :
  random_number random -> length array = 15%nat -> In (pick random array) array.
Proof.
  intros R L. unfold pick. rewrite L. change (Z.of_nat 15) with 15.
  destruct (random_15 random R) as (k & F & Hk & Z).
  destruct (floor_small _ k F ltac:(lia) Z) as (F1 & F2 & _).
  unfold at_index. rewrite F1, F2. rewrite (proj2 (Z.ltb_ge k 0)) by lia.
  cbn [orb negb]. apply nth_In. lia.
Qed.

(** X16.  Whatever [Math.random] returns, a double from 0 up to but not
    including 1, [generateName] gives an adjective of its list, an animal of
    its list and a number from 0 to 99: the products are rounded, and no
    rounding takes an index up to the length of its array. *)
Theorem generateName_is_well_formed (r1 r2 r3 : number) :
  random_number r1 -> random_number r2 -> random_number r3 ->
  exists adj animal num,
    generateName r1 r2 r3 = adj +:+ " " +:+ animal +:+ " " +:+ JSON.stringify_int num /\
    In adj adjectives /\ In animal animals /\ (0 <= num < 100)%Z.
Proof.
  intros R1 R2 R3. destruct (random_100 r3 R3) as (k & F & Hk & Z).
  destruct (floor_small _ k F Hk Z) as (_ & _ & S).
  exists (pick r1 adjectives), (pick r2 animals), k.
  split; [unfold generateName; by rewrite S|].
  split; [by apply pick_in|]. split; [by apply pick_in|]. exact Hk.
Qed.

Lemma generateName_is_well_formed_witness :
  random_number just_below_eight_fifteenths /\
  generateName just_below_eight_fifteenths just_below_eight_fifteenths
               just_below_eight_fifteenths = "Clever Wolf 53" /\
  exists adj animal num,
    generateName just_below_eight_fifteenths just_below_eight_fifteenths
                 just_below_eight_fifteenths
    = adj +:+ " " +:+ animal +:+ " " +:+ JSON.stringify_int num /\
    In adj adjectives /\ In animal animals /\ (0 <= num < 100)%Z.
Proof.
  assert (H : random_number just_below_eight_fifteenths) by (by vm_compute).
  split; [exact H|]. split; [vm_compute; reflexivity|].
  exact (generateName_is_well_formed _ _ _ H H H).
Defined.

End Names.

(** ** The component *)

Section ComponentSteps.
Import Client.

Lemma onBatchAnswer_spec (from : string) (accepted : bool) (c : Client) :
  let c' := onBatchAnswer from accepted c in
  page c' = page c /\ refs c' = refs c /\
  (accepted = true -> selectedFilesRef (refs c) <> [] ->
   is_Some (List.find (fun u => String.eqb (Server.id u) from) (usersRef (refs c))) ->
     toasts (ui c') = toasts (ui c) ++ [("Transfer accepted! Connecting...", "success");
                                        ("Socket not connected", "error")] /\
     batchStatus (ui c') = "connecting" /\
     connectionStatus (ui c') = "Connecting to peer...").
Proof.
  cbv zeta. unfold onBatchAnswer. destruct accepted; cbn [refs on_ui setBatchStatus
    setConnectionStatus addToast setSelectedFiles].
  - destruct (selectedFilesRef (refs c)) as [|f fs] eqn:Ef.
    + split; [reflexivity|]. split; [reflexivity|]. intros _ H. by destruct H.
    + destruct (List.find _ (usersRef (refs c))) as [u|] eqn:Eu.
      * unfold createSenderPeer. cbn. split; [reflexivity|]. split; [reflexivity|].
        intros _ _ _. rewrite <- app_assoc. done.
      * split; [reflexivity|]. split; [reflexivity|]. intros _ _ [? H]. discriminate H.
  - split; [reflexivity|]. split; [reflexivity|]. intros H. discriminate H.
Qed.

Lemma length_cleared (c : Client) :
  length (peers (page (clearConnectionTimeout c))) = length (peers (page c)).
Proof.
  unfold clearConnectionTimeout. destruct (connectionTimeoutRef (refs c)); [|done].
  cbn. apply length_alter.
Qed.

Lemma cleared_rest (c : Client) :
  ui (clearConnectionTimeout c) = ui c /\ refs (clearConnectionTimeout c) = refs c /\
  emitted (page (clearConnectionTimeout c)) = emitted (page c) /\
  socket_id (page (clearConnectionTimeout c)) = socket_id (page c).
Proof.
  unfold clearConnectionTimeout. by destruct (connectionTimeoutRef (refs c)).
Qed.

Lemma newPeer_spec (render : UI) (init : bool) (to : string) (fs : list File) (c : Client) :
  let c' := newPeer render init to fs c in
  peers (page c') = peers (page (clearConnectionTimeout c)) ++ [made render init to fs] /\
  peerRef (refs c') = Some (length (peers (page c))) /\
  emitted (page c') = emitted (page c) /\
  toasts (ui c') = toasts (ui c) /\
  incomingRequest (ui c') = incomingRequest (ui c) /\
  selectedFilesRef (refs c') = selectedFilesRef (refs c).
Proof.
  cbv zeta. unfold newPeer. cbn. rewrite length_cleared.
  destruct (cleared_rest c) as (E1 & E2 & E3 & _). rewrite E1, E2, E3. done.
Qed.

Lemma createReceiverPeer_spec (lib : Library) (render : UI) (fromId : string)
    (sig : option JSON.json) (c : Client) :
  let c' := createReceiverPeer lib render fromId sig c in
  let p := length (peers (page c)) in
  peerRef (refs c') = Some p /\
  (exists pr, peers (page c') !! p = Some pr /\
     initiator pr = false /\ remote pr = fromId /\ sender pr = myId render /\
     (sig = None -> pr = made render false fromId [])) /\
  emitted (page c') = emitted (page c) /\
  toasts (ui c') = toasts (ui c) /\
  incomingRequest (ui c') = incomingRequest (ui c).
Proof.
  cbv zeta. unfold createReceiverPeer.
  set (c0 := setBatchStatus "connecting" (setConnectionStatus "Creating P2P connection..." c)).
  change (length (peers (page c0))) with (length (peers (page c))).
  destruct (newPeer_spec render false fromId [] c0) as (P1 & P2 & P3 & P4 & P5 & _).
  set (c1 := newPeer render false fromId [] c0) in *.
  change (length (peers (page c0))) with (length (peers (page c))) in P2.
  assert (L : peers (page c1) !! length (peers (page c)) = Some (made render false fromId [])).
  { rewrite P1. apply list_lookup_middle. by rewrite length_cleared. }
  assert (N : peerRef (refs c1) = Some (length (peers (page c))) /\
              (exists pr, peers (page c1) !! length (peers (page c)) = Some pr /\
                 initiator pr = false /\ remote pr = fromId /\ sender pr = myId render /\
                 (sig = None -> pr = made render false fromId [])) /\
              emitted (page c1) = emitted (page c) /\ toasts (ui c1) = toasts (ui c) /\
              incomingRequest (ui c1) = incomingRequest (ui c)).
  { split; [exact P2|]. split; [|done]. eexists. split; [exact L|]. done. }
  destruct sig as [s|]; [|exact N].
  destruct (truthy (Some s)); [|exact N].
  unfold peer_signal. rewrite L.
  destruct (signal_error lib (made render false fromId []) s) as [message|].
  { destruct N as (N1 & (pr & N2 & N3) & N4). split; [exact N1|]. split; [|done].
    exists pr. split; [exact N2|exact N3]. }
  cbn [page on_page set_peers peers refs ui emitted].
  split; [exact P2|]. split; [|done].
  eexists. split; [rewrite list_lookup_alter_eq, L; reflexivity|]. done.
Qed.

Lemma handleFileSelect_spec (render : UI) (fs : list File) (c : Client) :
  let c' := handleFileSelect render fs c in
  peers (page c') = peers (page c) /\
  (fs = [] \/ selectedUserRef (refs c) = None \/ socket render = false ->
     emitted (page c') = emitted (page c)) /\
  (forall targetUser,
     fs <> [] -> selectedUserRef (refs c) = Some targetUser -> socket render = true ->
     emitted (page c')
     = emitted (page c)
       ++ [Server.on_batch_request (myId render) (Server.id targetUser)
             (JSON.JNum (Z.of_nat (length fs)) 0)
             (JSON.JStr (formatBytes (totalOf fs)))
             (JSON.JNum (totalOf fs) 0)] /\
     selectedFiles (ui c') = fs /\ selectedFilesRef (refs c') = fs /\
     selectedUserRef (refs c') = None).
Proof.
  cbv zeta. unfold handleFileSelect. destruct fs as [|f fs].
  { split; [reflexivity|]. split; [reflexivity|]. by intros u H. }
  cbn [refs addToast on_ui].
  destruct (selectedUserRef (refs c)) as [u|] eqn:Eu.
  2:{ split; [reflexivity|]. split; [reflexivity|]. intros u _ H. discriminate H. }
  destruct (socket render) eqn:Es; cbn [negb].
  - split; [reflexivity|]. split.
    + intros [H|[H|H]]; discriminate H.
    + intros targetUser _ [= <-] _. repeat split.
  - split; [reflexivity|]. split; [reflexivity|]. intros targetUser _ _ H. discriminate H.
Qed.

Lemma handleBatch_spec (lib : Library) (render : UI) (c : Client) :
  (incomingRequest render = None \/ socket render = false ->
     handleBatchAccept lib render c = c /\ handleBatchDecline render c = c) /\
  (forall rq, incomingRequest render = Some rq -> socket render = true ->
     let a := handleBatchAccept lib render c in
     let d := handleBatchDecline render c in
     emitted (page a) = emitted (page c) ++ [Server.on_batch_answer (from rq) true] /\
     incomingRequest (ui a) = None /\
     peerRef (refs a) = Some (length (peers (page c))) /\
     peers (page a) !! length (peers (page c))
     = Some {| initiator := false; remote := from rq; sender := myId render;
               files := []; sees_connected := connected render; timer := true;
               signalled := []; destroyed := false |} /\
     emitted (page d) = emitted (page c) ++ [Server.on_batch_answer (from rq) false] /\
     incomingRequest (ui d) = None /\
     peers (page d) = peers (page c) /\ refs d = refs c).
Proof.
  split.
  - unfold handleBatchAccept, handleBatchDecline. intros [H|H].
    + by rewrite H.
    + rewrite H. by destruct (incomingRequest render).
  - intros rq Hr Hs. cbv zeta. unfold handleBatchAccept, handleBatchDecline.
    rewrite Hr, Hs.
    set (c0 := setConnectionStatus "Connecting to peer..."
                 (setBatchStatus "connecting" (addToast "Accepting transfer..." "success" c))).
    destruct (createReceiverPeer_spec lib render (from rq) None c0)
      as (P1 & (pr & P2 & _ & _ & _ & P2') & P3 & _).
    rewrite (P2' eq_refl) in P2.
    change (length (peers (page c0))) with (length (peers (page c))) in P1, P2.
    change (emitted (page c0)) with (emitted (page c)) in P3.
    cbn [page ui refs on_ui on_page emit setIncomingRequest addToast emitted peers
         incomingRequest].
    rewrite P1, P2, P3. done.
Qed.

Lemma generateName_not_empty (r1 r2 r3 : Double.number) : generateName r1 r2 r3 <> EmptyString.
Proof. unfold generateName. by destruct (pick r1 adjectives). Qed.

Lemma storedName_not_empty (stored : option string) (r1 r2 r3 : Double.number) :
  storedName stored r1 r2 r3 <> EmptyString.
Proof.
  unfold storedName. destruct stored as [n|]; [|apply generateName_not_empty].
  destruct (String.eqb n EmptyString) eqn:E; [apply generateName_not_empty|].
  by apply String.eqb_neq.
Qed.

End ComponentSteps.

Section ComponentRuns.
Import Client.

Lemma calm_alter (f : Peer -> Peer) (p : nat) (c : Client) :
  (forall pr, initiator (f pr) = initiator pr) ->
  calm (page c) -> calm (page (set_peers (alter f p (peers (page c))) c)).
Proof.
  intros Hf [H1 H2]. split; [|exact H2]. cbn.
  apply Forall_alter; [exact H1|]. intros pr _ E. by rewrite Hf.
Qed.

Lemma calm_clear (c : Client) : calm (page c) -> calm (page (clearConnectionTimeout c)).
Proof.
  intros H. unfold clearConnectionTimeout.
  destruct (connectionTimeoutRef (refs c)); [|exact H]. by apply calm_alter.
Qed.

Lemma calm_newPeer (render : UI) (to : string) (fs : list File) (c : Client) :
  calm (page c) -> calm (page (newPeer render false to fs c)).
Proof.
  intros H. apply calm_clear in H as [H1 H2]. unfold newPeer. cbn. split; [|exact H2].
  apply Forall_app. split; [exact H1|]. by repeat constructor.
Qed.

Lemma calm_createReceiverPeer (lib : Library) (render : UI) (fromId : string)
    (sig : option JSON.json) (c : Client) :
  calm (page c) -> calm (page (createReceiverPeer lib render fromId sig c)).
Proof.
  intros H. unfold createReceiverPeer.
  set (c1 := newPeer render false fromId [] _).
  assert (H1 : calm (page c1)) by (by apply calm_newPeer).
  destruct sig as [s|]; [|exact H1].
  destruct (truthy (Some s)); [|exact H1].
  unfold peer_signal. destruct (peers (page c1) !! _) as [pr|]; [|exact H1].
  destruct (signal_error lib pr s); [exact H1|]. by apply calm_alter.
Qed.

Lemma calm_same (c c' : Client) :
  peers (page c') = peers (page c) -> sending (page c') = sending (page c) ->
  calm (page c) -> calm (page c').
Proof. intros E1 E2 [H1 H2]. split; by rewrite ?E1, ?E2. Qed.

Ltac still c := apply (calm_same c); [reflexivity..|].

Ltac below X :=
  let Y := fresh "Y" in
  let HY := fresh "HY" in
  cut (calm (page X));
  [generalize X; intros Y HY; apply (calm_same Y); [reflexivity..|exact HY]|].

Lemma calm_step (lib : Library) (c : Client) (ev : Event) :
  calm (page c) -> calm (page (step lib c ev)).
Proof.
  intros H. destruct ev as [id| | |m|user|fs|items user| | |p sig|p state|p|p message|p|p];
    cbn [step].
  - by still c.
  - by still c.
  - by still c.
  - destruct m as [id|userList|sig from|from fromName fileCount totalSize totalBytes
                   |from accepted].
    + by still c.
    + unfold onUsers. by still c.
    + unfold onSignal. destruct (peerRef (refs c)) as [p|].
      * unfold peer_signal. destruct (peers (page c) !! p) as [pr|]; [|by still c].
        destruct (signal_error lib pr sig); [by still c|].
        match goal with |- calm (page (addToast _ _ ?X)) => below X end.
        by apply (calm_alter (take_signal sig)).
      * by apply calm_createReceiverPeer.
    + by still c.
    + by rewrite (proj1 (onBatchAnswer_spec from accepted c)).
  - by still c.
  - unfold handleFileSelect. destruct fs as [|f fs]; [by still c|].
    cbn [refs on_ui addToast]. destruct (selectedUserRef (refs c)); [|by still c].
    destruct (socket (ui c)); by still c.
  - unfold handleDrop. destruct (omap _ items); [exact H|].
    destruct (socket (ui c)); by still c.
  - unfold handleBatchAccept. destruct (incomingRequest (ui c)) as [rq|]; [|exact H].
    destruct (socket (ui c)); [|exact H]. cbv zeta.
    match goal with |- calm (page (setIncomingRequest None (emit _ ?X))) => below X end.
    apply calm_createReceiverPeer. by still c.
  - unfold handleBatchDecline. destruct (incomingRequest (ui c)) as [rq|]; [|exact H].
    destruct (socket (ui c)); by still c.
  - unfold onPeerSignal. destruct (peers (page c) !! p); by still c.
  - unfold onPeerIceStateChange. destruct (peers (page c) !! p) as [pr|]; [|exact H].
    destruct (initiator pr); by still c.
  - unfold onPeerConnect. destruct (peers (page c) !! p) as [pr|] eqn:E; [|exact H].
    assert (I : initiator pr = false).
    { destruct H as [H _]. rewrite Forall_lookup in H. exact (H p pr E). }
    rewrite I. cbv zeta. apply calm_clear in H.
    generalize dependent (clearConnectionTimeout c). intros Y HY. by still Y.
  - unfold onPeerError. destruct (peers (page c) !! p) as [pr|]; [|exact H].
    cbv zeta. apply calm_clear. by still c.
  - unfold onPeerClose. destruct (peers (page c) !! p) as [pr|]; [|exact H].
    destruct (initiator pr); by still c.
  - unfold onTimeout. destruct (peers (page c) !! p) as [pr|]; [|exact H].
    destruct (timer pr); [|exact H].
    assert (H1 : calm (page (set_peers (alter (set_timer false) p (peers (page c))) c)))
      by (by apply (calm_alter (set_timer false))).
    destruct (sees_connected pr); cbn [negb]; [exact H1|]. cbv zeta.
    match goal with |- calm (page (set_peers (alter destroy p (peers (page ?X))) ?X)) =>
      apply (calm_alter destroy p X); [done|]
    end.
    match goal with
    | |- calm (page (setBatchStatus _ (setConnectionStatus _ (addToast _ _ ?X)))) => below X
    end.
    exact H1.
Qed.

Lemma calm_mount (stored : option string) (r1 r2 r3 : Double.number) (webrtc : bool) :
  calm (page (mount stored r1 r2 r3 webrtc)).
Proof. unfold mount. destruct webrtc; by split. Qed.

(** X17.  In no run of the component, from its mount and under any
    events, is a peer made that initiates a connection, and [sendFiles] is
    never called: the handler of ['batch-answer'] belongs to the first
    render, in which [socket] is still [null], so that [createSenderPeer]
    returns at its guard. *)
Theorem client_never_sends (lib : Library)
    (stored : option string) (r1 r2 r3 : Double.number) (webrtc : bool) (events : list Event) :
  let c := run lib (mount stored r1 r2 r3 webrtc) events in
  Forall (fun p => initiator p = false) (peers (page c)) /\ sending (page c) = [].
Proof.
  cbv zeta. unfold run.
  assert (G : forall c0, calm (page c0) -> calm (page (fold_left (step lib) events c0))).
  { induction events as [|ev evs IH]; intros c0 H0; [exact H0|].
    cbn [fold_left]. apply IH. by apply calm_step. }
  apply G, calm_mount.
Qed.

Lemma tidy_same (c c' : Client) :
  usersRef (refs c') = usersRef (refs c) -> users (ui c') = users (ui c) ->
  peerRef (refs c') = peerRef (refs c) -> peer (ui c') = peer (ui c) ->
  connectionTimeoutRef (refs c') = connectionTimeoutRef (refs c) ->
  peers (page c') = peers (page c) ->
  tidy c -> tidy c'.
Proof.
  intros E1 E2 E3 E4 E5 E6 [I1 I2 I3 I4 I5].
  split; rewrite ?E1, ?E2, ?E3, ?E4, ?E5, ?E6; assumption.
Qed.

Lemma tidy_alter (f : Peer -> Peer) (p : nat) (c : Client) :
  (forall pr, timer (f pr) = true -> timer pr = true) ->
  tidy c -> tidy (set_peers (alter f p (peers (page c))) c).
Proof.
  intros Hf [I1 I2 I3 I4 I5]. split; cbn; try assumption.
  - intros q Hq. rewrite length_alter. by apply I4.
  - intros q pr Hq Ht. rewrite list_lookup_alter in Hq.
    destruct (decide (p = q)) as [->|Hne].
    + destruct (peers (page c) !! q) as [pr0|] eqn:E; [|discriminate Hq].
      injection Hq as <-. eapply I5; [exact E|]. by apply Hf.
    + eapply I5; [exact Hq|exact Ht].
Qed.

Lemma tidy_clear (c : Client) :
  tidy c ->
  tidy (clearConnectionTimeout c) /\
  forall q pr, peers (page (clearConnectionTimeout c)) !! q = Some pr -> timer pr = false.
Proof.
  intros H. unfold clearConnectionTimeout.
  destruct (connectionTimeoutRef (refs c)) as [t|] eqn:Et.
  - split; [by apply tidy_alter|].
    intros q pr Hq. cbn in Hq. rewrite list_lookup_alter in Hq.
    destruct (decide (t = q)) as [->|Hne].
    + destruct (peers (page c) !! q); [|discriminate Hq]. by injection Hq as <-.
    + destruct (timer pr) eqn:Ep; [|reflexivity].
      pose proof (one_timeout c H q pr Hq Ep) as E. congruence.
  - split; [exact H|]. intros q pr Hq. destruct (timer pr) eqn:Ep; [|reflexivity].
    pose proof (one_timeout c H q pr Hq Ep) as E. congruence.
Qed.

Lemma tidy_newPeer (render : UI) (init : bool) (to : string) (fs : list File) (c : Client) :
  tidy c -> tidy (newPeer render init to fs c).
Proof.
  intros H. destruct (tidy_clear c H) as [[I1 I2 I3 I4 I5] Hoff].
  unfold newPeer. set (c0 := clearConnectionTimeout c) in *.
  split; cbn; try assumption; try reflexivity.
  - intros p [= <-]. rewrite length_app. cbn. lia.
  - intros q pr Hq Ht.
    destruct (decide (q = length (peers (page c0)))) as [->|Hne]; [reflexivity|].
    exfalso. apply lookup_app_Some in Hq as [Hq|[Hl Hq]].
    + rewrite (Hoff q pr Hq) in Ht. discriminate Ht.
    + destruct (q - length (peers (page c0))) as [|k] eqn:Ek; [lia|].
      by destruct k.
Qed.

Lemma tidy_peer_signal (lib : Library) (p : nat) (sig : JSON.json) (c c' : Client) :
  tidy c -> peer_signal lib p sig c = inl c' -> tidy c'.
Proof.
  intros H. unfold peer_signal. destruct (peers (page c) !! p) as [pr|].
  - destruct (signal_error lib pr sig); [discriminate|]. intros [= <-]. by apply tidy_alter.
  - by intros [= <-].
Qed.

Lemma tidy_createReceiverPeer (lib : Library) (render : UI) (fromId : string)
    (sig : option JSON.json) (c : Client) :
  tidy c -> tidy (createReceiverPeer lib render fromId sig c).
Proof.
  intros H. unfold createReceiverPeer.
  set (c0 := setBatchStatus "connecting" (setConnectionStatus "Creating P2P connection..." c)).
  assert (H0 : tidy c0) by (by apply (tidy_same c)).
  apply (tidy_newPeer render false fromId []) in H0.
  set (c1 := newPeer render false fromId [] c0) in *.
  destruct sig as [s|]; [|exact H0].
  destruct (truthy (Some s)); [|exact H0].
  destruct (peer_signal lib _ s c1) as [c2|message] eqn:E.
  - exact (tidy_peer_signal lib _ s c1 c2 H0 E).
  - by apply (tidy_same c1).
Qed.

Ltac same c := apply (tidy_same c); [reflexivity..|].

Ltac under X :=
  let Y := fresh "Y" in
  let HY := fresh "HY" in
  cut (tidy X);
  [generalize X; intros Y HY; apply (tidy_same Y); [reflexivity..|exact HY]|].

Lemma tidy_step (lib : Library) (c : Client) (ev : Event) :
  tidy c -> tidy (step lib c ev).
Proof.
  intros H. destruct ev as [id| | |m|user|fs|items user| | |p sig|p state|p|p message|p|p];
    cbn [step].
  - by same c.
  - by same c.
  - by same c.
  - destruct m as [id|userList|sig from|from fromName fileCount totalSize totalBytes
                   |from accepted].
    + by same c.
    + destruct H as [I1 I2 I3 I4 I5]. by split.
    + unfold onSignal. destruct (peerRef (refs c)) as [p|] eqn:Ep.
      * destruct (peer_signal lib p sig c) as [c1|] eqn:E; [|by same c].
        same c1. exact (tidy_peer_signal lib p sig c c1 H E).
      * by apply tidy_createReceiverPeer.
    + by same c.
    + unfold onBatchAnswer. destruct accepted; [|by same c].
      cbn [refs on_ui addToast setBatchStatus setConnectionStatus].
      destruct (selectedFilesRef (refs c)); [by same c|].
      destruct (List.find _ _); by same c.
  - destruct H as [I1 I2 I3 I4 I5]. by split.
  - unfold handleFileSelect. destruct fs as [|f fs]; [by same c|].
    cbn [refs on_ui addToast]. destruct (selectedUserRef (refs c)); [|by same c].
    destruct (socket (ui c)); by same c.
  - unfold handleDrop. destruct (omap _ items); [exact H|].
    destruct (socket (ui c)); by same c.
  - unfold handleBatchAccept. destruct (incomingRequest (ui c)) as [rq|]; [|exact H].
    destruct (socket (ui c)); [|exact H]. cbv zeta.
    match goal with |- tidy (setIncomingRequest None (emit _ ?X)) => under X end.
    apply tidy_createReceiverPeer. by same c.
  - unfold handleBatchDecline. destruct (incomingRequest (ui c)) as [rq|]; [|exact H].
    destruct (socket (ui c)); by same c.
  - unfold onPeerSignal. destruct (peers (page c) !! p); by same c.
  - unfold onPeerIceStateChange. destruct (peers (page c) !! p) as [pr|]; [|exact H].
    destruct (initiator pr); by same c.
  - unfold onPeerConnect. destruct (peers (page c) !! p) as [pr|] eqn:E; [|exact H].
    cbv zeta. apply tidy_clear in H as [H _].
    destruct (initiator pr); [destruct (files pr)|];
      (generalize dependent (clearConnectionTimeout c); intros Y HY; by same Y).
  - unfold onPeerError. destruct (peers (page c) !! p) as [pr|]; [|exact H].
    cbv zeta. apply tidy_clear. by same c.
  - unfold onPeerClose. destruct (peers (page c) !! p) as [pr|]; [|exact H].
    destruct (initiator pr); by same c.
  - unfold onTimeout. destruct (peers (page c) !! p) as [pr|]; [|exact H].
    destruct (timer pr); [|exact H].
    assert (H1 : tidy (set_peers (alter (set_timer false) p (peers (page c))) c)).
    { apply tidy_alter; [|exact H]. intros q Hq. discriminate Hq. }
    destruct (sees_connected pr); cbn [negb]; [exact H1|]. cbv zeta.
    match goal with |- tidy (set_peers (alter destroy p (peers (page ?X))) ?X) =>
      apply (tidy_alter destroy p X); [done|]
    end.
    match goal with |- tidy (setBatchStatus _ (setConnectionStatus _ (addToast _ _ ?X))) =>
      under X end.
    exact H1.
Qed.

Lemma tidy_mount (stored : option string) (r1 r2 r3 : Double.number) (webrtc : bool) :
  tidy (mount stored r1 r2 r3 webrtc).
Proof.
  unfold mount. destruct webrtc; (split; cbn; try reflexivity;
    [intros p E; discriminate E|intros q pr E; by rewrite lookup_nil in E]).
Qed.

(** X18.  In every run of the component, [usersRef] holds what
    [users] holds, [peerRef] and [connectionTimeoutRef] name the peer that
    [peer] names, which has been made, and no timeout but that of this peer
    is pending. *)
Theorem refs_follow_the_state (lib : Library)
    (stored : option string) (r1 r2 r3 : Double.number) (webrtc : bool) (events : list Event) :
  let c := run lib (mount stored r1 r2 r3 webrtc) events in
  usersRef (refs c) = users (ui c) /\
  peerRef (refs c) = peer (ui c) /\
  connectionTimeoutRef (refs c) = peerRef (refs c) /\
  (forall p, peerRef (refs c) = Some p -> p < length (peers (page c))) /\
  (forall q pr, peers (page c) !! q = Some pr -> timer pr = true ->
     peerRef (refs c) = Some q).
Proof.
  cbv zeta. unfold run.
  assert (G : forall c0, tidy c0 -> tidy (fold_left (step lib) events c0)).
  { induction events as [|ev evs IH]; intros c0 H0; [exact H0|].
    cbn [fold_left]. apply IH. by apply tidy_step. }
  destruct (G _ (tidy_mount stored r1 r2 r3 webrtc)) as [I1 I2 I3 I4 I5].
  repeat split; try assumption. intros q pr Hq Ht. rewrite <- I3. by eapply I5.
Qed.

Lemma kept_createReceiverPeer (lib : Library) (render : UI) (fromId : string)
    (sig : option JSON.json) (c : Client) :
  selectedFilesRef (refs (createReceiverPeer lib render fromId sig c))
  = selectedFilesRef (refs c).
Proof.
  unfold createReceiverPeer.
  set (c0 := setBatchStatus "connecting" (setConnectionStatus "Creating P2P connection..." c)).
  destruct (newPeer_spec render false fromId [] c0) as (_ & _ & _ & _ & _ & P).
  change (selectedFilesRef (refs c0)) with (selectedFilesRef (refs c)) in P.
  set (c1 := newPeer render false fromId [] c0) in *.
  destruct sig as [s|]; [|exact P].
  destruct (truthy (Some s)); [|exact P].
  unfold peer_signal. destruct (peers (page c1) !! _) as [pr|]; [|exact P].
  destruct (signal_error lib pr s); exact P.
Qed.

Lemma kept_onSignal (lib : Library) (sig : JSON.json) (from : string) (c : Client) :
  selectedFilesRef (refs (onSignal lib sig from c)) = selectedFilesRef (refs c).
Proof.
  unfold onSignal. destruct (peerRef (refs c)) as [p|].
  - unfold peer_signal. destruct (peers (page c) !! p) as [pr|]; [|done].
    by destruct (signal_error lib pr sig).
  - apply kept_createReceiverPeer.
Qed.

Lemma kept_handleFileSelect (render : UI) (fs : list File) (c : Client) :
  selectedFilesRef (refs (handleFileSelect render fs c)) = selectedFilesRef (refs c) \/
  selectedFilesRef (refs (handleFileSelect render fs c)) <> [].
Proof.
  unfold handleFileSelect. destruct fs as [|f fs]; [by left|].
  cbn [refs on_ui addToast]. destruct (selectedUserRef (refs c)); [|by left].
  right. by destruct (socket render).
Qed.

Lemma kept_handleDrop (render : UI) (items : list (option File)) (user : Server.User)
    (c : Client) :
  selectedFilesRef (refs (handleDrop render items user c)) = selectedFilesRef (refs c).
Proof.
  unfold handleDrop. destruct (omap _ items); [done|]. by destruct (socket render).
Qed.

Lemma kept_same (c c' : Client) (l : list File) :
  refs c' = refs c -> selectedFilesRef (refs c) = l -> selectedFilesRef (refs c') = l.
Proof. by intros ->. Qed.

Lemma kept_handleBatchAccept (lib : Library) (render : UI) (c : Client) :
  selectedFilesRef (refs (handleBatchAccept lib render c)) = selectedFilesRef (refs c).
Proof.
  unfold handleBatchAccept. destruct (incomingRequest render) as [rq|]; [|done].
  destruct (socket render); [|done]. cbv zeta.
  match goal with
  | |- selectedFilesRef (refs (setIncomingRequest None (emit _ ?X))) = _ =>
      cut (selectedFilesRef (refs X) = selectedFilesRef (refs c));
      [generalize X; intros Y HY; apply (kept_same Y); [reflexivity|exact HY]|]
  end.
  by rewrite kept_createReceiverPeer.
Qed.

Lemma kept_handleBatchDecline (render : UI) (c : Client) :
  selectedFilesRef (refs (handleBatchDecline render c)) = selectedFilesRef (refs c).
Proof.
  unfold handleBatchDecline. destruct (incomingRequest render) as [rq|]; [|done].
  by destruct (socket render).
Qed.

Lemma kept_onPeerConnect (p : nat) (c : Client) :
  selectedFilesRef (refs (onPeerConnect p c)) = selectedFilesRef (refs c).
Proof.
  unfold onPeerConnect. destruct (peers (page c) !! p) as [pr|]; [|done].
  cbv zeta. destruct (cleared_rest c) as (_ & E & _). rewrite <- E.
  generalize (clearConnectionTimeout c). intros Y.
  destruct (initiator pr); [by destruct (files pr)|done].
Qed.

Lemma kept_onPeerError (p : nat) (message : string) (c : Client) :
  selectedFilesRef (refs (onPeerError p message c)) = selectedFilesRef (refs c).
Proof.
  unfold onPeerError. destruct (peers (page c) !! p) as [pr|]; [|done].
  cbv zeta.
  match goal with
  | |- selectedFilesRef (refs (clearConnectionTimeout ?X)) = _ =>
      destruct (cleared_rest X) as (_ & E & _); by rewrite E
  end.
Qed.

Lemma kept_onTimeout (p : nat) (c : Client) :
  selectedFilesRef (refs (onTimeout p c)) = selectedFilesRef (refs c).
Proof.
  unfold onTimeout. destruct (peers (page c) !! p) as [pr|]; [|done].
  destruct (timer pr); [|done]. by destruct (sees_connected pr).
Qed.

Lemma kept_step (lib : Library) (c : Client) (ev : Event) :
  selectedFilesRef (refs (step lib c ev)) = selectedFilesRef (refs c) \/
  selectedFilesRef (refs (step lib c ev)) <> [].
Proof.
  destruct ev as [id| | |m|user|fs|items user| | |p sig|p state|p|p message|p|p];
    cbn [step]; try (by left).
  - left. destruct m as [id|userList|sig from|from fromName fileCount totalSize totalBytes
                         |from accepted]; try done.
    + apply kept_onSignal.
    + by rewrite (proj1 (proj2 (onBatchAnswer_spec from accepted c))).
  - apply kept_handleFileSelect.
  - left. apply kept_handleDrop.
  - left. apply kept_handleBatchAccept.
  - left. apply kept_handleBatchDecline.
  - left. unfold onPeerSignal. by destruct (peers (page c) !! p).
  - left. unfold onPeerIceStateChange. destruct (peers (page c) !! p) as [pr|]; [|done].
    by destruct (initiator pr).
  - left. apply kept_onPeerConnect.
  - left. apply kept_onPeerError.
  - left. unfold onPeerClose. destruct (peers (page c) !! p) as [pr|]; [|done].
    by destruct (initiator pr).
  - left. apply kept_onTimeout.
Qed.

(** X19.  [selectedFilesRef] is written by [handleFileSelect] alone, and
    with files: once some have been chosen it is never empty again,
    whatever happens next.  A declining answer empties [selectedFiles] and
    leaves the ref with the files that were declined. *)
Theorem chosen_files_stay_in_the_ref (lib : Library) (c : Client) (events : list Event)
    (from : string) :
  (selectedFilesRef (refs c) <> [] -> selectedFilesRef (refs (run lib c events)) <> []) /\
  selectedFiles (ui (step lib c (received (Server.batch_answer from false)))) = [] /\
  selectedFilesRef (refs (step lib c (received (Server.batch_answer from false))))
  = selectedFilesRef (refs c).
Proof.
  split; [|by split]. unfold run. revert c.
  induction events as [|ev evs IH]; intros c H; [exact H|].
  cbn [fold_left]. apply IH. destruct (kept_step lib c ev) as [E|E]; [by rewrite E|exact E].
Qed.

Lemma chosen_files_stay_in_the_ref_witness :
  selectedFilesRef (refs ann_asked) <> [] /\
  selectedFilesRef (refs (run plain ann_asked
    [received (Server.batch_answer "b1" false); files_chosen [];
     received (Server.batch_answer "b1" true)])) <> [].
Proof.
  assert (H : selectedFilesRef (refs ann_asked) <> []) by discriminate.
  split; [exact H|].
  exact (proj1 (chosen_files_stay_in_the_ref plain ann_asked
    [received (Server.batch_answer "b1" false); files_chosen [];
     received (Server.batch_answer "b1" true)] "b1") H).
Defined.

End ComponentRuns.

Section ComponentHandlers.
Import Client.

(** X20.  [handleDrop] leaves [selectedFilesRef] as it is.  Files
    dropped on a user on a client that has selected nothing through the
    file input are therefore not offered: an accepting answer ends with the
    toast [No files selected] and [batchStatus] back to [idle]. *)
Theorem dropped_files_are_not_offered (render : UI) (items : list (option File))
    (user : Server.User) (from : string) (c : Client) :
  let c1 := handleDrop render items user c in
  selectedFilesRef (refs c1) = selectedFilesRef (refs c) /\
  (selectedFilesRef (refs c) = [] ->
     let c2 := onBatchAnswer from true c1 in
     toasts (ui c2) = toasts (ui c1) ++ [("Transfer accepted! Connecting...", "success");
                                         ("No files selected", "error")] /\
     batchStatus (ui c2) = "idle" /\ page c2 = page c1).
Proof.
  cbv zeta.
  assert (E : selectedFilesRef (refs (handleDrop render items user c))
              = selectedFilesRef (refs c)).
  { unfold handleDrop. destruct (omap _ items); [reflexivity|].
    by destruct (socket render). }
  split; [exact E|]. intros H. unfold onBatchAnswer.
  cbn [refs on_ui setBatchStatus setConnectionStatus addToast].
  rewrite E, H. cbn. rewrite <- app_assoc. done.
Qed.

(** X21.  A peer made by the handler of ['signal'], when no peer was
    there, is not an initiator and answers to the sender of the signal; it
    belongs to the first render, in which [myId] is still empty, so that
    every signal it emits carries an empty [from]. *)
Theorem peer_made_on_a_signal_has_no_id (lib : Library)
    (sig : JSON.json) (from : string) (c : Client) :
  peerRef (refs c) = None ->
  let c1 := onSignal lib sig from c in
  let p := length (peers (page c)) in
  peerRef (refs c1) = Some p /\
  (exists pr, peers (page c1) !! p = Some pr /\
     initiator pr = false /\ remote pr = from /\ sender pr = EmptyString) /\
  forall s c2, peers (page c2) !! p = peers (page c1) !! p ->
    emitted (page (onPeerSignal lib p s c2))
    = emitted (page c2) ++ [Server.on_signal from s EmptyString].
Proof.
  intros Hp. cbv zeta. unfold onSignal. rewrite Hp.
  destruct (createReceiverPeer_spec lib first_render from (Some sig) c)
    as (P1 & (pr & P2 & P3 & P4 & P5 & _) & _).
  split; [exact P1|]. split.
  - exists pr. done.
  - intros s c2 E. unfold onPeerSignal. rewrite E, P2.
    cbn [page on_ui on_page addToast emit emitted]. by rewrite P4, P5.
Qed.

Lemma peer_made_on_a_signal_has_no_id_witness :
  peerRef (refs ann) = None /\
  peerRef (refs (onSignal plain JSON.JNull "b1" ann)) = Some (length (peers (page ann))).
Proof.
  assert (H : peerRef (refs ann) = None) by reflexivity.
  split; [exact H|].
  exact (proj1 (peer_made_on_a_signal_has_no_id plain JSON.JNull "b1" ann H)).
Defined.

End ComponentHandlers.

Section ComponentAndRelay.
Import Client.

(** X22.  The name under which a client joins is never empty, so that
    the relay registers it under this very name and never under
    [User-] and a piece of its id. *)
Theorem client_joins_under_its_name (lib : Library)
    (stored : option string) (r1 r2 r3 : Double.number) (id : string) (st : Server.State) :
  let c := step lib (mount stored r1 r2 r3 true) (connect id) in
  let n := storedName stored r1 r2 r3 in
  n <> EmptyString /\
  emitted (page c) = [Server.join (Some n)] /\
  Server.users (Server.step st id (Server.join (Some n))).1 !! id
  = Some {| Server.id := id; Server.name := n |}.
Proof.
  cbv zeta. split; [apply storedName_not_empty|]. split; [reflexivity|].
  cbn [Server.step fst Server.users]. rewrite lookup_insert_eq.
  destruct (String.eqb _ EmptyString) eqn:E; [|reflexivity].
  apply String.eqb_eq in E. by destruct (storedName_not_empty stored r1 r2 r3).
Qed.

(** X23.  A request made by choosing files for a clicked user, on a
    client whose id is registered, is emitted once, is relayed to the chosen
    user alone, and is shown there under the registered name of the
    requester, with the number of files and the size as the requester
    computed them. *)
Theorem request_reaches_the_chosen_peer (trace : list (string * Server.Event))
    (st : Server.State) (a b : Client) (fs : list File) (target me : Server.User)
    (sid : string) :
  Server.run Server.init trace = Some st ->
  fs <> [] -> socket (ui a) = true -> selectedUserRef (refs a) = Some target ->
  Server.users st !! myId (ui a) = Some me -> Server.name me <> EmptyString ->
  Server.id target ∈ Server.sockets st ->
  exists ev m,
    emitted (page (handleFileSelect (ui a) fs a)) = emitted (page a) ++ [ev] /\
    (Server.step st sid ev).2 = [(Server.id target, m)] /\
    forall lib,
      incomingRequest (ui (step lib b (received m)))
      = Some {| from := myId (ui a); fromName := Server.name me;
                fileCount := JSON.JNum (Z.of_nat (length fs)) 0;
                totalSize := JSON.JStr (formatBytes (totalOf fs));
                totalBytes := JSON.JNum (totalOf fs) 0 |}.
Proof.
  intros Hr Hf Hs Hu Hm Hn Ht.
  destruct (handleFileSelect_spec (ui a) fs a) as (_ & _ & H).
  destruct (H target Hf Hu Hs) as (E & _).
  eexists. eexists. split; [exact E|].
  cbn [Server.step snd]. rewrite Hm. cbn [Server.name_of].
  destruct (String.eqb (Server.name me) EmptyString) eqn:En.
  { apply String.eqb_eq in En. done. }
  split.
  - apply io_to_connected; [exact Ht|].
    intros El. apply (Server.lobby_is_no_socket st); [|by rewrite <- El].
    eapply consistent_run; [apply consistent_init|exact Hr].
  - reflexivity.
Qed.

Lemma request_reaches_the_chosen_peer_witness :
  exists ev m,
    emitted (page (handleFileSelect (ui ann) [hello] ann)) = emitted (page ann) ++ [ev] /\
    (Server.step (Server.after Server.lobby_trace) "a1" ev).2 = [(Server.id bob_user, m)] /\
    forall lib,
      incomingRequest (ui (step lib bob (received m)))
      = Some {| from := myId (ui ann); fromName := Server.name ann_user;
                fileCount := JSON.JNum (Z.of_nat (length [hello])) 0;
                totalSize := JSON.JStr (formatBytes (totalOf [hello]));
                totalBytes := JSON.JNum (totalOf [hello]) 0 |}.
Proof.
  assert (H1 : Server.run Server.init Server.lobby_trace
               = Some (Server.after Server.lobby_trace)) by (vm_compute; reflexivity).
  assert (H2 : [hello] <> []) by discriminate.
  assert (H3 : socket (ui ann) = true) by reflexivity.
  assert (H4 : selectedUserRef (refs ann) = Some bob_user) by reflexivity.
  assert (H5 : Server.users (Server.after Server.lobby_trace) !! myId (ui ann)
               = Some ann_user) by (vm_compute; reflexivity).
  assert (H6 : Server.name ann_user <> EmptyString) by discriminate.
  assert (H7 : Server.id bob_user ∈ Server.sockets (Server.after Server.lobby_trace)).
  { apply (proj1 (bool_decide_eq_true _)). vm_compute. reflexivity. }
  exact (request_reaches_the_chosen_peer Server.lobby_trace _ ann bob [hello]
           bob_user ann_user "a1" H1 H2 H3 H4 H5 H6 H7).
Defined.

(** X24.  When a request is accepted, the answer goes through the
    relay to the requester alone, stamped with the id of the socket that
    accepted; the requester then makes no peer and emits nothing, and if it
    has files selected and knows the user it is left with the toast
    [Socket not connected] while [batchStatus] stays [connecting]. *)
Theorem accepted_request_stalls (lib : Library) (trace : list (string * Server.Event))
    (st : Server.State) (a b : Client) (rq : Request) (sid : string) :
  Server.run Server.init trace = Some st ->
  incomingRequest (ui b) = Some rq -> socket (ui b) = true ->
  from rq ∈ Server.sockets st ->
  exists ev,
    emitted (page (handleBatchAccept lib (ui b) b)) = emitted (page b) ++ [ev] /\
    (Server.step st sid ev).2 = [(from rq, Server.batch_answer sid true)] /\
    let a' := step lib a (received (Server.batch_answer sid true)) in
      page a' = page a /\ refs a' = refs a /\
      (selectedFilesRef (refs a) <> [] ->
       is_Some (List.find (fun u => String.eqb (Server.id u) sid) (usersRef (refs a))) ->
       toasts (ui a') = toasts (ui a) ++ [("Transfer accepted! Connecting...", "success");
                                          ("Socket not connected", "error")] /\
       batchStatus (ui a') = "connecting").
Proof.
  intros Hr Hq Hs Ht.
  destruct (proj2 (handleBatch_spec lib (ui b) b) rq Hq Hs) as (E & _).
  eexists. split; [exact E|]. split.
  - cbn [Server.step snd]. apply io_to_connected; [exact Ht|].
    intros El. apply (Server.lobby_is_no_socket st); [|by rewrite <- El].
    eapply consistent_run; [apply consistent_init|exact Hr].
  - cbv zeta. cbn [step].
    destruct (onBatchAnswer_spec sid true a) as (P1 & P2 & P3).
    split; [exact P1|]. split; [exact P2|]. intros H1 H2.
    destruct (P3 eq_refl H1 H2) as (T1 & T2 & _). by split.
Qed.

Lemma accepted_request_stalls_witness :
  exists ev,
    emitted (page (handleBatchAccept plain (ui bob) bob)) = emitted (page bob) ++ [ev] /\
    (Server.step (Server.after Server.lobby_trace) "b1" ev).2
    = [("a1", Server.batch_answer "b1" true)] /\
    let a' := step plain ann_asked (received (Server.batch_answer "b1" true)) in
    page a' = page ann_asked /\ refs a' = refs ann_asked /\
    toasts (ui a') = toasts (ui ann_asked)
                     ++ [("Transfer accepted! Connecting...", "success");
                         ("Socket not connected", "error")] /\
    batchStatus (ui a') = "connecting".
Proof.
  assert (H1 : Server.run Server.init Server.lobby_trace
               = Some (Server.after Server.lobby_trace)) by (vm_compute; reflexivity).
  assert (H2 : incomingRequest (ui bob)
               = Some {| from := "a1"; fromName := "Ann"; fileCount := JSON.JNum 1 0;
                         totalSize := JSON.JStr "5 B"; totalBytes := JSON.JNum 5 0 |})
    by reflexivity.
  assert (H3 : socket (ui bob) = true) by reflexivity.
  assert (H4 : "a1" ∈ Server.sockets (Server.after Server.lobby_trace)).
  { apply (proj1 (bool_decide_eq_true _)). vm_compute. reflexivity. }
  assert (H5 : selectedFilesRef (refs ann_asked) <> []) by discriminate.
  assert (H6 : is_Some (List.find (fun u => String.eqb (Server.id u) "b1")
                          (usersRef (refs ann_asked)))) by (eexists; reflexivity).
  destruct (accepted_request_stalls plain Server.lobby_trace _ ann_asked bob _ "b1"
              H1 H2 H3 H4) as (ev & E1 & E2 & E3 & E4 & E5).
  exists ev. split; [exact E1|]. split; [exact E2|]. split; [exact E3|].
  split; [exact E4|]. exact (E5 H5 H6).
Defined.

End ComponentAndRelay.
